(** * OHNM losses of the IMIP detector: a shallow embedding

    The two loss classes of the repository,
    [OHNMClassicImipLoss] (probability / negative log-likelihood form,
    "Variant A") and [OHNMBCELoss] (logit / binary cross entropy form,
    "Variant B"), are embedded as Rocq functions over tensors stored in
    row-major order.

    Numbers.  Scores are real numbers: the embedding idealises float32
    arithmetic (no rounding, no overflow, finite inputs).  A value computed
    by a logarithm or a division can leave the reals (log of a non-positive
    number, division by zero: the float would be an infinity or a NaN);
    such a value is [NonFinite] and every later operation propagates it.

    Failures.  Python exceptions are values of [exn]; fallible steps live
    in the [result] monad.  Variant B additionally threads its memoised
    weight dictionary. *)

From Stdlib Require Import Reals Lra Lia List Bool Arith ZArith.
From stdpp Require Import base gmap strings pretty list.
Import ListNotations.

Set Default Proof Using "Type".

(** ** Exceptions *)

Inductive exn : Set :=
| AssertionError
| IndexError
| RuntimeError
| ValueError
| KeyError
| ZeroDivisionError.

Inductive result (A : Type) : Type :=
| Ok (a : A)
| Raise (e : exn).
Arguments Ok {A} a.
Arguments Raise {A} e.

Definition rbind {A B : Type} (c : result A) (k : A -> result B) : result B :=
  match c with
  | Ok a => k a
  | Raise e => Raise e
  end.

Declare Scope result_scope.
Delimit Scope result_scope with result.
Notation "'let!' x ':=' c 'in' k" := (rbind c (fun x => k))
  (at level 10, x name, c at level 100, k at level 200,
   format "'[v' 'let!'  x  :=  c  'in' '/' k ']'") : result_scope.

(** Python's [assert], [%] and [//] on non-negative integers. *)
Definition py_assert (b : bool) : result unit :=
  if b then Ok tt else Raise AssertionError.

Definition py_mod (a b : nat) : result nat :=
  if b =? 0 then Raise ZeroDivisionError else Ok (a mod b).

Definition py_floordiv (a b : nat) : result nat :=
  if b =? 0 then Raise ZeroDivisionError else Ok (a / b).

(** An integer index [i] into a dimension of size [d]: negative indices
    count from the end, anything else out of range raises. *)
Definition py_index (i : Z) (d : nat) : result nat :=
  if ((0 <=? i) && (i <? Z.of_nat d))%Z then Ok (Z.to_nat i)
  else if ((- Z.of_nat d <=? i) && (i <? 0))%Z then Ok (Z.to_nat (i + Z.of_nat d))
  else Raise IndexError.

(** ** Numbers *)

Inductive num : Type :=
| Fin (r : R)
| NonFinite.

Definition nlift2 (f : R -> R -> R) (a b : num) : num :=
  match a, b with
  | Fin x, Fin y => Fin (f x y)
  | _, _ => NonFinite
  end.

Definition nadd : num -> num -> num := nlift2 Rplus.
Definition nsub : num -> num -> num := nlift2 Rminus.
Definition nmul : num -> num -> num := nlift2 Rmult.

Definition ndiv (a b : num) : num :=
  match a, b with
  | Fin x, Fin y => if Req_dec_T y 0 then NonFinite else Fin (x / y)
  | _, _ => NonFinite
  end.

Definition nlog (a : num) : num :=
  match a with
  | Fin x => if Rlt_dec 0 x then Fin (ln x) else NonFinite
  | NonFinite => NonFinite
  end.

Definition nsum (l : list num) : num := fold_right nadd (Fin 0) l.

Definition is_finite (a : num) : Prop := exists r, a = Fin r.

(** ** Tensors *)

(** A float tensor: its shape, its elements in row-major order, and the
    autograd flag. *)
Record tensor : Type := Tensor {
  shape : list nat;
  data : list R;
  requires_grad : bool
}.

(** The loss functions receive four-dimensional score tensors
    ([BxCxHxW], as the comments of [forward_with_log_data] say). *)
Record tensor4 : Type := Tensor4 {
  dim0 : nat;
  dim1 : nat;
  dim2 : nat;
  dim3 : nat;
  data4 : list R;
  requires_grad4 : bool
}.

Definition of_tensor4 (t : tensor4) : tensor :=
  {| shape := [dim0 t; dim1 t; dim2 t; dim3 t];
     data := data4 t;
     requires_grad := requires_grad4 t |}.

(** A zero-dimensional float tensor (a loss term). *)
Record scalar : Type := Scalar {
  value : num;
  grad : bool
}.

(** A two-dimensional [uint8] tensor holding only 0 and 1 (every byte
    tensor of the program is built from boolean labels and identity
    matrices); [true] is 1. *)
Record mask : Type := Mask {
  mrows : nat;
  mcols : nat;
  cells : list bool
}.

Definition tabulate2 {A : Type} (rows cols : nat) (f : nat -> nat -> A) : list A :=
  flat_map (fun r => map (f r) (seq 0 cols)) (seq 0 rows).

Definition cell (m : mask) (r c : nat) : bool :=
  nth (r * mcols m + c) (cells m) false.

Module torch.

Definition sigmoid (x : R) : R := (1 / (1 + exp (- x)))%R.

Definition sigmoid_ (t : tensor) : tensor :=
  {| shape := shape t; data := map sigmoid (data t);
     requires_grad := requires_grad t |}.

(** [t.squeeze()]: every dimension of size 1 is dropped. *)
Definition squeeze (t : tensor) : tensor :=
  {| shape := List.filter (fun d => negb (d =? 1)) (shape t);
     data := data t;
     requires_grad := requires_grad t |}.

(** [t.shape[i]] *)
Definition shape_at (t : tensor) (i : nat) : result nat :=
  match nth_error (shape t) i with
  | Some d => Ok d
  | None => Raise IndexError
  end.

(** [t[:, :, i, i]] on a four-dimensional tensor. *)
Definition index_center (t : tensor) (i : Z) : result tensor :=
  match shape t with
  | [b; c; h; w] =>
      (let! y := py_index i h in
       let! x := py_index i w in
       Ok {| shape := [b; c];
             data := map (fun k => nth ((k * h + y) * w + x) (data t) 0%R)
                         (seq 0 (b * c));
             requires_grad := requires_grad t |})%result
  | _ => Raise IndexError
  end.

(** [torch.diag(v)] for a one-dimensional [v]. *)
Definition diag (v : list bool) : mask :=
  let n := length v in
  {| mrows := n; mcols := n;
     cells := tabulate2 n n (fun r c => if r =? c then nth r v false else false) |}.

(** [torch.eye(n, dtype=torch.uint8)] *)
Definition eye (n : nat) : mask :=
  {| mrows := n; mcols := n; cells := tabulate2 n n (fun r c => r =? c) |}.

(** [v.repeat_interleave(n)] for a one-dimensional [v]. *)
Definition repeat_interleave {A : Type} (v : list A) (n : nat) : list A :=
  flat_map (fun x => repeat x n) v.

(** [torch.repeat_interleave(m, n, dim=0)]: every row [n] times. *)
Definition repeat_interleave_rows (m : mask) (n : nat) : mask :=
  {| mrows := mrows m * n; mcols := mcols m;
     cells := tabulate2 (mrows m * n) (mcols m) (fun r c => cell m (r / n) c) |}.

(** [torch.arange(0, stop, step)] with a non-negative step. *)
Definition arange (stop step : nat) : result (list nat) :=
  if step =? 0 then Raise RuntimeError
  else Ok (map (fun k => k * step) (seq 0 ((stop + step - 1) / step))).

(** Broadcasting of two one-dimensional byte tensors under a bitwise
    operation. *)
Definition bitwise (f : bool -> bool -> bool) (a b : list bool)
  : result (list bool) :=
  if length a =? length b then Ok (map (fun p => f (fst p) (snd p)) (combine a b))
  else if length a =? 1 then Ok (map (f (nth 0 a false)) b)
  else if length b =? 1 then Ok (map (fun x => f x (nth 0 b false)) a)
  else Raise RuntimeError.

(** [dst[idx] = src] for one-dimensional tensors: [src] has the length of
    [idx] or is a single element, and every index is in range. *)
Definition index_put (dst : list bool) (idx : list nat) (src : list bool)
  : result (list bool) :=
  if negb ((length src =? length idx) || (length src =? 1)) then
    Raise RuntimeError
  else if negb (forallb (fun i => i <? length dst) idx) then
    Raise IndexError
  else
    Ok (fold_left
          (fun acc p => <[fst p := snd p]> acc)
          (combine idx (if length src =? length idx then src
                        else repeat (nth 0 src false) (length idx)))
          dst).

(** [v[:, None] * m]: a column of bytes times a byte matrix. *)
Definition column_times (v : list bool) (m : mask) : result mask :=
  let n := length v in
  if (n =? mrows m) || (n =? 1) || (mrows m =? 1) then
    let rows := Nat.max n (mrows m) in
    Ok {| mrows := rows; mcols := mcols m;
          cells := tabulate2 rows (mcols m)
                     (fun r c => nth (if n =? 1 then 0 else r) v false
                                 && cell m (if mrows m =? 1 then 0 else r) c) |}
  else Raise RuntimeError.

(** [m ^ v.unsqueeze(1)]: a byte matrix xor a column of bytes. *)
Definition xor_column (m : mask) (v : list bool) : result mask :=
  let n := length v in
  if (n =? mrows m) || (n =? 1) || (mrows m =? 1) then
    let rows := Nat.max n (mrows m) in
    Ok {| mrows := rows; mcols := mcols m;
          cells := tabulate2 rows (mcols m)
                     (fun r c => xorb (cell m (if mrows m =? 1 then 0 else r) c)
                                      (nth (if n =? 1 then 0 else r) v false)) |}
  else Raise RuntimeError.

(** Elements of [data], taken in blocks of [k], at the positions where
    the mask is set. *)
Fixpoint select_blocks {A : Type} (k : nat) (m : list bool) (l : list A)
  : list A :=
  match m with
  | [] => []
  | b :: m' =>
      (if b then firstn k l else []) ++ select_blocks k m' (skipn k l)
  end.

(** [t[m]] with a two-dimensional byte mask [m]: the mask must cover the
    two leading dimensions of [t] exactly. *)
Definition masked_select (t : tensor) (m : mask) : result (list R) :=
  match shape t with
  | d0 :: d1 :: rest =>
      if (d0 =? mrows m) && (d1 =? mcols m) then
        Ok (select_blocks (fold_right Nat.mul 1 rest) (cells m) (data t))
      else Raise IndexError
  | _ => Raise IndexError
  end.

(** [v[m]] for one-dimensional [v] and byte mask [m]. *)
Definition masked_select1 {A : Type} (v : list A) (m : list bool)
  : result (list A) :=
  if length v =? length m then Ok (select_blocks 1 m v) else Raise IndexError.

(** [t[idx]] for a two-dimensional [t] and a list of row indices. *)
Definition index_rows (t : tensor) (idx : list nat) : result tensor :=
  match shape t with
  | [b; c] =>
      if forallb (fun i => i <? b) idx then
        Ok {| shape := [length idx; c];
              data := flat_map (fun i => firstn c (skipn (i * c) (data t))) idx;
              requires_grad := requires_grad t |}
      else Raise IndexError
  | _ => Raise IndexError
  end.

(** The element-wise loss of
    [torch.nn.functional.binary_cross_entropy_with_logits]. *)
Definition bce_with_logits (x y : R) : R :=
  (- (y * ln (sigmoid x) + (1 - y) * ln (1 - sigmoid x)))%R.

(** [binary_cross_entropy_with_logits(input, target, weight,
    reduction="sum")] on one-dimensional tensors. *)
Definition binary_cross_entropy_with_logits
    (input target : list R) (weight : option (list num)) : result num :=
  if negb (length input =? length target) then Raise ValueError
  else
    let losses := map (fun p => Fin (bce_with_logits (fst p) (snd p)))
                      (combine input target) in
    match weight with
    | None => Ok (nsum losses)
    | Some w =>
        if length w =? length losses then
          Ok (nsum (map (fun p => nmul (fst p) (snd p)) (combine losses w)))
        else Raise RuntimeError
    end.

End torch.

Definition count_true (l : list bool) : nat := length (List.filter (fun b : bool => b) l).

Definition b2r (b : bool) : R := if b then 1%R else 0%R.

Definition sadd (x y : scalar) : scalar :=
  {| value := nadd (value x) (value y); grad := grad x || grad y |}.

Definition detach (x : scalar) : scalar :=
  {| value := value x; grad := false |}.

(** [torch.zeros(1, requires_grad=True)] *)
Definition zeros_tracked : scalar := {| value := Fin 0; grad := true |}.

(** The centre extraction shared by both [forward_with_log_data]:
    [if t.shape[2] != 1: center_px = (t.shape[2] - 1) // 2;
     t = t[:, :, center_px, center_px]]. *)
Definition center_values (t : tensor) : result tensor :=
  (let! h := torch.shape_at t 2 in
   if h =? 1 then Ok t
   else torch.index_center t ((Z.of_nat h - 1) / 2)%Z)%result.

(** The dictionary returned next to the total: term names in the order of
    the dictionary literal, [None] for an absent term. *)
Definition components : Type := list (string * option scalar).

Definition component (name : string) (d : components) : option (option scalar) :=
  option_map snd (List.find (fun p => String.eqb (fst p) name) d).

(** ** Variant A: [OHNMClassicImipLoss]
    (epipointnet/imips_pytorch/losses/ohnm_avg_outlier_balanced_classic.py) *)

Module OHNMClassicImipLoss.

Definition _add_if_not_none (x : scalar) (y : option scalar) : scalar :=
  match y with
  | Some y' => sadd x y'
  | None => x
  end.

Definition _detach_if_not_none (x : option scalar) : option scalar :=
  match x with
  | Some x' => Some (detach x')
  | None => None
  end.

(** [torch.sum(-1 * torch.log(torch.max(v, self._epsilon)))] *)
Definition sum_neg_log_floor (epsilon : R) (v : list R) : num :=
  nsum (map (fun p => nmul (Fin (-1)) (nlog (Fin (Rmax p epsilon)))) v).

(** [-1 * torch.log(torch.max(-1 * maximizer_outputs + 1, self._epsilon))] *)
Definition outlier_maximizer_scores (epsilon : R) (v : list R) : list num :=
  map (fun p => nmul (Fin (-1)) (nlog (Fin (Rmax (-1 * p + 1) epsilon)))) v.

(** [m.sum(dim=0).clamp_min(1.0)] at column [c] *)
Definition num_outliers_per_channel (m : mask) (c : nat) : nat :=
  Nat.max (count_true (map (fun r => cell m r c) (seq 0 (mrows m)))) 1.

(** [((scores * m).sum(dim=0) / num_outliers_per_channel).sum()] *)
Definition averaged_outlier_sum (scores : list num) (m : mask) : num :=
  let weighted :=
    map (fun p => nmul (fst p) (Fin (b2r (snd p)))) (combine scores (cells m)) in
  nsum (map (fun c =>
               ndiv (nsum (map (fun r => nth (r * mcols m + c) weighted (Fin 0))
                               (seq 0 (mrows m))))
                    (Fin (INR (num_outliers_per_channel m c))))
            (seq 0 (mcols m))).

Definition forward_with_log_data (epsilon : R)
    (maximizer_outputs correspondence_outputs : tensor4)
    (inlier_labels outlier_labels : list bool)
  : result (scalar * components) :=
  (let! r := py_mod (dim0 maximizer_outputs) (dim1 maximizer_outputs) in
   let! a1 := py_assert (r =? 0) in
   let! a2 := py_assert (dim2 maximizer_outputs =? dim3 maximizer_outputs) in
   let! maximizer_outputs := center_values (of_tensor4 maximizer_outputs) in
   let! correspondence_outputs := center_values (of_tensor4 correspondence_outputs) in
   let maximizer_outputs := torch.sigmoid_ (torch.squeeze maximizer_outputs) in
   let correspondence_outputs := torch.sigmoid_ (torch.squeeze correspondence_outputs) in

   let corr_outlier_index_2d := torch.diag outlier_labels in
   let! aligned_outlier_corr_outputs :=
     torch.masked_select correspondence_outputs corr_outlier_index_2d in
   let outlier_correspondence_loss :=
     if length aligned_outlier_corr_outputs =? 0 then None
     else Some {| value := sum_neg_log_floor epsilon aligned_outlier_corr_outputs;
                  grad := requires_grad correspondence_outputs |} in

   let! b := torch.shape_at maximizer_outputs 0 in
   let! c := torch.shape_at maximizer_outputs 1 in
   let! num_patches_per_channel := py_floordiv b c in
   let zeros := repeat false (length inlier_labels * num_patches_per_channel) in
   let! maximum_patch_index := torch.arange b num_patches_per_channel in
   let! expanded_inlier_labels :=
     torch.index_put zeros maximum_patch_index inlier_labels in

   let! has_data_labels := torch.bitwise orb inlier_labels outlier_labels in
   let! expanded_outlier_labels :=
     torch.bitwise andb
       (torch.repeat_interleave has_data_labels num_patches_per_channel)
       (map negb expanded_inlier_labels) in

   let! maxima_inlier_index_2d :=
     torch.column_times expanded_inlier_labels
       (torch.repeat_interleave_rows (torch.eye c) num_patches_per_channel) in
   let! maxima_outlier_index_2d :=
     torch.column_times expanded_outlier_labels
       (torch.repeat_interleave_rows (torch.eye c) num_patches_per_channel) in

   let! outlier_maximizer_loss :=
     if count_true (cells maxima_outlier_index_2d) =? 0 then Ok None
     else if (b =? mrows maxima_outlier_index_2d)
             && (c =? mcols maxima_outlier_index_2d) then
       Ok (Some {| value :=
                     averaged_outlier_sum
                       (outlier_maximizer_scores epsilon (data maximizer_outputs))
                       maxima_outlier_index_2d;
                   grad := requires_grad maximizer_outputs |})
     else Raise RuntimeError in

   let! aligned_inlier_maximizer_scores :=
     torch.masked_select maximizer_outputs maxima_inlier_index_2d in
   let inlier_loss :=
     if length aligned_inlier_maximizer_scores =? 0 then None
     else Some {| value := sum_neg_log_floor epsilon aligned_inlier_maximizer_scores;
                  grad := requires_grad maximizer_outputs |} in

   let! maximizer_outputs := torch.index_rows maximizer_outputs maximum_patch_index in
   let! unaligned_inlier_index :=
     torch.xor_column (torch.diag inlier_labels) inlier_labels in
   let! unaligned_inlier_maximizer_scores :=
     torch.masked_select maximizer_outputs unaligned_inlier_index in
   let unaligned_maximizer_loss :=
     if length unaligned_inlier_maximizer_scores =? 0 then zeros_tracked
     else {| value := nsum (map Fin unaligned_inlier_maximizer_scores);
             grad := requires_grad maximizer_outputs |} in

   let total_loss := zeros_tracked in
   let total_loss := _add_if_not_none total_loss outlier_correspondence_loss in
   let total_loss := _add_if_not_none total_loss outlier_maximizer_loss in
   let total_loss := _add_if_not_none total_loss inlier_loss in
   let total_loss := _add_if_not_none total_loss (Some unaligned_maximizer_loss) in

   Ok (total_loss,
       [ ("loss"%string, Some (detach total_loss));
         ("outlier_correspondence_loss"%string,
            _detach_if_not_none outlier_correspondence_loss);
         ("outlier_maximizer_loss"%string,
            _detach_if_not_none outlier_maximizer_loss);
         ("inlier_maximizer_loss"%string, _detach_if_not_none inlier_loss);
         ("unaligned_maximizer_loss"%string,
            _detach_if_not_none (Some unaligned_maximizer_loss)) ]))%result.

End OHNMClassicImipLoss.

(** ** Variant B: [OHNMBCELoss] (imipnet/losses/ohnm_outlier_balanced_bce.py) *)

(** Computations of Variant B read and extend the dictionary
    [self._bce_maxima_outlier_weights]; an exception leaves the dictionary
    as it was when it was raised. *)
Definition stateful (A : Type) : Type :=
  gmap string num -> result A * gmap string num.

Definition sret {A : Type} (a : A) : stateful A := fun s => (Ok a, s).

Definition sbind {A B : Type} (c : stateful A) (k : A -> stateful B) : stateful B :=
  fun s =>
    match c s with
    | (Ok a, s') => k a s'
    | (Raise e, s') => (Raise e, s')
    end.

Definition lift {A : Type} (r : result A) : stateful A := fun s => (r, s).

Declare Scope stateful_scope.
Delimit Scope stateful_scope with stateful.
Notation "'let!' x ':=' c 'in' k" := (sbind c (fun x => k))
  (at level 10, x name, c at level 100, k at level 200,
   format "'[v' 'let!'  x  :=  c  'in' '/' k ']'") : stateful_scope.

Module OHNMBCELoss.

(** Python's [str] on a non-negative integer. *)
Definition str (n : nat) : string := pretty n.

(** The dictionary built by [__init__]. *)
Definition init_weights : gmap string num := {[ str 1 := Fin 1%R ]}.

Definition _add_if_not_none (x : scalar) (y : option scalar) : scalar :=
  match y with
  | Some y' => sadd x y'
  | None => x
  end.

Definition _detach_if_not_none (x : option scalar) : option scalar :=
  match x with
  | Some x' => Some (detach x')
  | None => None
  end.

(** [k * torch.log(k - 1) - torch.log((k - 1) / k) - k * torch.log(k) + 1] *)
Definition outlier_weight_formula (k : num) : num :=
  nadd (nsub (nsub (nmul k (nlog (nsub k (Fin 1%R))))
                   (nlog (ndiv (nsub k (Fin 1%R)) k)))
             (nmul k (nlog k)))
       (Fin 1%R).

Definition _get_bce_maxima_outlier_weight (num_patches_per_channel : nat)
  : stateful num :=
  fun weights =>
    let nppc_str := str num_patches_per_channel in
    let filled :=
      match weights !! nppc_str with
      | Some _ => Ok weights
      | None =>
          match weights !! str 1 with
          | None => Raise KeyError
          | Some _ =>
              let k := Fin (INR num_patches_per_channel) in
              Ok (<[nppc_str := outlier_weight_formula k]> weights)
          end
      end in
    match filled with
    | Raise e => (Raise e, weights)
    | Ok weights' =>
        match weights' !! nppc_str with
        | Some w => (Ok w, weights')
        | None => (Raise KeyError, weights')
        end
    end.

Definition forward_with_log_data
    (maximizer_outputs correspondence_outputs : tensor4)
    (inlier_labels outlier_labels : list bool)
  : stateful (scalar * components) :=
  (let! r := lift (py_mod (dim0 maximizer_outputs) (dim1 maximizer_outputs)) in
   let! a1 := lift (py_assert (r =? 0)) in
   let! a2 := lift (py_assert (dim2 maximizer_outputs =? dim3 maximizer_outputs)) in
   let! maximizer_outputs := lift (center_values (of_tensor4 maximizer_outputs)) in
   let! correspondence_outputs :=
     lift (center_values (of_tensor4 correspondence_outputs)) in
   let maximizer_outputs := torch.squeeze maximizer_outputs in
   let correspondence_outputs := torch.squeeze correspondence_outputs in

   let corr_outlier_index_2d := torch.diag outlier_labels in
   let! aligned_outlier_corr_outputs :=
     lift (torch.masked_select correspondence_outputs corr_outlier_index_2d) in
   let aligned_corr_labels := map (fun _ => 1%R) aligned_outlier_corr_outputs in
   let! aligned_corr_losses :=
     if length aligned_outlier_corr_outputs =? 0 then sret None
     else
       let! l := lift (torch.binary_cross_entropy_with_logits
                         aligned_outlier_corr_outputs aligned_corr_labels None) in
       sret (Some {| value := l; grad := requires_grad correspondence_outputs |}) in

   let! b := lift (torch.shape_at maximizer_outputs 0) in
   let! c := lift (torch.shape_at maximizer_outputs 1) in
   let! num_patches_per_channel := lift (py_floordiv b c) in
   let zeros := repeat false (length inlier_labels * num_patches_per_channel) in
   let! maximum_patch_index := lift (torch.arange b num_patches_per_channel) in
   let! expanded_inlier_labels :=
     lift (torch.index_put zeros maximum_patch_index inlier_labels) in

   let! has_data_labels := lift (torch.bitwise orb inlier_labels outlier_labels) in
   let expanded_has_data_labels :=
     torch.repeat_interleave has_data_labels num_patches_per_channel in

   let! maxima_bce_labels :=
     lift (torch.masked_select1 expanded_inlier_labels expanded_has_data_labels) in
   let! maxima_losses :=
     if length maxima_bce_labels =? 0 then sret None
     else
       let! w := _get_bce_maxima_outlier_weight num_patches_per_channel in
       let maxima_weights :=
         map (fun y : bool => if y then Fin 1%R else w) maxima_bce_labels in
       let! has_data_eye := lift (torch.column_times has_data_labels (torch.eye c)) in
       let maxima_has_data_index_2d :=
         torch.repeat_interleave_rows has_data_eye num_patches_per_channel in
       let! selected :=
         lift (torch.masked_select maximizer_outputs maxima_has_data_index_2d) in
       let! l := lift (torch.binary_cross_entropy_with_logits
                         selected (map b2r maxima_bce_labels) (Some maxima_weights)) in
       sret (Some {| value := l; grad := requires_grad maximizer_outputs |}) in

   let! maximizer_outputs :=
     lift (torch.index_rows maximizer_outputs maximum_patch_index) in
   let aligned_inlier_index := torch.diag inlier_labels in
   let! unaligned_inlier_index :=
     lift (torch.xor_column aligned_inlier_index inlier_labels) in
   let! unaligned_inlier_outputs :=
     lift (torch.masked_select maximizer_outputs unaligned_inlier_index) in
   let! unaligned_maxima_losses :=
     if length unaligned_inlier_outputs =? 0 then sret None
     else
       let unaligned_bce_labels := map (fun _ => 0%R) unaligned_inlier_outputs in
       let! l := lift (torch.binary_cross_entropy_with_logits
                         unaligned_inlier_outputs unaligned_bce_labels None) in
       sret (Some {| value := l; grad := requires_grad maximizer_outputs |}) in

   let total_loss := zeros_tracked in
   let total_loss := _add_if_not_none total_loss maxima_losses in
   let total_loss := _add_if_not_none total_loss aligned_corr_losses in
   let total_loss := _add_if_not_none total_loss unaligned_maxima_losses in

   sret (total_loss,
         [ ("loss"%string, Some (detach total_loss));
           ("bce_maximizer_loss"%string, _detach_if_not_none maxima_losses);
           ("outlier_correspondence_loss"%string,
              _detach_if_not_none aligned_corr_losses);
           ("unaligned_maximizer_loss"%string,
              _detach_if_not_none unaligned_maxima_losses) ]))%stateful.

End OHNMBCELoss.

(** ** Normal forms of the batch layout and of the selection masks *)

(** The elements left by the centre extraction and the squeeze. *)
Definition centered (t : tensor4) : list R :=
  if dim2 t =? 1 then data4 t
  else
    let cp := (dim2 t - 1) / 2 in
    map (fun k => nth ((k * dim2 t + cp) * dim3 t + cp) (data4 t) 0%R)
        (seq 0 (dim0 t * dim1 t)).

Definition well_stored (t : tensor4) : Prop :=
  length (data4 t) = dim0 t * dim1 t * dim2 t * dim3 t.

Definition expanded_inlier (n : nat) (inlier : list bool) : list bool :=
  map (fun i => (i mod n =? 0) && nth (i / n) inlier false)
      (seq 0 (length inlier * n)).

Definition maxima_index (v : list bool) (c n : nat) : mask :=
  {| mrows := c * n; mcols := c;
     cells := tabulate2 (c * n) c (fun r j => nth r v false && (r / n =? j)) |}.

Definition unaligned_index (inlier : list bool) : mask :=
  {| mrows := length inlier; mcols := length inlier;
     cells := tabulate2 (length inlier) (length inlier)
                (fun r j => xorb (if r =? j then nth r inlier false else false)
                                 (nth r inlier false)) |}.

Definition has_data (inlier outlier : list bool) : list bool :=
  map (fun p => fst p || snd p) (combine inlier outlier).

Definition expanded_outlier (n : nat) (inlier outlier : list bool) : list bool :=
  map (fun p => fst p && snd p)
      (combine (torch.repeat_interleave (has_data inlier outlier) n)
               (map negb (expanded_inlier n inlier))).

Definition maximizing_rows (c n : nat) (d : list R) : list R :=
  flat_map (fun i => firstn c (skipn (i * c) d)) (map (fun k => k * n) (seq 0 c)).

(** The preconditions of [forward_with_log_data] for [c] channels with [n]
    candidate patches each: a batch of [c * n] rows, square footprints,
    labels of length [c] that are never both set, and at least two
    channels. *)
Record well_formed_input (c n : nat) (m k : tensor4) (inlier outlier : list bool)
  : Prop := {
  wf_channels : 2 <= c;
  wf_patches : 1 <= n;
  wf_rows : dim0 m = c * n;
  wf_cols : dim1 m = c;
  wf_square : dim2 m = dim3 m;
  wf_side : 1 <= dim2 m;
  wf_stored : well_stored m;
  wf_corr_rows : dim0 k = c;
  wf_corr_cols : dim1 k = c;
  wf_corr_square : dim2 k = dim3 k;
  wf_corr_side : 1 <= dim2 k;
  wf_corr_stored : well_stored k;
  wf_inlier : length inlier = c;
  wf_outlier : length outlier = c;
  wf_disjoint : forall i, nth i inlier false && nth i outlier false = false
}.

(** The squashed scores of Variant A. *)
Definition probabilities (t : tensor4) : list R := map torch.sigmoid (centered t).

Definition classic_outlier_correspondence (epsilon : R) (k : tensor4)
    (outlier : list bool) : option scalar :=
  let sel := torch.select_blocks 1 (cells (torch.diag outlier)) (probabilities k) in
  if length sel =? 0 then None
  else Some {| value := OHNMClassicImipLoss.sum_neg_log_floor epsilon sel;
               grad := requires_grad4 k |}.

Definition classic_outlier_maximizer (epsilon : R) (m : tensor4) (c n : nat)
    (inlier outlier : list bool) : option scalar :=
  let idx := maxima_index (expanded_outlier n inlier outlier) c n in
  if count_true (cells idx) =? 0 then None
  else Some {| value :=
                 OHNMClassicImipLoss.averaged_outlier_sum
                   (OHNMClassicImipLoss.outlier_maximizer_scores epsilon (probabilities m))
                   idx;
               grad := requires_grad4 m |}.

Definition classic_inlier (epsilon : R) (m : tensor4) (c n : nat)
    (inlier : list bool) : option scalar :=
  let sel := torch.select_blocks 1 (cells (maxima_index (expanded_inlier n inlier) c n))
                                 (probabilities m) in
  if length sel =? 0 then None
  else Some {| value := OHNMClassicImipLoss.sum_neg_log_floor epsilon sel;
               grad := requires_grad4 m |}.

Definition classic_unaligned (m : tensor4) (c n : nat) (inlier : list bool) : scalar :=
  let sel := torch.select_blocks 1 (cells (unaligned_index inlier))
                                 (maximizing_rows c n (probabilities m)) in
  if length sel =? 0 then zeros_tracked
  else {| value := nsum (map Fin sel); grad := requires_grad4 m |}.

(** The total and the dictionary assembled from the four terms. *)
Definition classic_report (t1 t2 t3 : option scalar) (t4 : scalar)
  : scalar * components :=
  let total :=
    OHNMClassicImipLoss._add_if_not_none
      (OHNMClassicImipLoss._add_if_not_none
         (OHNMClassicImipLoss._add_if_not_none
            (OHNMClassicImipLoss._add_if_not_none zeros_tracked t1) t2) t3)
      (Some t4) in
  (total,
   [ ("loss"%string, Some (detach total));
     ("outlier_correspondence_loss"%string,
        OHNMClassicImipLoss._detach_if_not_none t1);
     ("outlier_maximizer_loss"%string, OHNMClassicImipLoss._detach_if_not_none t2);
     ("inlier_maximizer_loss"%string, OHNMClassicImipLoss._detach_if_not_none t3);
     ("unaligned_maximizer_loss"%string,
        OHNMClassicImipLoss._detach_if_not_none (Some t4)) ]).

Definition has_data_index (hd : list bool) (c n : nat) : mask :=
  {| mrows := c * n; mcols := c;
     cells := tabulate2 (c * n) c (fun r j => nth (r / n) hd false && (r / n =? j)) |}.

(** The weight that a request for [n] patches per channel yields: the
    entry stored by [__init__] for [n = 1], the closed form otherwise. *)
Definition outlier_weight (n : nat) : num :=
  if n =? 1 then Fin 1%R else OHNMBCELoss.outlier_weight_formula (Fin (INR n)).

(** The dictionaries that [__init__] and the weight requests can produce. *)
Definition weights_ok (ws : gmap string num) : Prop :=
  ws !! OHNMBCELoss.str 1 = Some (Fin 1%R)
  /\ forall n v, n <> 1 -> ws !! OHNMBCELoss.str n = Some v ->
                 v = OHNMBCELoss.outlier_weight_formula (Fin (INR n)).

Definition bce_sum (input target : list R) (weight : list num) : num :=
  nsum (map (fun p => nmul (fst p) (snd p))
            (combine (map (fun p => Fin (torch.bce_with_logits (fst p) (snd p)))
                          (combine input target))
                     weight)).

Definition bce_plain_sum (input target : list R) : num :=
  nsum (map (fun p => Fin (torch.bce_with_logits (fst p) (snd p)))
            (combine input target)).

Definition bce_outlier_correspondence (k : tensor4) (outlier : list bool)
  : option scalar :=
  let sel := torch.select_blocks 1 (cells (torch.diag outlier)) (centered k) in
  if length sel =? 0 then None
  else Some {| value := bce_plain_sum sel (map (fun _ => 1%R) sel);
               grad := requires_grad4 k |}.

Definition bce_maxima_labels (n : nat) (inlier outlier : list bool) : list bool :=
  torch.select_blocks 1 (torch.repeat_interleave (has_data inlier outlier) n)
                      (expanded_inlier n inlier).

Definition bce_maxima (m : tensor4) (c n : nat) (inlier outlier : list bool)
  : option scalar :=
  let labels := bce_maxima_labels n inlier outlier in
  if length labels =? 0 then None
  else
    Some {| value :=
              bce_sum
                (torch.select_blocks 1
                   (cells (has_data_index (has_data inlier outlier) c n))
                   (centered m))
                (map b2r labels)
                (map (fun y : bool => if y then Fin 1%R else outlier_weight n) labels);
            grad := requires_grad4 m |}.

Definition bce_unaligned (m : tensor4) (c n : nat) (inlier : list bool)
  : option scalar :=
  let sel := torch.select_blocks 1 (cells (unaligned_index inlier))
                                 (maximizing_rows c n (centered m)) in
  if length sel =? 0 then None
  else Some {| value := bce_plain_sum sel (map (fun _ => 0%R) sel);
               grad := requires_grad4 m |}.

Definition bce_report (t_max t_corr t_un : option scalar) : scalar * components :=
  let total :=
    OHNMBCELoss._add_if_not_none
      (OHNMBCELoss._add_if_not_none
         (OHNMBCELoss._add_if_not_none zeros_tracked t_max) t_corr) t_un in
  (total,
   [ ("loss"%string, Some (detach total));
     ("bce_maximizer_loss"%string, OHNMBCELoss._detach_if_not_none t_max);
     ("outlier_correspondence_loss"%string, OHNMBCELoss._detach_if_not_none t_corr);
     ("unaligned_maximizer_loss"%string, OHNMBCELoss._detach_if_not_none t_un) ]).

(** The dictionary after a call of Variant B. *)
Definition weights_after (n : nat) (inlier outlier : list bool)
    (ws : gmap string num) : gmap string num :=
  if length (bce_maxima_labels n inlier outlier) =? 0 then ws
  else <[OHNMBCELoss.str n := outlier_weight n]> ws.

(** A finite, non-negative number. *)
Definition nonneg (a : num) : Prop := exists r, a = Fin r /\ (0 <= r)%R.


(** Batches given by their scores, with a 1x1 footprint: four rows by two
    channels, and two rows by two channels. *)
Definition scores_4x2 (x00 x01 x10 x11 x20 x21 x30 x31 : R) (g : bool) : tensor4 :=
  {| dim0 := 4; dim1 := 2; dim2 := 1; dim3 := 1;
     data4 := [x00; x01; x10; x11; x20; x21; x30; x31];
     requires_grad4 := g |}.

Definition scores_2x2 (x00 x01 x10 x11 : R) (g : bool) : tensor4 :=
  {| dim0 := 2; dim1 := 2; dim2 := 1; dim3 := 1;
     data4 := [x00; x01; x10; x11]; requires_grad4 := g |}.

(** ** Concrete batches used as examples *)

(** Two channels, one patch each, every score zero; channel 0 is an
    inlier, channel 1 an outlier. *)
Definition example_scores : tensor4 :=
  {| dim0 := 2; dim1 := 2; dim2 := 1; dim3 := 1;
     data4 := [0; 0; 0; 0]%R; requires_grad4 := true |}.

Definition example_inlier : list bool := [true; false].
Definition example_outlier : list bool := [false; true].

(** One channel with one patch, a 1x1 footprint and an inlier label: every
    stated precondition holds. *)
Definition single_channel_scores : tensor4 :=
  {| dim0 := 1; dim1 := 1; dim2 := 1; dim3 := 1;
     data4 := [0%R]; requires_grad4 := true |}.

(** The score whose squashed value is [p]. *)
Definition logit (p : R) : R := ln (p / (1 - p)).

(** The unaligned selection as the specification's scenario reads it: row
    and column both inliers, off the diagonal. *)
Definition spec_unaligned_selection (inlier : list bool) (r j : nat) : bool :=
  nth r inlier false && nth j inlier false && negb (r =? j).

(** Scenario 3: three channels, one patch each, channels 0 and 2 inliers.
    The squashed own responses are 0.7, 0.3 and 0.6, the cross responses
    between the two inlier channels are 0.7 and 0.6, every other squashed
    response is 0.5. *)
Definition scenario3_scores : tensor4 :=
  {| dim0 := 3; dim1 := 3; dim2 := 1; dim3 := 1;
     data4 := [logit 0.7; 0; logit 0.7;
               0; logit 0.3; 0;
               logit 0.6; 0; logit 0.6]%R;
     requires_grad4 := true |}.

Definition scenario3_corr : tensor4 :=
  {| dim0 := 3; dim1 := 3; dim2 := 1; dim3 := 1;
     data4 := [0; 0; 0; 0; 0; 0; 0; 0; 0]%R;
     requires_grad4 := true |}.

Definition scenario3_inlier : list bool := [true; false; true].
Definition scenario3_outlier : list bool := [false; false; false].

(** Scenario 1: two channels with two patches each, both inliers.  The
    squashed own block of channel 0 is [0.9, 0.1], that of channel 1 is
    [0.2, 0.8]; every other squashed response is 0.5. *)
Definition scenario1_scores : tensor4 :=
  scores_4x2 (logit 0.9) 0
             (logit 0.1) 0
             0 (logit 0.2)
             0 (logit 0.8) true.

Definition scenario1_corr : tensor4 := scores_2x2 0 0 0 0 true.

Definition scenario1_inlier : list bool := [true; true].
Definition scenario1_outlier : list bool := [false; false].

(** Scenario 2: two channels with one patch each, both outliers.  The
    squashed correspondence responses on the diagonal are 0.95 and 0.9;
    every other squashed response is 0.5. *)
Definition scenario2_scores : tensor4 := scores_2x2 0 0 0 0 true.

Definition scenario2_corr : tensor4 :=
  scores_2x2 (logit 0.95) 0 0 (logit 0.9) true.

Definition scenario2_inlier : list bool := [false; false].
Definition scenario2_outlier : list bool := [true; true].

(** The diagonal cells [(i, i)] of a [c x c] matrix stored in [l], at the
    channels [i] whose flag is set. *)
Definition diagonal_at (flags : list bool) (c : nat) (l : list R) : list R :=
  map (fun i => nth (i * c + i) l 0%R)
      (List.filter (fun i => nth i flags false) (seq 0 c)).

(** Scenario 1 with the squashed score of channel 0's second patch (row 1,
    not a designated patch) changed from 0.1 to 0.5. *)
Definition scenario1_scores_changed : tensor4 :=
  scores_4x2 (logit 0.9) 0
             0 0
             0 (logit 0.2)
             0 (logit 0.8) true.

(** ** Definitions for the further properties *)

(** The exceptions of the tensor operations. *)
Definition benign (e : exn) : Prop := e = IndexError \/ e = RuntimeError.
(** The preconditions of [forward_with_log_data] on the two score tensors
    alone: [c >= 2] channels with [n >= 1] patches each, square footprints,
    and a correspondence tensor of [c] rows. *)
Record well_formed_scores (c n : nat) (m k : tensor4) : Prop := {
  wfs_channels : 2 <= c;
  wfs_patches : 1 <= n;
  wfs_rows : dim0 m = c * n;
  wfs_cols : dim1 m = c;
  wfs_square : dim2 m = dim3 m;
  wfs_side : 1 <= dim2 m;
  wfs_stored : well_stored m;
  wfs_corr_rows : dim0 k = c;
  wfs_corr_cols : dim1 k = c;
  wfs_corr_square : dim2 k = dim3 k;
  wfs_corr_side : 1 <= dim2 k;
  wfs_corr_stored : well_stored k
}.

(** A batch of three rows for two channels. *)
Definition uneven_scores : tensor4 :=
  {| dim0 := 3; dim1 := 2; dim2 := 1; dim3 := 1;
     data4 := [0; 0; 0; 0; 0; 0]%R; requires_grad4 := true |}.
(** The values of the terms of a dictionary that are present. *)
Definition present_values (d : components) : list num :=
  flat_map (fun p => match snd p with Some s => [value s] | None => [] end) d.
(** The score tensor with a 1x1 footprint that holds the centre value of
    every footprint of [t]. *)
Definition center_only (t : tensor4) : tensor4 :=
  {| dim0 := dim0 t; dim1 := dim1 t; dim2 := 1; dim3 := 1;
     data4 := centered t; requires_grad4 := requires_grad4 t |}.

(** A batch of two channels with one patch each and 3x3 footprints; the
    centre values are zero. *)
Definition wide_scores : tensor4 :=
  {| dim0 := 2; dim1 := 2; dim2 := 3; dim3 := 3;
     data4 := flat_map (fun _ => [1; 2; 3; 4; 0; 6; 7; 8; 9]%R) (seq 0 4);
     requires_grad4 := true |}.
(** The cells [(i * n, i)] of a [(c * n) x c] matrix stored in [l]: the
    response of every flagged channel [i] to the first patch of its own
    block. *)
Definition designated_scores (flags : list bool) (c n : nat) (l : list R) : list R :=
  map (fun i => nth ((i * n) * c + i) l 0%R)
      (List.filter (fun i => nth i flags false) (seq 0 c)).
(** One element of the weighted binary cross entropy of Variant B's maxima
    term: the loss of logit [x] against label [y], times the class weight (1
    for a positive, [w] for a negative). *)
Definition weighted_bce (w : num) (x : R) (y : bool) : num :=
  nmul (Fin (torch.bce_with_logits x (b2r y))) (if y then Fin 1%R else w).

(** For every flagged channel [i], the elements of its own column over the
    [n] rows of its own block; the first row carries the channel's label
    [nth i positive false], the other rows are negatives. *)
Definition own_block_terms (w : num) (flags positive : list bool) (c n : nat)
    (l : list R) : list num :=
  flat_map (fun i =>
              if nth i flags false then
                map (fun p => weighted_bce w (nth ((i * n + p) * c + i) l 0%R)
                                           ((p =? 0) && nth i positive false))
                    (seq 0 n)
              else [])
           (seq 0 c).
(** The patches of the block of channel [i] that count as outlier patches:
    every patch of a channel with data, except the first patch of an inlier
    channel. *)
Definition outlier_patches (inlier outlier : list bool) (n i : nat) : list nat :=
  List.filter (fun p => (nth i inlier false || nth i outlier false)
                        && negb ((p =? 0) && nth i inlier false))
              (seq 0 n).

(** For every channel [j], the mean over its outlier patches [p] of
    [- ln (max (1 - sigmoid x) epsilon)], [x] the channel's response to the
    patch (row [j * n + p], column [j]); a channel without outlier patches
    contributes 0 / 1.  The sum over the channels. *)
Definition mined_outlier_average (epsilon : R) (inlier outlier : list bool)
    (c n : nat) (l : list R) : num :=
  nsum (map (fun j =>
               ndiv (nsum (map (fun p =>
                                  Fin (- ln (Rmax (1 - torch.sigmoid
                                                         (nth ((j * n + p) * c + j) l 0%R))
                                                  epsilon)))
                               (outlier_patches inlier outlier n j)))
                    (Fin (INR (Nat.max (length (outlier_patches inlier outlier n j)) 1))))
            (seq 0 c)).
(** The cells [(r * n, j)], [j <> r], of a [(c * n) x c] matrix stored in
    [l], for the flagged channels [r]: the responses of the other channels
    to the first patch of the block of [r]. *)
Definition cross_scores (flags : list bool) (c n : nat) (l : list R) : list R :=
  flat_map (fun r =>
              if nth r flags false then
                map (fun j => nth ((r * n) * c + j) l 0%R)
                    (List.filter (fun j => negb (r =? j)) (seq 0 c))
              else [])
           (seq 0 c).
(** The cells of the [(c * n) x c] score matrix that the losses read: the
    responses of a channel to the patches of its own block, and the
    responses of every channel to the first patch of a block. *)
Definition is_read (n r j : nat) : bool := (r / n =? j) || (r mod n =? 0).

(** Scenario 1 with the response of channel 1 to the second patch of
    channel 0's block (row 1, column 1) changed. *)
Definition scenario1_scores_unread : tensor4 :=
  scores_4x2 (logit 0.9) 0
             (logit 0.1) 5
             0 (logit 0.2)
             0 (logit 0.8) true.


(** ** Definitions for the data sets *)

(** ** Data set statistics: [ImagePair.mean_std_dev_dataset] (imipnet/data/pairs.py) *)

Module ImagePair.

(** A batch as [update_online_moments] sees it after
    [batch.permute(1, 0, 2, 3).flatten(start_dim=1)]: one row of pixel
    values per channel; [width] is [batch.shape[1]], the length of every
    row. *)
Record flat_batch : Type := FlatBatch {
  width : nat;
  rows : list (list R)
}.

Definition rsum (l : list R) : R := fold_right Rplus 0%R l.

(** [row.mean()]: not a number for an empty row. *)
Definition row_mean (row : list R) : num :=
  ndiv (Fin (rsum row)) (Fin (INR (length row))).

(** [row.var()], the unbiased variance: not a number for fewer than two
    elements. *)
Definition row_var (row : list R) : num :=
  match row_mean row with
  | Fin mu =>
      ndiv (Fin (rsum (map (fun x => ((x - mu) * (x - mu))%R) row)))
           (Fin (INR (length row) - 1)%R)
  | NonFinite => NonFinite
  end.

(** An arithmetic operation on two one-dimensional float tensors, with
    broadcasting. *)
Definition broadcast2 (f : num -> num -> num) (a b : list num) : result (list num) :=
  if length a =? length b then Ok (map (fun p => f (fst p) (snd p)) (combine a b))
  else if length a =? 1 then Ok (map (f (nth 0 a NonFinite)) b)
  else if length b =? 1 then Ok (map (fun x => f x (nth 0 b NonFinite)) a)
  else Raise RuntimeError.

(** [t += u]: the sum must have the shape of [t]. *)
Definition iadd (t u : list num) : result (list num) :=
  (let! s := broadcast2 nadd t u in
   if length s =? length t then Ok s else Raise RuntimeError)%result.

(** Python's [a / b] on integers. *)
Definition py_truediv (a b : nat) : result R :=
  if b =? 0 then Raise ZeroDivisionError else Ok (INR a / INR b)%R.

(** The variables that [update_online_moments] declares [nonlocal]. *)
Record moments : Type := Moments {
  n_old_px : nat;
  mean : list num;
  m2 : list num
}.

Definition update_online_moments (st : moments) (batch : flat_batch)
  : result moments :=
  (let n_new_px := width batch in
   let n_total_px := n_old_px st + n_new_px in
   let! delta := broadcast2 nsub (map row_mean (rows batch)) (mean st) in
   let! ratio := py_truediv n_new_px n_total_px in
   let! mean' := iadd (mean st) (map (fun d => nmul d (Fin ratio)) delta) in
   let m2_new :=
     map (fun row => nmul (row_var row) (Fin (INR n_new_px - 1)%R)) (rows batch) in
   let! increment :=
     broadcast2 nadd m2_new
       (map (fun d => ndiv (nmul (nmul (nmul d d) (Fin (INR (n_old_px st))))
                                 (Fin (INR n_new_px)))
                           (Fin (INR n_total_px)))
            delta) in
   let! m2' := iadd (m2 st) increment in
   Ok {| n_old_px := n_total_px; mean := mean'; m2 := m2' |})%result.

(** [t.sqrt()] on one element. *)
Definition nsqrt (a : num) : num :=
  match a with
  | Fin x => if Rle_dec 0 x then Fin (sqrt x) else NonFinite
  | NonFinite => NonFinite
  end.

(** The loop over the loader, which yields the two image tensors of every
    batch, and the final division; [n_channels] is read off the first
    image of the data set. *)
Definition mean_std_dev_dataset (n_channels : nat)
    (loader : list (flat_batch * flat_batch)) : result (list num * list num) :=
  (let! st :=
     fold_left
       (fun acc data =>
          let! st := acc in
          let! st := update_online_moments st (fst data) in
          update_online_moments st (snd data))
       loader
       (Ok {| n_old_px := 0;
              mean := repeat (Fin 0%R) n_channels;
              m2 := repeat (Fin 0%R) n_channels |}) in
   let variance := map (fun v => ndiv v (Fin (INR (n_old_px st) - 1)%R)) (m2 st) in
   Ok (mean st, map nsqrt variance))%result.

End ImagePair.

(** The pixel values of channel [ch] in the order in which the loop sees
    them. *)
Definition channel_pixels (ch : nat) (loader : list (ImagePair.flat_batch * ImagePair.flat_batch))
  : list R :=
  flat_map (fun data => nth ch (ImagePair.rows (fst data)) []
                        ++ nth ch (ImagePair.rows (snd data)) [])
           loader.

(** The arithmetic mean and the unbiased sample standard deviation. *)
Definition average (l : list R) : R := (ImagePair.rsum l / INR (length l))%R.

Definition sample_std_dev (l : list R) : R :=
  sqrt (ImagePair.rsum (map (fun x => ((x - average l) * (x - average l))%R) l)
        / (INR (length l) - 1)).

(** A batch of [c] channels whose rows all have the batch's width, which
    is at least two. *)
Definition well_formed_batch (c : nat) (b : ImagePair.flat_batch) : Prop :=
  length (ImagePair.rows b) = c
  /\ 2 <= ImagePair.width b
  /\ Forall (fun row => length row = ImagePair.width b) (ImagePair.rows b).

(** The mean of the pixels seen so far, or the initial 0. *)
Definition running_mean (l : list R) : R :=
  match l with [] => 0%R | _ => (ImagePair.rsum l / INR (length l))%R end.

(** The sum of the squared deviations from [mu]. *)
Definition squared_deviations (mu : R) (l : list R) : R :=
  ImagePair.rsum (map (fun x => ((x - mu) * (x - mu))%R) l).

(** The rows of a batch appended to the pixels seen so far, channel by
    channel. *)
Definition append_rows (seen rows : list (list R)) : list (list R) :=
  map (fun q => fst q ++ snd q) (combine seen rows).

(** The state of the loop when it has seen the pixels [seen]. *)
Definition moments_of (n : nat) (seen : list (list R)) : ImagePair.moments :=
  {| ImagePair.n_old_px := n;
     ImagePair.mean := map (fun a => Fin (running_mean a)) seen;
     ImagePair.m2 := map (fun a => Fin (squared_deviations (running_mean a) a)) seen |}.

(** The pixels seen after the loop over [loader], channel by channel. *)
Definition seen_after (seen : list (list R))
    (loader : list (ImagePair.flat_batch * ImagePair.flat_batch)) : list (list R) :=
  fold_left (fun s data =>
               append_rows (append_rows s (ImagePair.rows (fst data)))
                           (ImagePair.rows (snd data)))
            loader seen.

(** The number of pixels per channel that the loader yields. *)
Definition pixel_count (loader : list (ImagePair.flat_batch * ImagePair.flat_batch))
  : nat :=
  fold_left (fun k data => k + ImagePair.width (fst data) + ImagePair.width (snd data))
            loader 0.

(** A loader of one batch of two grey images with two pixels each. *)
Definition example_loader : list (ImagePair.flat_batch * ImagePair.flat_batch) :=
  [ ({| ImagePair.width := 2; ImagePair.rows := [[1; 3]%R] |},
     {| ImagePair.width := 2; ImagePair.rows := [[5; 7]%R] |}) ].

(** ** Virtual points: the padding loop of
    [FundamentalMatrixPair.generate_virtual_points] (imipnet/data/pairs.py) *)

Module FundamentalMatrixPair.

(** [while good_pts < num_points_eval:
       valid_idx = np.hstack((valid_idx, valid_idx[:num_points_eval - good_pts]))
       good_pts = len(valid_idx)
     valid_idx = valid_idx[:num_points_eval]];
    [None] when the fuel runs out before the loop exits. *)
Fixpoint pad_valid_idx (fuel num_points_eval : nat) (valid_idx : list nat)
  : option (list nat) :=
  if length valid_idx <? num_points_eval then
    match fuel with
    | 0 => None
    | S fuel' =>
        pad_valid_idx fuel' num_points_eval
          (valid_idx ++ firstn (num_points_eval - length valid_idx) valid_idx)
    end
  else Some (firstn num_points_eval valid_idx).

End FundamentalMatrixPair.

(** The first [n] elements of the endless repetition of [v]. *)
Definition cyclic (v : list nat) (n : nat) : list nat :=
  map (fun i => nth (i mod length v) v 0) (seq 0 n).

(** ** Indexing the TUM pairs: [TUMMonocularStereoPairs]
    (imipnet/datasets/tum_mono.py) *)

Module TUMMonocularStereoPairs.

(** [for i in range(1, len(cs)): cs[i] += cs[i - 1]], run on the list of
    the generators' lengths. *)
Definition accumulate (lens : list nat) : list nat :=
  fold_left (fun cs i =>
               match cs !! i, cs !! (i - 1) with
               | Some x, Some y => <[i := x + y]> cs
               | _, _ => cs
               end)
            (seq 1 (length lens - 1)) lens.

(** The loop of [bisect.bisect_right(a, x)]:
    [while lo < hi: mid = (lo + hi) // 2;
       if x < a[mid]: hi = mid  else: lo = mid + 1]. *)
Fixpoint bisect_loop (fuel : nat) (a : list nat) (x : Z) (lo hi : nat) : nat :=
  match fuel with
  | 0 => lo
  | S fuel' =>
      if lo <? hi then
        let mid := (lo + hi) / 2 in
        if (x <? Z.of_nat (nth mid a 0%nat))%Z then bisect_loop fuel' a x lo mid
        else bisect_loop fuel' a x (mid + 1) hi
      else lo
  end.

(** The interval halves in every round, so [len(a)] rounds are enough. *)
Definition bisect_right (a : list nat) (x : Z) : nat :=
  bisect_loop (length a) a x 0 (length a).

(** [self._generator_len_cum_sum[-1]] *)
Definition __len__ (cum_sum : list nat) : result nat :=
  (let! i := py_index (-1) (length cum_sum) in
   Ok (nth i cum_sum 0))%result.

(** [__getitem__] up to the call of the chosen generator: the index of the
    generator in [self._stereo_pair_generators] (a list as long as the
    cumulative sums) and the index that the generator is asked for. *)
Definition __getitem__ (cum_sum : list nat) (index : Z) : result (nat * Z) :=
  (let! n := __len__ cum_sum in
   if (Z.of_nat n <=? index)%Z then Raise IndexError
   else
     let generator_index := bisect_right cum_sum index in
     let! index_base_for_generator :=
       if 0 <? generator_index then
         match cum_sum !! (generator_index - 1) with
         | Some b => Ok b
         | None => Raise IndexError
         end
       else Ok 0 in
     if generator_index <? length cum_sum then
       Ok (generator_index, (index - Z.of_nat index_base_for_generator)%Z)
     else Raise IndexError)%result.

End TUMMonocularStereoPairs.

(** The number of pairs of the first [k] generators. *)
Definition pairs_before (lens : list nat) (k : nat) : nat := list_sum (firstn k lens).

(** Three generators, the second of them without pairs. *)
Definition example_lengths : list nat := [2; 0; 3].

(** ** The splits of the TUM sequences (imipnet/datasets/tum_mono.py) *)

Module TUMSplits.

(** [l[a:b]] for bounds that are not negative. *)
Definition slice {A : Type} (a b : nat) (l : list A) : list A :=
  firstn (b - a) (skipn a l).

(** ["sequence_{0:02d}".format(i)] *)
Definition sequence_name (i : nat) : string :=
  String.append "sequence_"
    (if i <? 10 then String.append "0" (pretty i) else pretty i).

(** [["sequence_{0:02d}".format(i) for i in range(1, 51)]] *)
Definition all_sequences : list string := map sequence_name (seq 1 50).

Definition train_sequences : list string :=
  slice 0 3 all_sequences ++ slice 47 50 all_sequences.

Definition validation_sequences : list string := slice 4 46 all_sequences.

Definition test_sequences : list string :=
  slice 4 5 all_sequences ++ slice 46 47 all_sequences.

(** The choice of [split_sequences] in [__init__]; [None] is Python's
    [None]. *)
Definition split_sequences (split : option string) : result (list string) :=
  match split with
  | None => Ok train_sequences
  | Some s =>
      if String.eqb s "train" then Ok train_sequences
      else if String.eqb s "validation" then Ok validation_sequences
      else if String.eqb s "test" then Ok test_sequences
      else Raise ValueError
  end.

End TUMSplits.

(** The elements of [l] that are also in [l']. *)
Definition shared (l l' : list string) : list string :=
  filter (fun s => existsb (String.eqb s) l') l.

(** ** Indexing the HPatches pairs (epipolar_nn/dataloaders/hpatches.py) *)

Module HPatches.

(** [pairs_per_sequence], "6 choose 2 pairs". *)
Definition pairs_per_sequence : nat := 15.

(** [[(i, j) for i in range(0, 6) for j in range(i + 1, 6)]] *)
Definition _pairs_order : list (nat * nat) :=
  flat_map (fun i => map (fun j => (i, j)) (seq (i + 1) (6 - (i + 1)))) (seq 0 6).

(** [HPatchesPairGenerator.__getitem__] up to the reading of the images
    and the composition of the homography: [two_dim_index], the positions
    of the two images in the sequence. *)
Definition generator_getitem (linear_index : Z) : result (nat * nat) :=
  (let! p := py_index linear_index (length _pairs_order) in
   Ok (nth p _pairs_order (0, 0)))%result.

(** [HPatchesSequenceStereoPairs.__len__] for [n_sequences] sequences. *)
Definition __len__ (n_sequences : nat) : nat := pairs_per_sequence * n_sequences.

(** [HPatchesSequenceStereoPairs.__getitem__]: the position of the
    sequence in [self.sequences] and the [two_dim_index] of the pair that
    the sequence's generator returns. *)
Definition __getitem__ (n_sequences : nat) (index : Z) : result (nat * (nat * nat)) :=
  (let! s := py_index (index / Z.of_nat pairs_per_sequence) n_sequences in
   let! two_dim_index := generator_getitem (index mod Z.of_nat pairs_per_sequence) in
   Ok (s, two_dim_index))%result.

End HPatches.

(** * Facts about the tensor primitives *)

Section ListFacts.
Context {A : Type}.

Lemma length_tabulate2 (rows cols : nat) (f : nat -> nat -> A) :
  length (tabulate2 rows cols f) = rows * cols.
Proof.
  unfold tabulate2.
  assert (G : forall l, length (flat_map (fun r => map (f r) (seq 0 cols)) l)
                        = length l * cols).
  { induction l as [|r l IH]; simpl; [reflexivity|].
    rewrite List.length_app, List.length_map, List.length_seq, IH. reflexivity. }
  rewrite G, List.length_seq. reflexivity.
Qed.

Lemma tabulate2_S (rows cols : nat) (f : nat -> nat -> A) :
  tabulate2 (S rows) cols f
  = tabulate2 rows cols f ++ map (f rows) (seq 0 cols).
Proof.
  unfold tabulate2. rewrite seq_S, flat_map_app. simpl.
  rewrite app_nil_r. reflexivity.
Qed.

Lemma nth_tabulate2 (rows cols : nat) (f : nat -> nat -> A) (d : A) (r c : nat) :
  r < rows -> c < cols ->
  nth (r * cols + c) (tabulate2 rows cols f) d = f r c.
Proof.
  induction rows as [|n IH]; intros Hr Hc; [lia|].
  rewrite tabulate2_S.
  destruct (Nat.eq_dec r n) as [->|Hne].
  - rewrite app_nth2; rewrite length_tabulate2; [|lia].
    replace (n * cols + c - n * cols) with c by lia.
    rewrite (nth_indep _ d (f n 0)) by (rewrite List.length_map, List.length_seq; lia).
    rewrite map_nth, seq_nth by lia. reflexivity.
  - rewrite app_nth1; [apply IH; lia|].
    rewrite length_tabulate2. nia.
Qed.

Lemma tabulate2_ext (rows cols : nat) (f g : nat -> nat -> A) :
  (forall r c, r < rows -> c < cols -> f r c = g r c) ->
  tabulate2 rows cols f = tabulate2 rows cols g.
Proof.
  intros H. induction rows as [|n IH].
  - reflexivity.
  - rewrite !tabulate2_S. f_equal.
    + apply IH. intros r c Hr Hc. apply H; lia.
    + apply map_ext_in. intros c Hc. apply in_seq in Hc. apply H; lia.
Qed.

Lemma select_blocks_all_false (k : nat) (m : list bool) (l : list A) :
  Forall (fun b => b = false) m -> torch.select_blocks k m l = [].
Proof.
  intros H. revert l. induction H as [|b m Hb _ IH]; intros l; simpl.
  - reflexivity.
  - subst b. apply IH.
Qed.


Lemma length_select_blocks_1 (m : list bool) (l : list A) :
  length m <= length l ->
  length (torch.select_blocks 1 m l) = count_true m.
Proof.
  unfold count_true.
  revert l. induction m as [|b m IH]; intros l Hl; simpl in *.
  - reflexivity.
  - destruct l as [|x l]; simpl in Hl; [lia|].
    change (skipn 1 (x :: l)) with l.
    rewrite List.length_app, IH by lia.
    destruct b; reflexivity.
Qed.

Lemma count_true_0 (m : list bool) :
  count_true m = 0 <-> Forall (fun b => b = false) m.
Proof.
  unfold count_true. induction m as [|b m IH]; simpl.
  - split; [constructor|reflexivity].
  - destruct b; simpl.
    + split; [discriminate|]. intros H. inversion H. discriminate.
    + rewrite IH. split; intros H; [constructor; auto|].
      inversion H; assumption.
Qed.

End ListFacts.

Lemma select_blocks_map {A B : Type} (f : A -> B) (k : nat) (m : list bool)
    (l : list A) :
  torch.select_blocks k m (map f l) = map f (torch.select_blocks k m l).
Proof.
  revert l. induction m as [|b m IH]; intros l; simpl.
  - reflexivity.
  - rewrite List.map_app, <- IH, List.skipn_map.
    destruct b; [rewrite List.firstn_map|]; reflexivity.
Qed.

(** ** The batch layout *)

Lemma py_index_center (h : nat) :
  1 <= h -> py_index ((Z.of_nat h - 1) / 2)%Z h = Ok ((h - 1) / 2).
Proof.
  intros Hh. unfold py_index.
  assert (E : ((Z.of_nat h - 1) / 2)%Z = Z.of_nat ((h - 1) / 2)).
  { rewrite Nat2Z.inj_div, Nat2Z.inj_sub by lia. reflexivity. }
  rewrite E.
  assert (Hlt : (h - 1) / 2 < h).
  { apply Nat.Div0.div_lt_upper_bound. lia. }
  replace (0 <=? Z.of_nat ((h - 1) / 2))%Z with true by (symmetry; apply Z.leb_le; lia).
  replace (Z.of_nat ((h - 1) / 2) <? Z.of_nat h)%Z with true
    by (symmetry; apply Z.ltb_lt; lia).
  simpl. rewrite Nat2Z.id. reflexivity.
Qed.

Lemma center_values_ok (t : tensor4) :
  dim2 t = dim3 t -> 1 <= dim2 t ->
  center_values (of_tensor4 t)
  = Ok {| shape := if dim2 t =? 1 then [dim0 t; dim1 t; dim2 t; dim3 t]
                   else [dim0 t; dim1 t];
          data := centered t;
          requires_grad := requires_grad4 t |}.
Proof.
  destruct t as [b c h w d g]. cbn [dim0 dim1 dim2 dim3 requires_grad4].
  intros <- Hpos.
  unfold center_values, centered, torch.shape_at, torch.index_center, of_tensor4.
  cbn [shape data requires_grad nth_error rbind dim0 dim1 dim2 dim3 data4 requires_grad4].
  destruct (h =? 1) eqn:E; [reflexivity|].
  rewrite py_index_center by assumption. cbn [rbind]. reflexivity.
Qed.

Lemma length_centered (t : tensor4) :
  well_stored t -> dim2 t = dim3 t ->
  length (centered t) = dim0 t * dim1 t.
Proof.
  unfold well_stored, centered. intros Hw Hsq.
  destruct (dim2 t =? 1) eqn:E.
  - apply Nat.eqb_eq in E. rewrite Hw, <- Hsq, E. lia.
  - rewrite List.length_map, List.length_seq. reflexivity.
Qed.

Lemma squeeze_shape (b c h w : nat) :
  2 <= b -> 2 <= c -> h = w ->
  List.filter (fun d => negb (d =? 1))
              (if h =? 1 then [b; c; h; w] else [b; c]) = [b; c].
Proof.
  intros Hb Hc <-.
  assert (Eb : (b =? 1) = false) by (apply Nat.eqb_neq; lia).
  assert (Ec : (c =? 1) = false) by (apply Nat.eqb_neq; lia).
  destruct (h =? 1) eqn:E; simpl; rewrite Eb, Ec; simpl; rewrite ?E; reflexivity.
Qed.

Lemma arange_blocks (c n : nat) :
  1 <= n -> torch.arange (c * n) n = Ok (map (fun k => k * n) (seq 0 c)).
Proof.
  intros Hn. unfold torch.arange.
  destruct (n =? 0) eqn:E; [apply Nat.eqb_eq in E; lia|].
  replace ((c * n + n - 1) / n) with c; [reflexivity|].
  apply (Nat.div_unique _ _ _ (n - 1)); lia.
Qed.

Lemma cell_eye_rows (c n r j : nat) :
  1 <= n -> r < c * n -> j < c ->
  cell (torch.repeat_interleave_rows (torch.eye c) n) r j = (r / n =? j).
Proof.
  intros Hn Hr Hj. unfold cell, torch.repeat_interleave_rows. cbn [mcols cells mrows torch.eye].
  rewrite nth_tabulate2 by assumption.
  apply nth_tabulate2; [|assumption].
  apply Nat.Div0.div_lt_upper_bound. lia.
Qed.

Lemma column_times_eye_rows (v : list bool) (c n : nat) :
  2 <= c -> 1 <= n -> length v = c * n ->
  torch.column_times v (torch.repeat_interleave_rows (torch.eye c) n)
  = Ok (maxima_index v c n).
Proof.
  intros Hc Hn Hv. unfold torch.column_times.
  cbn [mrows mcols torch.repeat_interleave_rows torch.eye].
  rewrite Hv, Nat.eqb_refl. cbn [orb]. rewrite Nat.max_id.
  unfold maxima_index. do 2 f_equal.
  apply tabulate2_ext. intros r j Hr Hj.
  assert (E : (c * n =? 1) = false) by (apply Nat.eqb_neq; nia).
  rewrite E. f_equal. apply cell_eye_rows; assumption.
Qed.

Lemma cell_diag (v : list bool) (r j : nat) :
  r < length v -> j < length v ->
  cell (torch.diag v) r j = (if r =? j then nth r v false else false).
Proof.
  intros Hr Hj. unfold cell, torch.diag. cbn [mcols cells].
  apply nth_tabulate2; assumption.
Qed.

Lemma xor_column_diag (inlier : list bool) :
  torch.xor_column (torch.diag inlier) inlier = Ok (unaligned_index inlier).
Proof.
  unfold torch.xor_column.
  replace (mrows (torch.diag inlier)) with (length inlier) by reflexivity.
  replace (mcols (torch.diag inlier)) with (length inlier) by reflexivity.
  rewrite Nat.eqb_refl. cbn [orb]. rewrite Nat.max_id.
  unfold unaligned_index. do 2 f_equal.
  apply tabulate2_ext. intros r j Hr Hj.
  destruct (length inlier =? 1) eqn:E.
  - apply Nat.eqb_eq in E. assert (r = 0) by lia. assert (j = 0) by lia. subst.
    rewrite cell_diag by lia. reflexivity.
  - rewrite cell_diag by assumption. reflexivity.
Qed.

Lemma nth_insert {A : Type} (l : list A) (i j : nat) (x d : A) :
  nth i (<[j := x]> l) d = if (i =? j) && (j <? length l) then x else nth i l d.
Proof.
  revert i j. induction l as [|y l IH]; intros i j.
  - destruct j; simpl; rewrite andb_false_r; reflexivity.
  - destruct j as [|j]; destruct i as [|i]; simpl; try reflexivity.
    rewrite IH. reflexivity.
Qed.

Lemma repeat_as_map {A : Type} (x : A) (n : nat) :
  repeat x n = map (fun _ => x) (seq 0 n).
Proof.
  induction n as [|n IH]; [reflexivity|].
  rewrite seq_S, List.map_app, <- IH. simpl.
  rewrite repeat_cons. reflexivity.
Qed.

Lemma firstn_S_nth {A : Type} (d : A) (l : list A) (k : nat) :
  k < length l -> firstn (S k) l = firstn k l ++ [nth k l d].
Proof.
  revert k. induction l as [|x l IH]; intros k Hk; simpl in Hk; [lia|].
  destruct k as [|k]; [reflexivity|].
  rewrite firstn_cons, IH by lia. reflexivity.
Qed.

Lemma combine_app {A B : Type} (l1 l2 : list A) (k1 k2 : list B) :
  length l1 = length k1 ->
  combine (l1 ++ l2) (k1 ++ k2) = combine l1 k1 ++ combine l2 k2.
Proof.
  revert k1. induction l1 as [|x l1 IH]; intros [|y k1] H; simpl in *;
    try discriminate; [reflexivity|].
  rewrite IH by lia. reflexivity.
Qed.

Lemma nth_map_seq {A : Type} (f : nat -> A) (n i : nat) (d : A) :
  i < n -> nth i (map f (seq 0 n)) d = f i.
Proof.
  intros Hi. rewrite (nth_indep _ d (f 0)) by (rewrite List.length_map, List.length_seq; lia).
  rewrite map_nth, seq_nth by lia. reflexivity.
Qed.

Lemma index_put_prefix (inlier : list bool) (c n k : nat) :
  1 <= n -> length inlier = c -> k <= c ->
  fold_left (fun acc p => <[fst p := snd p]> acc)
            (combine (map (fun j => j * n) (seq 0 k)) (firstn k inlier))
            (repeat false (c * n))
  = map (fun i => (i mod n =? 0) && (i / n <? k) && nth (i / n) inlier false)
        (seq 0 (c * n)).
Proof.
  intros Hn Hlen. induction k as [|k IH]; intros Hk.
  - simpl. rewrite repeat_as_map. apply map_ext. intros i.
    rewrite andb_false_r. reflexivity.
  - rewrite seq_S, List.map_app. simpl map at 2.
    rewrite (firstn_S_nth false) by lia.
    rewrite combine_app
      by (rewrite List.length_map, List.length_seq, List.length_firstn; lia).
    rewrite fold_left_app, IH by lia. simpl.
    apply (nth_ext _ _ false false).
    + rewrite length_insert, !List.length_map. reflexivity.
    + intros i Hi. rewrite length_insert, List.length_map, List.length_seq in Hi.
      rewrite nth_insert, List.length_map, List.length_seq.
      rewrite !nth_map_seq by lia.
      destruct (i =? k * n) eqn:E.
      * apply Nat.eqb_eq in E. subst i.
        replace (k * n <? c * n) with true by (symmetry; apply Nat.ltb_lt; nia).
        simpl. rewrite Nat.Div0.mod_mul, Nat.div_mul by lia.
        replace (k <? S k) with true by (symmetry; apply Nat.ltb_lt; lia).
        reflexivity.
      * simpl. apply Nat.eqb_neq in E.
        destruct (i mod n =? 0) eqn:Em; [|reflexivity]. simpl.
        apply Nat.eqb_eq in Em.
        assert (Hi' : i = n * (i / n)).
        { pose proof (Nat.div_mod_eq i n). lia. }
        assert (i / n <> k) by (intros <-; lia).
        destruct (i / n <? k) eqn:E1; destruct (i / n <? S k) eqn:E2;
          try reflexivity.
        -- apply Nat.ltb_lt in E1. apply Nat.ltb_ge in E2. lia.
        -- apply Nat.ltb_ge in E1. apply Nat.ltb_lt in E2. lia.
Qed.

Lemma length_expanded_inlier (n : nat) (inlier : list bool) :
  length (expanded_inlier n inlier) = length inlier * n.
Proof. unfold expanded_inlier. rewrite List.length_map, List.length_seq. reflexivity. Qed.

Lemma index_put_arange (inlier : list bool) (c n : nat) :
  1 <= n -> length inlier = c ->
  torch.index_put (repeat false (length inlier * n))
                  (map (fun k => k * n) (seq 0 c)) inlier
  = Ok (expanded_inlier n inlier).
Proof.
  intros Hn Hlen. unfold torch.index_put.
  rewrite List.length_map, List.length_seq, Hlen, Nat.eqb_refl. cbn [orb negb].
  assert (F : forallb (fun i => i <? length (repeat false (c * n)))
                      (map (fun k => k * n) (seq 0 c)) = true).
  { apply forallb_forall. intros i Hi. apply in_map_iff in Hi.
    destruct Hi as [k [<- Hk]]. apply in_seq in Hk.
    rewrite repeat_length. apply Nat.ltb_lt. nia. }
  rewrite F. cbn [negb]. f_equal.
  rewrite <- (firstn_all inlier) at 1. rewrite Hlen.
  rewrite (index_put_prefix inlier c n c) by lia.
  unfold expanded_inlier. rewrite Hlen.
  apply map_ext_in. intros i Hi. apply in_seq in Hi.
  replace (i / n <? c) with true; [rewrite andb_true_r; reflexivity|].
  symmetry. apply Nat.ltb_lt. apply Nat.Div0.div_lt_upper_bound. lia.
Qed.

Lemma bitwise_same_length (f : bool -> bool -> bool) (a b : list bool) :
  length a = length b ->
  torch.bitwise f a b = Ok (map (fun p => f (fst p) (snd p)) (combine a b)).
Proof. intros H. unfold torch.bitwise. rewrite H, Nat.eqb_refl. reflexivity. Qed.

Lemma length_repeat_interleave {A : Type} (v : list A) (n : nat) :
  length (torch.repeat_interleave v n) = length v * n.
Proof.
  unfold torch.repeat_interleave. induction v as [|x v IH]; simpl; [reflexivity|].
  rewrite List.length_app, repeat_length, IH. reflexivity.
Qed.

Lemma length_has_data (inlier outlier : list bool) :
  length inlier = length outlier ->
  length (has_data inlier outlier) = length inlier.
Proof.
  intros H. unfold has_data. rewrite List.length_map, List.length_combine. lia.
Qed.

Lemma length_expanded_outlier (n : nat) (inlier outlier : list bool) :
  length inlier = length outlier ->
  length (expanded_outlier n inlier outlier) = length inlier * n.
Proof.
  intros H. unfold expanded_outlier.
  rewrite List.length_map, List.length_combine, length_repeat_interleave,
    length_has_data, List.length_map, length_expanded_inlier by assumption.
  lia.
Qed.

Lemma masked_select_2d (t : tensor) (m : mask) (b c : nat) :
  shape t = [b; c] -> mrows m = b -> mcols m = c ->
  torch.masked_select t m = Ok (torch.select_blocks 1 (cells m) (data t)).
Proof.
  intros Hs Hr Hc. unfold torch.masked_select.
  rewrite Hs, Hr, Hc, !Nat.eqb_refl. reflexivity.
Qed.

Lemma length_maximizing_rows (c n : nat) (d : list R) :
  1 <= n -> length d = c * n * c -> length (maximizing_rows c n d) = c * c.
Proof.
  intros Hn Hd. unfold maximizing_rows.
  rewrite (flat_map_constant_length (c := c)).
  - rewrite List.length_map, List.length_seq. reflexivity.
  - intros i Hi. apply in_map_iff in Hi. destruct Hi as [k [<- Hk]].
    apply in_seq in Hk. rewrite List.length_firstn, List.length_skipn. nia.
Qed.

Lemma index_rows_arange (t : tensor) (c n : nat) :
  1 <= n -> shape t = [c * n; c] ->
  torch.index_rows t (map (fun k => k * n) (seq 0 c))
  = Ok {| shape := [c; c]; data := maximizing_rows c n (data t);
          requires_grad := requires_grad t |}.
Proof.
  intros Hn Hs. unfold torch.index_rows. rewrite Hs.
  assert (F : forallb (fun i => i <? c * n) (map (fun k => k * n) (seq 0 c)) = true).
  { apply forallb_forall. intros i Hi. apply in_map_iff in Hi.
    destruct Hi as [k [<- Hk]]. apply in_seq in Hk. apply Nat.ltb_lt. nia. }
  rewrite F, List.length_map, List.length_seq. reflexivity.
Qed.

Lemma decoded_scores (t : tensor4) (b c : nat) :
  2 <= b -> 2 <= c -> dim0 t = b -> dim1 t = c -> dim2 t = dim3 t ->
  torch.squeeze {| shape := if dim2 t =? 1 then [dim0 t; dim1 t; dim2 t; dim3 t]
                            else [dim0 t; dim1 t];
                   data := centered t;
                   requires_grad := requires_grad4 t |}
  = {| shape := [b; c]; data := centered t; requires_grad := requires_grad4 t |}.
Proof.
  intros Hb Hc <- <- Hsq. unfold torch.squeeze. cbn [shape data requires_grad].
  rewrite squeeze_shape by assumption. reflexivity.
Qed.

Lemma classic_forward (epsilon : R) (c n : nat) (m k : tensor4)
    (inlier outlier : list bool) :
  well_formed_input c n m k inlier outlier ->
  OHNMClassicImipLoss.forward_with_log_data epsilon m k inlier outlier
  = Ok (classic_report
          (classic_outlier_correspondence epsilon k outlier)
          (classic_outlier_maximizer epsilon m c n inlier outlier)
          (classic_inlier epsilon m c n inlier)
          (classic_unaligned m c n inlier)).
Proof.
  intros [Hc Hn Hrows Hcols Hsq Hside Hst Hkr Hkc Hksq Hkside Hkst Hil Hol _].
  unfold OHNMClassicImipLoss.forward_with_log_data.
  rewrite Hrows, Hcols.
  unfold py_mod. replace (c =? 0) with false by (symmetry; apply Nat.eqb_neq; lia).
  cbn [rbind].
  replace ((c * n) mod c) with 0 by (rewrite Nat.mul_comm, Nat.Div0.mod_mul; reflexivity).
  cbn [Nat.eqb py_assert rbind].
  rewrite Hsq, Nat.eqb_refl. cbn [rbind].
  rewrite !center_values_ok by (assumption || lia). cbn [rbind].
  rewrite (decoded_scores m (c * n) c) by (assumption || nia).
  rewrite (decoded_scores k c c) by (assumption || nia).
  unfold torch.sigmoid_. cbn [shape data requires_grad].
  fold (probabilities m). fold (probabilities k).
  cbn [py_assert rbind].
  rewrite (masked_select_2d _ _ c c) by (reflexivity || exact Hol).
  cbn [data rbind torch.shape_at shape nth_error].
  unfold py_floordiv. replace (c =? 0) with false by (symmetry; apply Nat.eqb_neq; lia).
  replace ((c * n) / c) with n by (rewrite Nat.mul_comm, Nat.div_mul by lia; reflexivity).
  cbn [rbind].
  rewrite arange_blocks by assumption. cbn [rbind].
  rewrite (index_put_arange inlier c n) by assumption. cbn [rbind].
  rewrite bitwise_same_length by lia. cbn [rbind]. fold (has_data inlier outlier).
  rewrite bitwise_same_length
    by (rewrite length_repeat_interleave, length_has_data, List.length_map,
          length_expanded_inlier by lia; reflexivity).
  cbn [rbind]. fold (expanded_outlier n inlier outlier).
  rewrite !column_times_eye_rows
    by (assumption || (rewrite ?length_expanded_inlier, ?length_expanded_outlier by lia; lia)).
  cbn [rbind].
  assert (Hmr : forall v, mrows (maxima_index v c n) = c * n) by reflexivity.
  assert (Hmc : forall v, mcols (maxima_index v c n) = c) by reflexivity.
  rewrite Hmr, Hmc, !Nat.eqb_refl. cbn [andb].
  rewrite (masked_select_2d _ _ (c * n) c) by reflexivity.
  rewrite index_rows_arange by (assumption || reflexivity).
  rewrite xor_column_diag.
  unfold classic_report, classic_outlier_correspondence, classic_outlier_maximizer,
    classic_inlier, classic_unaligned.
  destruct (count_true (cells (maxima_index (expanded_outlier n inlier outlier) c n)) =? 0);
    cbn [rbind data requires_grad];
    rewrite (masked_select_2d _ _ c c) by (reflexivity || exact Hil);
    cbn [rbind data requires_grad]; reflexivity.
Qed.

Lemma select_blocks_app {A : Type} (m1 m2 : list bool) (l : list A) :
  torch.select_blocks 1 (m1 ++ m2) l
  = torch.select_blocks 1 m1 l ++ torch.select_blocks 1 m2 (skipn (length m1) l).
Proof.
  revert l. induction m1 as [|b m1 IH]; intros l; simpl.
  - reflexivity.
  - rewrite IH, <- List.app_assoc. do 2 f_equal.
    destruct l as [|x l]; simpl; [rewrite !List.skipn_nil|]; reflexivity.
Qed.

Lemma select_row_single {A : Type} (d : A) (g : bool) (q cols : nat) (row : list A) :
  q < cols -> cols <= length row ->
  torch.select_blocks 1 (map (fun j => g && (q =? j)) (seq 0 cols)) row
  = if g then [nth q row d] else [].
Proof.
  induction cols as [|n IH]; intros Hq Hlen; [lia|].
  rewrite seq_S, List.map_app, select_blocks_app, List.length_map, List.length_seq.
  simpl map. simpl plus.
  destruct (Nat.eq_dec q n) as [->|Hne].
  - rewrite Nat.eqb_refl, andb_true_r.
    rewrite select_blocks_all_false.
    + simpl. rewrite List.app_nil_r. destruct g; [|reflexivity].
      destruct (skipn n row) as [|x rest] eqn:E.
      * apply (f_equal (@length A)) in E. rewrite List.length_skipn in E. simpl in E. lia.
      * simpl. replace (nth n row d) with (nth (n + 0) row d) by (f_equal; lia).
        rewrite <- nth_skipn, E. reflexivity.
    + apply List.Forall_forall. intros b Hb. apply in_map_iff in Hb.
      destruct Hb as [j [<- Hj]]. apply in_seq in Hj.
      replace (n =? j) with false by (symmetry; apply Nat.eqb_neq; lia).
      apply andb_false_r.
  - rewrite IH by lia.
    replace (q =? n) with false by (symmetry; apply Nat.eqb_neq; lia).
    rewrite andb_false_r. simpl. rewrite List.app_nil_r. reflexivity.
Qed.

(** Selection through a mask that sets at most the cell [(r, h r)] of every
    row [r], and sets it when [g r] holds. *)
Lemma select_single_hit {A : Type} (d : A) (rows cols : nat)
    (g : nat -> bool) (h : nat -> nat) (l : list A) :
  (forall r, r < rows -> h r < cols) -> length l = rows * cols ->
  torch.select_blocks 1 (tabulate2 rows cols (fun r j => g r && (h r =? j))) l
  = map (fun r => nth (r * cols + h r) l d) (List.filter g (seq 0 rows)).
Proof.
  intros Hh Hlen.
  assert (G : forall k, k <= rows ->
    torch.select_blocks 1 (tabulate2 k cols (fun r j => g r && (h r =? j))) l
    = map (fun r => nth (r * cols + h r) l d) (List.filter g (seq 0 k))).
  { induction k as [|k IH]; intros Hk; [reflexivity|].
    rewrite tabulate2_S, select_blocks_app, length_tabulate2, IH by lia.
    rewrite seq_S, List.filter_app, List.map_app. f_equal.
    rewrite (select_row_single d) by (try apply Hh; rewrite ?List.length_skipn; nia).
    simpl. destruct (g k); [|reflexivity].
    simpl. rewrite nth_skipn. reflexivity. }
  apply G. lia.
Qed.

Lemma count_true_filter_seq (g : nat -> bool) (n : nat) :
  count_true (map g (seq 0 n)) = length (List.filter g (seq 0 n)).
Proof.
  unfold count_true. induction n as [|n IH]; [reflexivity|].
  rewrite seq_S, List.map_app, !List.filter_app, !List.length_app, IH.
  simpl. destruct (g n); reflexivity.
Qed.

Lemma map_seq_shift {A : Type} (f : nat -> A) (s len : nat) :
  map f (seq s len) = map (fun i => f (s + i)) (seq 0 len).
Proof.
  induction len as [|len IH]; [reflexivity|].
  rewrite !seq_S, !List.map_app, IH. reflexivity.
Qed.

Lemma repeat_interleave_as_map {A : Type} (d : A) (v : list A) (n : nat) :
  1 <= n ->
  torch.repeat_interleave v n
  = map (fun i => nth (i / n) v d) (seq 0 (length v * n)).
Proof.
  intros Hn. unfold torch.repeat_interleave.
  induction v as [|x v IH]; [reflexivity|].
  cbn [flat_map length]. rewrite IH.
  replace (S (length v) * n) with (n + length v * n) by lia.
  rewrite seq_app, List.map_app. f_equal.
  - rewrite repeat_as_map. apply map_ext_in. intros i Hi. apply in_seq in Hi.
    rewrite Nat.div_small by lia. reflexivity.
  - simpl plus. rewrite (map_seq_shift _ n). apply map_ext. intros i.
    replace (n + i) with (1 * n + i) by lia.
    rewrite Nat.div_add_l by lia. reflexivity.
Qed.

Lemma str_inj (a b : nat) : OHNMBCELoss.str a = OHNMBCELoss.str b -> a = b.
Proof. unfold OHNMBCELoss.str. apply (inj pretty). Qed.

Lemma init_weights_ok : weights_ok OHNMBCELoss.init_weights.
Proof.
  unfold weights_ok, OHNMBCELoss.init_weights. split.
  - apply lookup_singleton_eq.
  - intros n v Hn Hv. rewrite lookup_singleton_ne in Hv; [discriminate|].
    intros E. apply str_inj in E. congruence.
Qed.

Lemma get_weight_ok (n : nat) (ws : gmap string num) :
  weights_ok ws ->
  OHNMBCELoss._get_bce_maxima_outlier_weight n ws
  = (Ok (outlier_weight n), <[OHNMBCELoss.str n := outlier_weight n]> ws).
Proof.
  intros [H1 Hf]. unfold OHNMBCELoss._get_bce_maxima_outlier_weight, outlier_weight.
  destruct (ws !! OHNMBCELoss.str n) as [v|] eqn:E.
  - rewrite E. destruct (Nat.eqb_spec n 1) as [->|Hne].
    + rewrite H1 in E. injection E as <-. rewrite (insert_id ws _ _ H1). reflexivity.
    + pose proof (Hf n v Hne E) as ->. rewrite (insert_id ws _ _ E). reflexivity.
  - rewrite H1. rewrite lookup_insert_eq.
    destruct (Nat.eqb_spec n 1) as [->|Hne]; [congruence|reflexivity].
Qed.


Lemma has_data_index_ok (hd : list bool) (c n : nat) :
  2 <= c -> 1 <= n -> length hd = c ->
  exists e, torch.column_times hd (torch.eye c) = Ok e
            /\ torch.repeat_interleave_rows e n = has_data_index hd c n.
Proof.
  intros Hc Hn Hhd. unfold torch.column_times.
  cbn [mrows mcols torch.eye]. rewrite Hhd, Nat.eqb_refl. cbn [orb].
  rewrite Nat.max_id. eexists. split; [reflexivity|].
  unfold torch.repeat_interleave_rows, has_data_index. cbn [mrows mcols cells].
  f_equal. apply tabulate2_ext. intros r j Hr Hj.
  assert (Hq : r / n < c) by (apply Nat.Div0.div_lt_upper_bound; lia).
  unfold cell. cbn [mcols cells]. rewrite nth_tabulate2 by assumption.
  replace (c =? 1) with false by (symmetry; apply Nat.eqb_neq; lia).
  cbn [mcols cells torch.eye]. rewrite nth_tabulate2 by assumption. reflexivity.
Qed.

Lemma length_select_has_data (hd : list bool) (c n : nat) (l : list R) :
  1 <= n -> length hd = c -> length l = c * n * c ->
  length (torch.select_blocks 1 (cells (has_data_index hd c n)) l)
  = count_true (torch.repeat_interleave hd n).
Proof.
  intros Hn Hhd Hl. unfold has_data_index. cbn [cells].
  rewrite (select_single_hit 0%R (c * n) c (fun r => nth (r / n) hd false) (fun r => r / n))
    by (try assumption; intros r Hr; apply Nat.Div0.div_lt_upper_bound; lia).
  rewrite List.length_map, (repeat_interleave_as_map false) by assumption.
  rewrite Hhd, count_true_filter_seq. reflexivity.
Qed.

Lemma bce_plain_ok (input target : list R) :
  length input = length target ->
  torch.binary_cross_entropy_with_logits input target None
  = Ok (bce_plain_sum input target).
Proof.
  intros H. unfold torch.binary_cross_entropy_with_logits.
  rewrite H, Nat.eqb_refl. reflexivity.
Qed.

Lemma bce_weighted_ok (input target : list R) (w : list num) :
  length input = length target -> length w = length input ->
  torch.binary_cross_entropy_with_logits input target (Some w)
  = Ok (bce_sum input target w).
Proof.
  intros H Hw. unfold torch.binary_cross_entropy_with_logits.
  rewrite H, Nat.eqb_refl. cbn [negb].
  rewrite List.length_map, List.length_combine, Hw, H, Nat.min_id, Nat.eqb_refl.
  reflexivity.
Qed.

Lemma bce_forward (c n : nat) (m k : tensor4) (inlier outlier : list bool)
    (ws : gmap string num) :
  well_formed_input c n m k inlier outlier -> weights_ok ws ->
  OHNMBCELoss.forward_with_log_data m k inlier outlier ws
  = (Ok (bce_report (bce_maxima m c n inlier outlier)
                    (bce_outlier_correspondence k outlier)
                    (bce_unaligned m c n inlier)),
     weights_after n inlier outlier ws).
Proof.
  intros [Hc Hn Hrows Hcols Hsq Hside Hst Hkr Hkc Hksq Hkside Hkst Hil Hol _] Hws.
  unfold OHNMBCELoss.forward_with_log_data, sbind, lift, sret.
  rewrite Hrows, Hcols.
  unfold py_mod. replace (c =? 0) with false by (symmetry; apply Nat.eqb_neq; lia).
  replace ((c * n) mod c) with 0 by (rewrite Nat.mul_comm, Nat.Div0.mod_mul; reflexivity).
  cbn [Nat.eqb py_assert].
  rewrite Hsq, Nat.eqb_refl.
  rewrite !center_values_ok by (assumption || lia).
  rewrite (decoded_scores m (c * n) c) by (assumption || nia).
  rewrite (decoded_scores k c c) by (assumption || nia).
  rewrite (masked_select_2d _ _ c c) by (reflexivity || exact Hol).
  cbn [data torch.shape_at shape nth_error requires_grad].
  cbn [py_assert].
  match goal with
  | |- context [?f ws] =>
      lazymatch f with (if _ then _ else _) => idtac end;
      replace (f ws)
        with (Ok (bce_outlier_correspondence k outlier), ws)
  end.
  2: { unfold bce_outlier_correspondence. cbv zeta.
       match goal with |- context [if ?b then _ else _] => destruct b end; [reflexivity|].
       rewrite bce_plain_ok by (rewrite List.length_map; reflexivity).
       reflexivity. }
  cbv beta iota.
  unfold py_floordiv. replace (c =? 0) with false by (symmetry; apply Nat.eqb_neq; lia).
  replace ((c * n) / c) with n by (rewrite Nat.mul_comm, Nat.div_mul by lia; reflexivity).
  rewrite arange_blocks by assumption.
  rewrite (index_put_arange inlier c n) by assumption.
  rewrite bitwise_same_length by lia. fold (has_data inlier outlier).
  unfold torch.masked_select1.
  rewrite length_expanded_inlier, length_repeat_interleave, length_has_data by lia.
  rewrite Nat.eqb_refl. fold (bce_maxima_labels n inlier outlier).
  match goal with
  | |- context [?f ws] =>
      lazymatch f with (if _ then _ else _) => idtac end;
      replace (f ws)
        with (Ok (bce_maxima m c n inlier outlier), weights_after n inlier outlier ws)
  end.
  2: { unfold bce_maxima, weights_after. cbv zeta.
       match goal with |- context [if ?b then _ else _] => destruct b end; [reflexivity|].
       rewrite get_weight_ok by assumption.
       destruct (has_data_index_ok (has_data inlier outlier) c n) as [e [-> ->]];
         try assumption; [rewrite length_has_data; lia|].
       rewrite (masked_select_2d _ _ (c * n) c) by reflexivity.
       cbn [data].
       assert (Hlen : length (torch.select_blocks 1
                                (cells (has_data_index (has_data inlier outlier) c n))
                                (centered m))
                      = length (bce_maxima_labels n inlier outlier)).
       { rewrite length_select_has_data;
           [|assumption|rewrite length_has_data; lia
            |rewrite length_centered by assumption; rewrite Hrows, Hcols; reflexivity].
         unfold bce_maxima_labels. rewrite length_select_blocks_1; [reflexivity|].
         rewrite length_expanded_inlier, length_repeat_interleave, length_has_data by lia.
         lia. }
       rewrite bce_weighted_ok by (rewrite !List.length_map; congruence).
       reflexivity. }
  cbv beta iota.
  rewrite index_rows_arange by (assumption || reflexivity).
  rewrite xor_column_diag.
  rewrite (masked_select_2d _ _ c c) by (reflexivity || exact Hil).
  cbn [data requires_grad].
  match goal with
  | |- context [?f ?s] =>
      lazymatch f with (if _ then _ else _) => idtac end;
      replace (f s)
        with (Ok (bce_unaligned m c n inlier), s)
  end.
  2: { unfold bce_unaligned. cbv zeta.
       match goal with |- context [if ?b then _ else _] => destruct b end; [reflexivity|].
       rewrite bce_plain_ok by (rewrite List.length_map; reflexivity).
       reflexivity. }
  reflexivity.
Qed.

(** ** Real-number facts *)

Section RealFacts.

Local Open Scope R_scope.

Lemma sigmoid_pos (x : R) : 0 < torch.sigmoid x.
Proof.
unfold torch.sigmoid. pose proof (exp_pos (- x)).
apply Rdiv_lt_0_compat; lra.
Qed.

Lemma sigmoid_lt_1 (x : R) : torch.sigmoid x < 1.
Proof.
unfold torch.sigmoid. pose proof (exp_pos (- x)).
apply (Rmult_lt_reg_r (1 + exp (- x))); [lra|].
unfold Rdiv. rewrite Rmult_assoc, Rinv_l by lra. lra.
Qed.

Lemma ln_nonpos (x : R) : 0 < x -> x <= 1 -> ln x <= 0.
Proof.
intros H0 [H1| ->].
- rewrite <- ln_1. left. apply ln_increasing; assumption.
- rewrite ln_1. lra.
Qed.

Lemma nlog_pos (x : R) : 0 < x -> nlog (Fin x) = Fin (ln x).
Proof.
intros H. unfold nlog. destruct (Rlt_dec 0 x); [reflexivity|contradiction].
Qed.

Lemma nlog_nonpos (x : R) : x <= 0 -> nlog (Fin x) = NonFinite.
Proof.
intros H. unfold nlog. destruct (Rlt_dec 0 x); [lra|reflexivity].
Qed.

Lemma nonneg_nadd (a b : num) : nonneg a -> nonneg b -> nonneg (nadd a b).
Proof.
intros [x [-> Hx]] [y [-> Hy]]. exists (x + y). split; [reflexivity|lra].
Qed.

Lemma nonneg_nmul (a b : num) : nonneg a -> nonneg b -> nonneg (nmul a b).
Proof.
intros [x [-> Hx]] [y [-> Hy]]. exists (x * y). split; [reflexivity|].
apply Rmult_le_pos; assumption.
Qed.

Lemma nonneg_nsum (l : list num) : Forall nonneg l -> nonneg (nsum l).
Proof.
induction 1 as [|a l Ha _ IH]; simpl.
- exists 0. split; [reflexivity|lra].
- apply nonneg_nadd; assumption.
Qed.



Lemma bce_with_logits_nonneg (x : R) (b : bool) :
0 <= torch.bce_with_logits x (b2r b).
Proof.
unfold torch.bce_with_logits.
pose proof (sigmoid_pos x) as H0. pose proof (sigmoid_lt_1 x) as H1.
assert (ln (torch.sigmoid x) <= 0) by (apply ln_nonpos; lra).
assert (ln (1 - torch.sigmoid x) <= 0) by (apply ln_nonpos; lra).
destruct b; simpl; lra.
Qed.

End RealFacts.

Section NonNegative.

Local Open Scope R_scope.






Lemma nonneg_bce_add (x : scalar) (y : option scalar) :
nonneg (value x) -> (forall y', y = Some y' -> nonneg (value y')) ->
nonneg (value (OHNMBCELoss._add_if_not_none x y)).
Proof.
intros Hx Hy. destruct y as [y'|]; simpl; [|assumption].
apply nonneg_nadd; [assumption|]. apply Hy. reflexivity.
Qed.

Lemma nonneg_zeros_tracked : nonneg (value zeros_tracked).
Proof. exists 0. split; [reflexivity|lra]. Qed.


Lemma bce_plain_sum_nonneg (input : list R) (b : bool) :
nonneg (bce_plain_sum input (map (fun _ => b2r b) input)).
Proof.
unfold bce_plain_sum. apply nonneg_nsum. apply List.Forall_forall.
intros a Ha. apply in_map_iff in Ha. destruct Ha as [[x y] [<- Hxy]].
apply in_combine_r in Hxy. apply in_map_iff in Hxy. destruct Hxy as [? [<- _]].
eexists. split; [reflexivity|]. apply bce_with_logits_nonneg.
Qed.

Lemma bce_sum_nonneg (input : list R) (labels : list bool) (w : R) :
0 <= w ->
nonneg (bce_sum input (map b2r labels)
                (map (fun y : bool => if y then Fin 1 else Fin w) labels)).
Proof.
intros Hw. unfold bce_sum. apply nonneg_nsum. apply List.Forall_forall.
intros a Ha. apply in_map_iff in Ha. destruct Ha as [[l v] [<- Hlv]].
cbn [fst snd]. apply nonneg_nmul.
- apply in_combine_l in Hlv. apply in_map_iff in Hlv.
  destruct Hlv as [[x y] [<- Hxy]]. apply in_combine_r in Hxy.
  apply in_map_iff in Hxy. destruct Hxy as [b [<- _]].
  eexists. split; [reflexivity|]. apply bce_with_logits_nonneg.
- apply in_combine_r in Hlv. apply in_map_iff in Hlv.
  destruct Hlv as [b [<- _]]. destruct b; eexists; (split; [reflexivity|lra]).
Qed.

Lemma bce_total_nonneg (c n : nat) (m k : tensor4) (inlier outlier : list bool)
  (w : R) :
outlier_weight n = Fin w -> 0 <= w ->
nonneg (value (fst (bce_report (bce_maxima m c n inlier outlier)
                               (bce_outlier_correspondence k outlier)
                               (bce_unaligned m c n inlier)))).
Proof.
intros Hw Hw0. unfold bce_report. cbn [fst].
repeat apply nonneg_bce_add; try apply nonneg_zeros_tracked.
- unfold bce_maxima. cbv zeta. intros y Hy.
  destruct (_ =? 0)%nat; [discriminate|]. injection Hy as <-. cbn [value].
  rewrite Hw. apply bce_sum_nonneg. assumption.
- unfold bce_outlier_correspondence. cbv zeta. intros y Hy.
  destruct (_ =? 0)%nat; [discriminate|]. injection Hy as <-. cbn [value].
  apply (bce_plain_sum_nonneg _ true).
- unfold bce_unaligned. cbv zeta. intros y Hy.
  destruct (_ =? 0)%nat; [discriminate|]. injection Hy as <-. cbn [value].
  apply (bce_plain_sum_nonneg _ false).
Qed.

End NonNegative.

Section OutlierWeight.

Local Open Scope R_scope.


Lemma outlier_weight_formula_at_1 :
OHNMBCELoss.outlier_weight_formula (Fin (INR 1)) = NonFinite.
Proof.
unfold OHNMBCELoss.outlier_weight_formula. cbn [nsub nlift2 INR].
rewrite nlog_nonpos by lra. reflexivity.
Qed.




End OutlierWeight.

Lemma example_well_formed :
  well_formed_input 2 1 example_scores example_scores example_inlier example_outlier.
Proof.
  constructor; try reflexivity; cbn; try lia.
  intros [|[|[|i]]]; reflexivity.
Qed.

Lemma get_weight_hit (n : nat) (ws : gmap string num) (v : num) :
  ws !! OHNMBCELoss.str n = Some v ->
  OHNMBCELoss._get_bce_maxima_outlier_weight n ws = (Ok v, ws).
Proof.
  intros H. unfold OHNMBCELoss._get_bce_maxima_outlier_weight.
  rewrite H. cbv beta iota zeta. rewrite H. reflexivity.
Qed.

(** * The claims *)





Lemma weights_after_one (inlier outlier : list bool) (ws : gmap string num) :
  weights_ok ws -> weights_after 1 inlier outlier ws = ws.
Proof.
  intros [H1 _]. unfold weights_after.
  destruct (_ =? 0); [reflexivity|].
  apply insert_id. exact H1.
Qed.

(** C8: with one patch per channel the weight request finds the entry that
    [__init__] stored for 1 and returns it; the dictionary is left as it is,
    so the closed form (which is not a finite number at 1: it takes the
    logarithm of zero) is not evaluated, and the total loss of such a call
    is finite. *)
Theorem C8_weight_guard_one_patch (ws : gmap string num) :
  weights_ok ws ->
  OHNMBCELoss._get_bce_maxima_outlier_weight 1 ws = (Ok (Fin 1%R), ws)
  /\ OHNMBCELoss.outlier_weight_formula (Fin (INR 1)) = NonFinite
  /\ forall c m k inlier outlier,
       well_formed_input c 1 m k inlier outlier ->
       exists total comps,
         OHNMBCELoss.forward_with_log_data m k inlier outlier ws
         = (Ok (total, comps), ws)
         /\ is_finite (value total).
Proof.
  intros Hws. split; [|split].
  - apply get_weight_hit. apply Hws.
  - exact outlier_weight_formula_at_1.
  - intros c m k inlier outlier Hwf.
    rewrite (bce_forward c 1) by assumption.
    rewrite weights_after_one by assumption.
    unfold bce_report at 1. do 2 eexists. split; [reflexivity|].
    destruct (bce_total_nonneg c 1 m k inlier outlier 1 eq_refl) as [r [Hr _]];
      [lra|].
    exists r. exact Hr.
Qed.

Lemma C8_witness :
  OHNMBCELoss._get_bce_maxima_outlier_weight 1 OHNMBCELoss.init_weights
  = (Ok (Fin 1%R), OHNMBCELoss.init_weights)
  /\ OHNMBCELoss.outlier_weight_formula (Fin (INR 1)) = NonFinite
  /\ forall c m k inlier outlier,
       well_formed_input c 1 m k inlier outlier ->
       exists total comps,
         OHNMBCELoss.forward_with_log_data m k inlier outlier
           OHNMBCELoss.init_weights
         = (Ok (total, comps), OHNMBCELoss.init_weights)
         /\ is_finite (value total).
Proof.
  apply (C8_weight_guard_one_patch OHNMBCELoss.init_weights).
  exact init_weights_ok.
Defined.

(** ** A single channel *)

Lemma py_index_error (i : Z) (d : nat) (e : exn) :
  py_index i d = Raise e -> e = IndexError.
Proof.
  unfold py_index. repeat match goal with |- context [if ?b then _ else _] => destruct b end;
    congruence.
Qed.

Lemma center_values_error (t : tensor) (e : exn) :
  center_values t = Raise e -> e = IndexError.
Proof.
  unfold center_values, torch.shape_at, torch.index_center.
  destruct (nth_error (shape t) 2) as [h|]; cbn [rbind]; [|congruence].
  destruct (h =? 1); [congruence|].
  destruct (shape t) as [|b [|c [|h' [|w [|? ?]]]]]; try congruence.
  destruct (py_index _ h') as [y|e1] eqn:E1; cbn [rbind].
  - destruct (py_index _ w) as [x|e2] eqn:E2; cbn [rbind]; [congruence|].
    intros H. injection H as <-. eapply py_index_error. exact E2.
  - intros H. injection H as <-. eapply py_index_error. exact E1.
Qed.

Lemma masked_select_error (t : tensor) (m : mask) (e : exn) :
  torch.masked_select t m = Raise e -> e = IndexError.
Proof.
  unfold torch.masked_select.
  destruct (shape t) as [|d0 [|d1 rest]]; try congruence.
  destruct (_ && _); congruence.
Qed.

(** With a single channel the squeezed score tensor has lost its channel
    dimension. *)
Lemma single_channel_rank (m : tensor4) (t : tensor) :
  dim1 m = 1 -> dim2 m = dim3 m ->
  center_values (of_tensor4 m) = Ok t ->
  nth_error (shape (torch.squeeze t)) 1 = None.
Proof.
  destruct m as [b c h w d g]. cbn [dim0 dim1 dim2 dim3]. intros -> <-.
  unfold center_values, torch.shape_at, torch.index_center, of_tensor4.
  cbn [shape nth_error rbind data requires_grad dim0 dim1 dim2 dim3 data4 requires_grad4].
  destruct (h =? 1) eqn:E.
  - apply Nat.eqb_eq in E. subst h. intros H. injection H as <-.
    unfold torch.squeeze. cbn [shape List.filter Nat.eqb negb].
    destruct (b =? 1); reflexivity.
  - destruct (py_index _ h) as [y|e1]; cbn [rbind]; [|congruence].
    intros H. injection H as <-.
    unfold torch.squeeze. cbn [shape List.filter Nat.eqb negb].
    destruct (b =? 1); reflexivity.
Qed.

Lemma classic_single_channel (epsilon : R) (m k : tensor4)
    (inlier outlier : list bool) :
  dim1 m = 1 -> dim2 m = dim3 m ->
  OHNMClassicImipLoss.forward_with_log_data epsilon m k inlier outlier
  = Raise IndexError.
Proof.
  intros Hc Hsq. unfold OHNMClassicImipLoss.forward_with_log_data.
  rewrite Hc. unfold py_mod. cbn [Nat.eqb rbind]. rewrite Nat.mod_1_r.
  cbn [Nat.eqb py_assert rbind]. rewrite Hsq, Nat.eqb_refl. cbn [py_assert rbind].
  destruct (center_values (of_tensor4 m)) as [m'|e] eqn:Em; cbn [rbind].
  2: { apply center_values_error in Em. subst e. reflexivity. }
  destruct (center_values (of_tensor4 k)) as [k'|e] eqn:Ek; cbn [rbind].
  2: { apply center_values_error in Ek. subst e. reflexivity. }
  destruct (torch.masked_select _ _) as [sel|e] eqn:Es; cbn [rbind].
  2: { apply masked_select_error in Es. subst e. reflexivity. }
  pose proof (single_channel_rank m m' Hc Hsq Em) as Hr.
  unfold torch.shape_at at 1 2. cbn [torch.sigmoid_ shape].
  rewrite Hr. destruct (nth_error _ 0); reflexivity.
Qed.

Lemma bce_single_channel (m k : tensor4) (inlier outlier : list bool)
    (ws : gmap string num) :
  dim1 m = 1 -> dim2 m = dim3 m ->
  OHNMBCELoss.forward_with_log_data m k inlier outlier ws
  = (Raise IndexError, ws).
Proof.
  intros Hc Hsq. unfold OHNMBCELoss.forward_with_log_data, sbind, lift, sret.
  rewrite Hc. unfold py_mod. cbn [Nat.eqb]. rewrite Nat.mod_1_r.
  cbn [Nat.eqb py_assert]. rewrite Hsq, Nat.eqb_refl. cbn [py_assert].
  destruct (center_values (of_tensor4 m)) as [m'|e] eqn:Em.
  2: { apply center_values_error in Em. subst e. reflexivity. }
  destruct (center_values (of_tensor4 k)) as [k'|e] eqn:Ek.
  2: { apply center_values_error in Ek. subst e. reflexivity. }
  destruct (torch.masked_select _ _) as [sel|e] eqn:Es.
  2: { apply masked_select_error in Es. subst e. reflexivity. }
  pose proof (single_channel_rank m m' Hc Hsq Em) as Hr.
  unfold torch.shape_at. rewrite Hr.
  destruct (length sel =? 0).
  - cbv beta iota. destruct (nth_error _ 0); reflexivity.
  - rewrite bce_plain_ok by (rewrite List.length_map; reflexivity).
    cbv beta iota. destruct (nth_error _ 0); reflexivity.
Qed.

(** C10: with exactly one channel both variants fail with an index error
    before producing a result, although the batch size is a multiple of the
    channel count, the footprint is square and the labels are disjoint: the
    squeeze removes the channel dimension, so the second shape dimension
    (or the masked read of the correspondence scores) is out of range. *)
Theorem C10_single_channel_raises
    (epsilon : R) (m k : tensor4) (inlier outlier : list bool)
    (ws : gmap string num) :
  dim1 m = 1 -> dim2 m = dim3 m ->
  OHNMClassicImipLoss.forward_with_log_data epsilon m k inlier outlier
  = Raise IndexError
  /\ OHNMBCELoss.forward_with_log_data m k inlier outlier ws
     = (Raise IndexError, ws).
Proof.
  intros Hc Hsq. split.
  - apply classic_single_channel; assumption.
  - apply bce_single_channel; assumption.
Qed.

Lemma C10_witness :
  OHNMClassicImipLoss.forward_with_log_data (1 / 10000) single_channel_scores
    single_channel_scores [true] [false]
  = Raise IndexError
  /\ OHNMBCELoss.forward_with_log_data single_channel_scores
       single_channel_scores [true] [false] OHNMBCELoss.init_weights
     = (Raise IndexError, OHNMBCELoss.init_weights).
Proof.
  apply (C10_single_channel_raises (1 / 10000) single_channel_scores
           single_channel_scores [true] [false] OHNMBCELoss.init_weights);
    reflexivity.
Defined.

(** ** The dictionary does not influence the result *)





(** ** Empty selections *)

Section Selections.
Variables (c n : nat) (m k : tensor4) (inlier outlier : list bool).
Hypothesis Hwf : well_formed_input c n m k inlier outlier.

Lemma length_scores : length (centered m) = c * n * c.
Proof using Hwf.
  destruct Hwf. rewrite length_centered by assumption. congruence.
Qed.

Lemma length_corr_scores : length (centered k) = c * c.
Proof using Hwf.
  destruct Hwf. rewrite length_centered by assumption. congruence.
Qed.

Lemma length_corr_selection (l : list R) :
  length l = c * c ->
  length (torch.select_blocks 1 (cells (torch.diag outlier)) l)
  = count_true (cells (torch.diag outlier)).
Proof using Hwf.
  intros Hl. apply length_select_blocks_1.
  cbn [cells torch.diag]. rewrite length_tabulate2, Hl.
  destruct Hwf. nia.
Qed.

Lemma length_maxima_selection (v : list bool) (l : list R) :
  length l = c * n * c ->
  length (torch.select_blocks 1 (cells (maxima_index v c n)) l)
  = count_true (cells (maxima_index v c n)).
Proof using Type.
  intros Hl. apply length_select_blocks_1.
  cbn [cells maxima_index]. rewrite length_tabulate2, Hl. lia.
Qed.

Lemma length_unaligned_selection (l : list R) :
  length l = c * n * c ->
  length (torch.select_blocks 1 (cells (unaligned_index inlier))
                              (maximizing_rows c n l))
  = count_true (cells (unaligned_index inlier)).
Proof using Hwf.
  intros Hl. apply length_select_blocks_1.
  cbn [cells unaligned_index].
  rewrite length_tabulate2, length_maximizing_rows by (destruct Hwf; assumption).
  destruct Hwf. nia.
Qed.

Lemma length_probabilities (t : tensor4) :
  length (probabilities t) = length (centered t).
Proof using Type. unfold probabilities. apply List.length_map. Qed.

Lemma classic_outlier_correspondence_absent (epsilon : R) :
  classic_outlier_correspondence epsilon k outlier = None
  <-> count_true (cells (torch.diag outlier)) = 0.
Proof using Hwf.
  unfold classic_outlier_correspondence. cbv zeta.
  rewrite <- (length_corr_selection (probabilities k))
    by (rewrite length_probabilities; apply length_corr_scores).
  destruct (Nat.eqb_spec (length (torch.select_blocks 1 (cells (torch.diag outlier))
                                    (probabilities k))) 0);
    split; intros; congruence.
Qed.

Lemma classic_outlier_maximizer_absent (epsilon : R) :
  classic_outlier_maximizer epsilon m c n inlier outlier = None
  <-> count_true (cells (maxima_index (expanded_outlier n inlier outlier) c n)) = 0.
Proof using Type.
  unfold classic_outlier_maximizer. cbv zeta.
  destruct (Nat.eqb_spec
              (count_true (cells (maxima_index (expanded_outlier n inlier outlier) c n)))
              0); split; intros; congruence.
Qed.

Lemma classic_inlier_absent (epsilon : R) :
  classic_inlier epsilon m c n inlier = None
  <-> count_true (cells (maxima_index (expanded_inlier n inlier) c n)) = 0.
Proof using Hwf.
  unfold classic_inlier. cbv zeta.
  rewrite <- (length_maxima_selection _ (probabilities m))
    by (rewrite length_probabilities; apply length_scores).
  destruct (Nat.eqb_spec
              (length (torch.select_blocks 1
                         (cells (maxima_index (expanded_inlier n inlier) c n))
                         (probabilities m))) 0);
    split; intros; congruence.
Qed.

Lemma classic_unaligned_empty :
  count_true (cells (unaligned_index inlier)) = 0 ->
  classic_unaligned m c n inlier = zeros_tracked.
Proof using Hwf.
  intros H. unfold classic_unaligned. cbv zeta.
  rewrite (length_unaligned_selection (probabilities m))
    by (rewrite length_probabilities; apply length_scores).
  rewrite H. reflexivity.
Qed.

Lemma bce_outlier_correspondence_absent :
  bce_outlier_correspondence k outlier = None
  <-> count_true (cells (torch.diag outlier)) = 0.
Proof using Hwf.
  unfold bce_outlier_correspondence. cbv zeta.
  rewrite <- (length_corr_selection (centered k)) by apply length_corr_scores.
  destruct (Nat.eqb_spec (length (torch.select_blocks 1 (cells (torch.diag outlier))
                                    (centered k))) 0);
    split; intros; congruence.
Qed.

Lemma length_bce_maxima_labels :
  length (bce_maxima_labels n inlier outlier)
  = count_true (torch.repeat_interleave (has_data inlier outlier) n).
Proof using Hwf.
  unfold bce_maxima_labels. apply length_select_blocks_1.
  rewrite length_repeat_interleave, length_expanded_inlier, length_has_data
    by (destruct Hwf; congruence).
  lia.
Qed.

Lemma bce_maxima_absent :
  bce_maxima m c n inlier outlier = None
  <-> count_true (torch.repeat_interleave (has_data inlier outlier) n) = 0.
Proof using Hwf.
  unfold bce_maxima. cbv zeta. rewrite <- length_bce_maxima_labels.
  destruct (Nat.eqb_spec (length (bce_maxima_labels n inlier outlier)) 0);
    split; intros; congruence.
Qed.

Lemma bce_unaligned_absent :
  bce_unaligned m c n inlier = None
  <-> count_true (cells (unaligned_index inlier)) = 0.
Proof using Hwf.
  unfold bce_unaligned. cbv zeta.
  rewrite <- (length_unaligned_selection (centered m)) by apply length_scores.
  destruct (Nat.eqb_spec
              (length (torch.select_blocks 1 (cells (unaligned_index inlier))
                         (maximizing_rows c n (centered m)))) 0);
    split; intros; congruence.
Qed.

End Selections.



(** ** The scenarios of the specification *)

Lemma sigmoid_logit (p : R) : (0 < p < 1)%R -> torch.sigmoid (logit p) = p.
Proof.
  intros [H0 H1]. unfold torch.sigmoid, logit.
  assert (Hq : (0 < p / (1 - p))%R) by (apply Rdiv_lt_0_compat; lra).
  rewrite exp_Ropp, exp_ln by assumption. field. lra.
Qed.

Lemma sigmoid_0 : torch.sigmoid 0 = (1 / 2)%R.
Proof. unfold torch.sigmoid. rewrite Ropp_0, exp_0. lra. Qed.

Lemma unaligned_cell (inlier : list bool) (r j : nat) :
  r < length inlier -> j < length inlier ->
  cell (unaligned_index inlier) r j = nth r inlier false && negb (r =? j).
Proof.
  intros Hr Hj. unfold cell, unaligned_index. cbn [mcols cells].
  rewrite nth_tabulate2 by assumption.
  destruct (r =? j), (nth r inlier false); reflexivity.
Qed.

Lemma scenario3_well_formed :
  well_formed_input 3 1 scenario3_scores scenario3_corr scenario3_inlier
    scenario3_outlier.
Proof.
  constructor; try reflexivity; cbn; try lia.
  intros [|[|[|[|i]]]]; reflexivity.
Qed.

Lemma classic_unaligned_scenario3 (x00 x01 x02 x10 x11 x12 x20 x21 x22 : R) (g : bool) :
  classic_unaligned
    {| dim0 := 3; dim1 := 3; dim2 := 1; dim3 := 1;
       data4 := [x00; x01; x02; x10; x11; x12; x20; x21; x22];
       requires_grad4 := g |} 3 1 [true; false; true]
  = {| value := Fin (torch.sigmoid x01 + (torch.sigmoid x02
                     + (torch.sigmoid x20 + (torch.sigmoid x21 + 0))))%R;
       grad := g |}.
Proof. reflexivity. Qed.

(** In scenario 3 the cell (0,1) is selected although channel 1 is not an
    inlier, and the unaligned term of Variant A is 0.5 + 0.7 + 0.6 + 0.5
    rather than 0.7 + 0.6. *)
Lemma C1_counterexample :
  (exists idx,
      torch.xor_column (torch.diag scenario3_inlier) scenario3_inlier = Ok idx
      /\ cell idx 0 1 = true
      /\ spec_unaligned_selection scenario3_inlier 0 1 = false)
  /\ (exists total comps,
         OHNMClassicImipLoss.forward_with_log_data (1 / 10000) scenario3_scores
           scenario3_corr scenario3_inlier scenario3_outlier
         = Ok (total, comps)
         /\ component "unaligned_maximizer_loss" comps
            <> Some (Some {| value := Fin (0.7 + 0.6); grad := false |})).
Proof.
  split.
  - exists (unaligned_index scenario3_inlier). split; [apply xor_column_diag|].
    split; reflexivity.
  - rewrite (classic_forward _ 3 1) by exact scenario3_well_formed.
    unfold classic_report at 1. do 2 eexists. split; [reflexivity|].
    cbn [component List.find fst snd String.eqb Ascii.eqb Bool.eqb option_map
         OHNMClassicImipLoss._detach_if_not_none].
    unfold scenario3_scores, scenario3_inlier.
    rewrite classic_unaligned_scenario3. unfold detach. cbn [value grad].
    rewrite !sigmoid_logit, sigmoid_0 by lra.
    intros H. injection H as H. lra.
Qed.

Lemma bce_unaligned_scenario3 (x00 x01 x02 x10 x11 x12 x20 x21 x22 : R) (g : bool) :
  bce_unaligned
    {| dim0 := 3; dim1 := 3; dim2 := 1; dim3 := 1;
       data4 := [x00; x01; x02; x10; x11; x12; x20; x21; x22];
       requires_grad4 := g |} 3 1 [true; false; true]
  = Some {| value := Fin (torch.bce_with_logits x01 0
                          + (torch.bce_with_logits x02 0
                             + (torch.bce_with_logits x20 0
                                + (torch.bce_with_logits x21 0 + 0))))%R;
            grad := g |}.
Proof. reflexivity. Qed.

(** C1 (amended): the unaligned-maxima selection of both variants, the
    exclusive-or of the diagonal of the inlier labels with the inlier labels
    broadcast along the rows, selects exactly the cells [(r, j)] with [r] an
    inlier and [r <> j]; the column need not be an inlier.  For three
    channels with one patch each and inlier labels [true, false, true],
    Variant A's unaligned term is the sum of the squashed responses at the
    cells (0,1), (0,2), (2,0) and (2,1), and Variant B's is the binary cross
    entropy against 0 at the same cells. *)
Theorem C1_unaligned_selection_inlier_rows
    (inlier : list bool) (r j : nat)
    (epsilon x00 x01 x02 x10 x11 x12 x20 x21 x22 : R) (g : bool)
    (k : tensor4) (outlier : list bool) (ws : gmap string num) :
  let m := {| dim0 := 3; dim1 := 3; dim2 := 1; dim3 := 1;
              data4 := [x00; x01; x02; x10; x11; x12; x20; x21; x22];
              requires_grad4 := g |} in
  r < length inlier -> j < length inlier ->
  well_formed_input 3 1 m k [true; false; true] outlier ->
  weights_ok ws ->
  (exists idx,
      torch.xor_column (torch.diag inlier) inlier = Ok idx
      /\ cell idx r j = xorb (cell (torch.diag inlier) r j) (nth r inlier false)
      /\ cell idx r j = nth r inlier false && negb (r =? j))
  /\ (exists total comps,
         OHNMClassicImipLoss.forward_with_log_data epsilon m k [true; false; true]
           outlier
         = Ok (total, comps)
         /\ component "unaligned_maximizer_loss" comps
            = Some (Some {| value := Fin (torch.sigmoid x01 + torch.sigmoid x02
                                          + torch.sigmoid x20 + torch.sigmoid x21)%R;
                            grad := false |}))
  /\ (exists total comps,
         fst (OHNMBCELoss.forward_with_log_data m k [true; false; true] outlier ws)
         = Ok (total, comps)
         /\ component "unaligned_maximizer_loss" comps
            = Some (Some {| value := Fin (torch.bce_with_logits x01 0
                                          + torch.bce_with_logits x02 0
                                          + torch.bce_with_logits x20 0
                                          + torch.bce_with_logits x21 0)%R;
                            grad := false |})).
Proof.
  intros m Hr Hj Hwf Hws. split; [|split].
  - exists (unaligned_index inlier). split; [apply xor_column_diag|].
    rewrite unaligned_cell, cell_diag by assumption.
    split; [|reflexivity].
    destruct (r =? j), (nth r inlier false); reflexivity.
  - rewrite (classic_forward _ 3 1) by assumption.
    unfold classic_report at 1. do 2 eexists. split; [reflexivity|].
    cbn [component List.find fst snd String.eqb Ascii.eqb Bool.eqb option_map
         OHNMClassicImipLoss._detach_if_not_none].
    unfold m. rewrite classic_unaligned_scenario3. unfold detach. cbn [value grad].
    apply (f_equal (fun v => Some (Some {| value := Fin v; grad := false |}))). lra.
  - rewrite (bce_forward 3 1) by assumption. cbn [fst].
    unfold bce_report at 1. do 2 eexists. split; [reflexivity|].
    cbn [component List.find fst snd String.eqb Ascii.eqb Bool.eqb option_map
         OHNMBCELoss._detach_if_not_none].
    unfold m. rewrite bce_unaligned_scenario3. unfold detach. cbn [value grad].
    apply (f_equal (fun v => Some (Some {| value := Fin v; grad := false |}))). lra.
Qed.

Lemma C1_witness :
  exists total comps,
    OHNMClassicImipLoss.forward_with_log_data (1 / 10000) scenario3_scores
      scenario3_corr scenario3_inlier scenario3_outlier
    = Ok (total, comps)
    /\ component "unaligned_maximizer_loss" comps
       = Some (Some {| value := Fin (torch.sigmoid 0 + torch.sigmoid (logit 0.7)
                                     + torch.sigmoid (logit 0.6) + torch.sigmoid 0)%R;
                       grad := false |}).
Proof.
  apply (C1_unaligned_selection_inlier_rows scenario3_inlier 0 1 (1 / 10000)
           (logit 0.7) 0 (logit 0.7) 0 (logit 0.3) 0 (logit 0.6) 0 (logit 0.6)
           true scenario3_corr scenario3_outlier OHNMBCELoss.init_weights).
  - cbn. lia.
  - cbn. lia.
  - exact scenario3_well_formed.
  - exact init_weights_ok.
Defined.

Lemma ndiv_fin (x y : R) : y <> 0%R -> ndiv (Fin x) (Fin y) = Fin (x / y).
Proof.
  intros H. unfold ndiv. destruct (Req_dec_T y 0); [contradiction|reflexivity].
Qed.

Lemma floor_pos (epsilon p : R) : (0 < epsilon)%R -> (0 < Rmax p epsilon)%R.
Proof. intros H. apply Rlt_le_trans with epsilon; [assumption|apply Rmax_r]. Qed.

Lemma one_minus (p : R) : (-1 * p + 1)%R = (1 - p)%R.
Proof. lra. Qed.

Section Scenario1.
Variables (epsilon x00 x01 x10 x11 x20 x21 x30 x31 : R) (g : bool).
Hypothesis Heps : (0 < epsilon)%R.

Lemma classic_outlier_maximizer_scenario1 :
  classic_outlier_maximizer epsilon
    (scores_4x2 x00 x01 x10 x11 x20 x21 x30 x31 g) 2 2 [true; true] [false; false]
  = Some {| value := Fin (- ln (Rmax (1 - torch.sigmoid x10) epsilon)
                          - ln (Rmax (1 - torch.sigmoid x31) epsilon))%R;
            grad := g |}.
Proof using Heps.
  unfold classic_outlier_maximizer. cbv zeta.
  cbn -[nlog nmul nadd ndiv INR].
  rewrite !one_minus, !nlog_pos by (apply floor_pos; assumption).
  cbn [nmul nadd nlift2]. rewrite !ndiv_fin by (simpl; lra).
  cbn [nmul nadd nlift2 INR].
  apply (f_equal (fun v => Some {| value := Fin v; grad := g |})). lra.
Qed.

Lemma classic_inlier_scenario1 :
  classic_inlier epsilon (scores_4x2 x00 x01 x10 x11 x20 x21 x30 x31 g) 2 2 [true; true]
  = Some {| value := Fin (- ln (Rmax (torch.sigmoid x00) epsilon)
                          - ln (Rmax (torch.sigmoid x21) epsilon))%R;
            grad := g |}.
Proof using Heps.
  unfold classic_inlier. cbv zeta.
  cbn -[nlog nmul nadd ndiv INR].
  rewrite !nlog_pos by (apply floor_pos; assumption).
  cbn [nmul nadd nlift2].
  apply (f_equal (fun v => Some {| value := Fin v; grad := g |})). lra.
Qed.

Lemma classic_outlier_correspondence_scenario1 (k : tensor4) :
  well_stored k -> dim0 k = 2 -> dim1 k = 2 -> dim2 k = dim3 k ->
  classic_outlier_correspondence epsilon k [false; false] = None.
Proof using Type.
  intros Hst H0 H1 Hsq. unfold classic_outlier_correspondence. cbv zeta.
  rewrite select_blocks_all_false; [reflexivity|].
  cbn. repeat constructor.
Qed.

End Scenario1.

Lemma scenario1_well_formed :
  well_formed_input 2 2 scenario1_scores scenario1_corr scenario1_inlier
    scenario1_outlier.
Proof.
  constructor; try reflexivity; cbn; try lia.
  intros [|[|[|i]]]; reflexivity.
Qed.

(** C2 (amended): in scenario 1 (two channels with two patches each, both
    inliers, no outlier) Variant A reports no correspondence-outlier term;
    the inlier term is the negative log of the floored squashed scores at
    the first patch of each block, rows 0 and 2 (so 0.9 and 0.2 for the
    blocks [0.9, 0.1] and [0.2, 0.8]); and the outlier-maximizer term is
    present: it is taken over the other patch of each block, rows 1 and 3. *)
Theorem C2_scenario1_first_patch_of_block
    (epsilon x00 x01 x10 x11 x20 x21 x30 x31 : R) (g : bool) (k : tensor4) :
  let m := scores_4x2 x00 x01 x10 x11 x20 x21 x30 x31 g in
  (0 < epsilon)%R ->
  well_formed_input 2 2 m k [true; true] [false; false] ->
  exists total comps,
    OHNMClassicImipLoss.forward_with_log_data epsilon m k [true; true]
      [false; false]
    = Ok (total, comps)
    /\ component "outlier_correspondence_loss" comps = Some None
    /\ component "inlier_maximizer_loss" comps
       = Some (Some {| value := Fin (- ln (Rmax (torch.sigmoid x00) epsilon)
                                     - ln (Rmax (torch.sigmoid x21) epsilon))%R;
                       grad := false |})
    /\ component "outlier_maximizer_loss" comps
       = Some (Some {| value := Fin (- ln (Rmax (1 - torch.sigmoid x10) epsilon)
                                     - ln (Rmax (1 - torch.sigmoid x31) epsilon))%R;
                       grad := false |}).
Proof.
  intros m Heps Hwf.
  rewrite (classic_forward _ 2 2) by assumption.
  unfold classic_report at 1. do 2 eexists. split; [reflexivity|].
  cbn [component List.find fst snd String.eqb Ascii.eqb Bool.eqb option_map].
  unfold m.
  rewrite classic_outlier_maximizer_scenario1, classic_inlier_scenario1 by assumption.
  rewrite classic_outlier_correspondence_scenario1 by (destruct Hwf; assumption).
  repeat split.
Qed.

Lemma C2_witness :
  exists total comps,
    OHNMClassicImipLoss.forward_with_log_data (1 / 10000) scenario1_scores
      scenario1_corr scenario1_inlier scenario1_outlier
    = Ok (total, comps)
    /\ component "outlier_correspondence_loss" comps = Some None
    /\ component "inlier_maximizer_loss" comps
       = Some (Some {| value :=
                         Fin (- ln (Rmax (torch.sigmoid (logit 0.9)) (1 / 10000))
                              - ln (Rmax (torch.sigmoid (logit 0.2)) (1 / 10000)))%R;
                       grad := false |})
    /\ component "outlier_maximizer_loss" comps
       = Some (Some {| value :=
                         Fin (- ln (Rmax (1 - torch.sigmoid (logit 0.1)) (1 / 10000))
                              - ln (Rmax (1 - torch.sigmoid (logit 0.8)) (1 / 10000)))%R;
                       grad := false |}).
Proof.
  apply (C2_scenario1_first_patch_of_block (1 / 10000) (logit 0.9) 0 (logit 0.1) 0
           0 (logit 0.2) 0 (logit 0.8) true scenario1_corr).
  - lra.
  - exact scenario1_well_formed.
Defined.

(** In scenario 1 the outlier-maximizer term is present, and the inlier term
    is taken at rows 0 and 2, whose squashed scores are 0.9 and 0.2. *)
Lemma C2_counterexample :
  exists total comps,
    OHNMClassicImipLoss.forward_with_log_data (1 / 10000) scenario1_scores
      scenario1_corr scenario1_inlier scenario1_outlier
    = Ok (total, comps)
    /\ component "outlier_maximizer_loss" comps <> Some None
    /\ component "inlier_maximizer_loss" comps
       <> Some (Some {| value := Fin (- ln (Rmax 0.9 (1 / 10000))
                                      - ln (Rmax 0.8 (1 / 10000)))%R;
                        grad := false |}).
Proof.
  rewrite (classic_forward _ 2 2) by exact scenario1_well_formed.
  unfold classic_report at 1. do 2 eexists. split; [reflexivity|].
  cbn [component List.find fst snd String.eqb Ascii.eqb Bool.eqb option_map].
  unfold scenario1_scores, scenario1_inlier, scenario1_outlier.
  rewrite classic_outlier_maximizer_scenario1, classic_inlier_scenario1 by lra.
  split; [discriminate|].
  cbn [OHNMClassicImipLoss._detach_if_not_none detach value grad].
  rewrite !sigmoid_logit by lra.
  rewrite !Rmax_left by lra.
  intros H. injection H as H.
  assert (ln 0.2 < ln 0.8)%R by (apply ln_increasing; lra).
  lra.
Qed.

Lemma diag_selection (flags : list bool) (l : list R) :
  length l = length flags * length flags ->
  torch.select_blocks 1 (cells (torch.diag flags)) l
  = diagonal_at flags (length flags) l.
Proof.
  intros Hl. unfold torch.diag, diagonal_at. cbn [cells].
  rewrite (tabulate2_ext _ _ _ (fun r j => nth r flags false && (r =? j))).
  - apply (select_single_hit 0%R); [intros; assumption|assumption].
  - intros r j _ _. destruct (r =? j), (nth r flags false); reflexivity.
Qed.

Lemma diagonal_at_map (f : R -> R) (flags : list bool) (c : nat) (l : list R) :
  length l = c * c ->
  diagonal_at flags c (map f l) = map f (diagonal_at flags c l).
Proof.
  intros Hl. unfold diagonal_at. rewrite List.map_map.
  apply map_ext_in. intros i Hi. apply filter_In in Hi. destruct Hi as [Hi _].
  apply in_seq in Hi.
  rewrite (nth_indep _ 0%R (f 0%R)) by (rewrite List.length_map; nia).
  apply map_nth.
Qed.

Section Scenario2.
Variables (epsilon m00 m01 m10 m11 k00 k01 k10 k11 : R) (g h : bool).
Hypothesis Heps : (0 < epsilon)%R.

Lemma classic_outlier_correspondence_scenario2 :
  classic_outlier_correspondence epsilon (scores_2x2 k00 k01 k10 k11 h)
    [true; true]
  = Some {| value := Fin (- ln (Rmax (torch.sigmoid k00) epsilon)
                          - ln (Rmax (torch.sigmoid k11) epsilon))%R;
            grad := h |}.
Proof using Heps.
  unfold classic_outlier_correspondence. cbv zeta.
  cbn -[nlog nmul nadd ndiv INR].
  rewrite !nlog_pos by (apply floor_pos; assumption).
  cbn [nmul nadd nlift2].
  apply (f_equal (fun v => Some {| value := Fin v; grad := h |})). lra.
Qed.

Lemma classic_outlier_maximizer_scenario2 :
  classic_outlier_maximizer epsilon (scores_2x2 m00 m01 m10 m11 g) 2 1 [false; false] [true; true]
  = Some {| value := Fin (- ln (Rmax (1 - torch.sigmoid m00) epsilon)
                          - ln (Rmax (1 - torch.sigmoid m11) epsilon))%R;
            grad := g |}.
Proof using Heps.
  unfold classic_outlier_maximizer. cbv zeta.
  cbn -[nlog nmul nadd ndiv INR].
  rewrite !one_minus, !nlog_pos by (apply floor_pos; assumption).
  cbn [nmul nadd nlift2]. rewrite !ndiv_fin by (simpl; lra).
  cbn [nmul nadd nlift2 INR].
  apply (f_equal (fun v => Some {| value := Fin v; grad := g |})). lra.
Qed.

Lemma classic_inlier_scenario2 :
  classic_inlier epsilon (scores_2x2 m00 m01 m10 m11 g) 2 1 [false; false] = None.
Proof using Type. reflexivity. Qed.

Lemma classic_unaligned_scenario2 :
  classic_unaligned (scores_2x2 m00 m01 m10 m11 g) 2 1 [false; false] = zeros_tracked.
Proof using Type. reflexivity. Qed.

Lemma bce_outlier_correspondence_scenario2 :
  bce_outlier_correspondence (scores_2x2 k00 k01 k10 k11 h) [true; true]
  = Some {| value := Fin (torch.bce_with_logits k00 1
                          + torch.bce_with_logits k11 1)%R;
            grad := h |}.
Proof using Type.
  unfold bce_outlier_correspondence, bce_plain_sum. cbv zeta.
  cbn -[nlog nmul nadd ndiv INR torch.bce_with_logits].
  cbn [nadd nlift2].
  apply (f_equal (fun v => Some {| value := Fin v; grad := h |})). lra.
Qed.

End Scenario2.

Lemma scenario2_well_formed (m00 m01 m10 m11 k00 k01 k10 k11 : R) (g h : bool) :
  well_formed_input 2 1 (scores_2x2 m00 m01 m10 m11 g)
    (scores_2x2 k00 k01 k10 k11 h) [false; false] [true; true].
Proof.
  constructor; try reflexivity; cbn; try lia.
  intros [|[|[|i]]]; reflexivity.
Qed.

Lemma classic_outlier_correspondence_diagonal (epsilon : R) (c n : nat)
    (m k : tensor4) (inlier outlier : list bool) :
  well_formed_input c n m k inlier outlier ->
  classic_outlier_correspondence epsilon k outlier
  = let sel := diagonal_at outlier c (centered k) in
    if length sel =? 0 then None
    else Some {| value := OHNMClassicImipLoss.sum_neg_log_floor epsilon
                            (map torch.sigmoid sel);
                 grad := requires_grad4 k |}.
Proof.
  intros Hwf. pose proof (length_corr_scores c n m k inlier outlier Hwf) as Hl.
  destruct Hwf as [_ _ _ _ _ _ _ _ _ _ _ _ _ Hol _].
  unfold classic_outlier_correspondence, probabilities. cbv zeta.
  rewrite diag_selection by (rewrite List.length_map; congruence).
  rewrite Hol, diagonal_at_map by assumption.
  rewrite List.length_map. reflexivity.
Qed.

Lemma bce_outlier_correspondence_diagonal (c n : nat)
    (m k : tensor4) (inlier outlier : list bool) :
  well_formed_input c n m k inlier outlier ->
  bce_outlier_correspondence k outlier
  = let sel := diagonal_at outlier c (centered k) in
    if length sel =? 0 then None
    else Some {| value := bce_plain_sum sel (map (fun _ => 1%R) sel);
                 grad := requires_grad4 k |}.
Proof.
  intros Hwf. pose proof (length_corr_scores c n m k inlier outlier Hwf) as Hl.
  destruct Hwf as [_ _ _ _ _ _ _ _ _ _ _ _ _ Hol _].
  unfold bce_outlier_correspondence. cbv zeta.
  rewrite diag_selection by congruence.
  rewrite Hol. reflexivity.
Qed.

(** C6 (amended): the correspondence-outlier term of each variant is taken
    over the diagonal cells of the correspondence scores at the outlier
    channels.  Variant A sums the negative log of the floored squashed
    responses; Variant B sums the binary cross entropy with logits against
    target 1.  In scenario 2 (two channels, one patch each, both outliers)
    Variant A's term is the negative log of the two floored squashed
    diagonal responses, the inlier-maximizer term is absent, the
    outlier-maximizer term is present (taken over the single patch of each
    outlier channel) and the unaligned term is the zero tensor. *)
Theorem C6_correspondence_outlier_conventions
    (epsilon : R) (c n : nat) (m k : tensor4) (inlier outlier : list bool)
    (ws : gmap string num)
    (m00 m01 m10 m11 k00 k01 k10 k11 : R) (g h : bool) :
  let m2 := scores_2x2 m00 m01 m10 m11 g in
  let k2 := scores_2x2 k00 k01 k10 k11 h in
  let sel := diagonal_at outlier c (centered k) in
  (0 < epsilon)%R ->
  well_formed_input c n m k inlier outlier -> weights_ok ws ->
  (exists total comps,
      OHNMClassicImipLoss.forward_with_log_data epsilon m k inlier outlier
      = Ok (total, comps)
      /\ component "outlier_correspondence_loss" comps
         = Some (if length sel =? 0 then None
                 else Some {| value := OHNMClassicImipLoss.sum_neg_log_floor
                                         epsilon (map torch.sigmoid sel);
                              grad := false |}))
  /\ (exists total comps,
         fst (OHNMBCELoss.forward_with_log_data m k inlier outlier ws)
         = Ok (total, comps)
         /\ component "outlier_correspondence_loss" comps
            = Some (if length sel =? 0 then None
                    else Some {| value := bce_plain_sum sel (map (fun _ => 1%R) sel);
                                 grad := false |}))
  /\ (exists total comps,
         OHNMClassicImipLoss.forward_with_log_data epsilon m2 k2 [false; false]
           [true; true]
         = Ok (total, comps)
         /\ component "outlier_correspondence_loss" comps
            = Some (Some {| value := Fin (- ln (Rmax (torch.sigmoid k00) epsilon)
                                          - ln (Rmax (torch.sigmoid k11) epsilon))%R;
                            grad := false |})
         /\ component "inlier_maximizer_loss" comps = Some None
         /\ component "outlier_maximizer_loss" comps
            = Some (Some {| value :=
                              Fin (- ln (Rmax (1 - torch.sigmoid m00) epsilon)
                                   - ln (Rmax (1 - torch.sigmoid m11) epsilon))%R;
                            grad := false |})
         /\ component "unaligned_maximizer_loss" comps
            = Some (Some {| value := Fin 0%R; grad := false |}))
  /\ (exists total comps,
         fst (OHNMBCELoss.forward_with_log_data m2 k2 [false; false] [true; true] ws)
         = Ok (total, comps)
         /\ component "outlier_correspondence_loss" comps
            = Some (Some {| value := Fin (torch.bce_with_logits k00 1
                                          + torch.bce_with_logits k11 1)%R;
                            grad := false |})).
Proof.
  intros m2 k2 sel Heps Hwf Hws. split; [|split; [|split]].
  - rewrite (classic_forward _ c n) by assumption.
    unfold classic_report at 1. do 2 eexists. split; [reflexivity|].
    cbn [component List.find fst snd String.eqb Ascii.eqb Bool.eqb option_map].
    rewrite (classic_outlier_correspondence_diagonal _ c n m k inlier outlier Hwf).
    cbv zeta. fold sel. destruct (length sel =? 0); reflexivity.
  - rewrite (bce_forward c n) by assumption. cbn [fst].
    unfold bce_report at 1. do 2 eexists. split; [reflexivity|].
    cbn [component List.find fst snd String.eqb Ascii.eqb Bool.eqb option_map].
    rewrite (bce_outlier_correspondence_diagonal c n m k inlier outlier Hwf).
    cbv zeta. fold sel. destruct (length sel =? 0); reflexivity.
  - rewrite (classic_forward _ 2 1) by apply scenario2_well_formed.
    unfold classic_report at 1. do 2 eexists. split; [reflexivity|].
    cbn [component List.find fst snd String.eqb Ascii.eqb Bool.eqb option_map].
    unfold m2, k2.
    rewrite classic_outlier_correspondence_scenario2,
      classic_outlier_maximizer_scenario2 by assumption.
    repeat split.
  - rewrite (bce_forward 2 1) by (apply scenario2_well_formed || assumption).
    cbn [fst]. unfold bce_report at 1. do 2 eexists. split; [reflexivity|].
    cbn [component List.find fst snd String.eqb Ascii.eqb Bool.eqb option_map].
    unfold k2. rewrite bce_outlier_correspondence_scenario2. reflexivity.
Qed.

(** In scenario 2 the outlier-maximizer and the unaligned term are
    present. *)
Lemma C6_counterexample :
  exists total comps,
    OHNMClassicImipLoss.forward_with_log_data (1 / 10000) scenario2_scores
      scenario2_corr scenario2_inlier scenario2_outlier
    = Ok (total, comps)
    /\ component "outlier_correspondence_loss" comps
       = Some (Some {| value := Fin (- ln (Rmax 0.95 (1 / 10000))
                                     - ln (Rmax 0.9 (1 / 10000)))%R;
                       grad := false |})
    /\ component "outlier_maximizer_loss" comps <> Some None
    /\ component "unaligned_maximizer_loss" comps <> Some None.
Proof.
  rewrite (classic_forward _ 2 1) by apply scenario2_well_formed.
  unfold classic_report at 1. do 2 eexists. split; [reflexivity|].
  cbn [component List.find fst snd String.eqb Ascii.eqb Bool.eqb option_map].
  unfold scenario2_scores, scenario2_corr, scenario2_inlier, scenario2_outlier.
  rewrite classic_outlier_correspondence_scenario2,
    classic_outlier_maximizer_scenario2 by lra.
  rewrite !sigmoid_logit by lra.
  repeat split; discriminate.
Qed.

Lemma C6_witness :
  exists total comps,
    fst (OHNMBCELoss.forward_with_log_data scenario2_scores scenario2_corr
           scenario2_inlier scenario2_outlier OHNMBCELoss.init_weights)
    = Ok (total, comps)
    /\ component "outlier_correspondence_loss" comps
       = Some (Some {| value := Fin (torch.bce_with_logits (logit 0.95) 1
                                     + torch.bce_with_logits (logit 0.9) 1)%R;
                       grad := false |}).
Proof.
  apply (C6_correspondence_outlier_conventions (1 / 10000) 2 1 scenario2_scores
           scenario2_corr scenario2_inlier scenario2_outlier
           OHNMBCELoss.init_weights 0 0 0 0 (logit 0.95) 0 0 (logit 0.9) true true).
  - lra.
  - apply scenario2_well_formed.
  - exact init_weights_ok.
Defined.

(** ** Batches without outlier labels *)

Lemma count_true_all_false (rows cols : nat) (f : nat -> nat -> bool) :
  (forall r j, r < rows -> j < cols -> f r j = false) ->
  count_true (tabulate2 rows cols f) = 0.
Proof.
  intros H. apply count_true_0. apply List.Forall_forall. intros b Hb.
  unfold tabulate2 in Hb. apply in_flat_map in Hb. destruct Hb as [r [Hr Hb]].
  apply in_map_iff in Hb. destruct Hb as [j [<- Hj]].
  apply in_seq in Hr. apply in_seq in Hj. apply H; lia.
Qed.

Lemma count_true_witness (l : list bool) (i : nat) :
  nth i l false = true -> count_true l <> 0.
Proof.
  intros H E. apply count_true_0 in E. rewrite List.Forall_forall in E.
  destruct (Nat.lt_ge_cases i (length l)) as [Hi|Hi].
  - rewrite (E (nth i l false)) in H by (apply nth_In; assumption). discriminate.
  - rewrite nth_overflow in H by assumption. discriminate.
Qed.

Lemma nth_all_false (l : list bool) (i : nat) :
  Forall (fun b => b = false) l -> nth i l false = false.
Proof.
  intros H. destruct (Nat.lt_ge_cases i (length l)) as [Hi|Hi].
  - rewrite List.Forall_forall in H. apply H. apply nth_In. assumption.
  - apply nth_overflow. assumption.
Qed.

Lemma diag_all_false (outlier : list bool) :
  Forall (fun b => b = false) outlier ->
  count_true (cells (torch.diag outlier)) = 0.
Proof.
  intros H. cbn [cells torch.diag]. apply count_true_all_false.
  intros r j _ _. rewrite nth_all_false by assumption. destruct (r =? j); reflexivity.
Qed.

Lemma nth_zip_with (f : bool -> bool -> bool) (a b : list bool) (i : nat) :
  i < length a -> length a = length b ->
  nth i (map (fun p => f (fst p) (snd p)) (combine a b)) false
  = f (nth i a false) (nth i b false).
Proof.
  revert b i. induction a as [|x a IH]; intros [|y b] i Hi Hlen; simpl in *;
    try lia.
  destruct i as [|i]; [reflexivity|]. apply IH; lia.
Qed.

Lemma nth_expanded_inlier (n : nat) (inlier : list bool) (r : nat) :
  r < length inlier * n ->
  nth r (expanded_inlier n inlier) false
  = (r mod n =? 0) && nth (r / n) inlier false.
Proof.
  intros Hr. unfold expanded_inlier.
  apply (nth_map_seq (fun i => (i mod n =? 0) && nth (i / n) inlier false)).
  assumption.
Qed.

Lemma nth_repeat_interleave (v : list bool) (n r : nat) :
  1 <= n -> r < length v * n ->
  nth r (torch.repeat_interleave v n) false = nth (r / n) v false.
Proof.
  intros Hn Hr. rewrite (repeat_interleave_as_map false) by assumption.
  apply (nth_map_seq (fun i => nth (i / n) v false)). assumption.
Qed.

Lemma nth_has_data (inlier outlier : list bool) (i : nat) :
  i < length inlier -> length inlier = length outlier ->
  nth i (has_data inlier outlier) false = nth i inlier false || nth i outlier false.
Proof. intros Hi Hl. unfold has_data. apply nth_zip_with; assumption. Qed.

Lemma nth_expanded_outlier (n : nat) (inlier outlier : list bool) (r : nat) :
  1 <= n -> length inlier = length outlier -> r < length inlier * n ->
  nth r (expanded_outlier n inlier outlier) false
  = (nth (r / n) inlier false || nth (r / n) outlier false)
    && negb ((r mod n =? 0) && nth (r / n) inlier false).
Proof.
  intros Hn Hl Hr. unfold expanded_outlier.
  assert (Hq : r / n < length inlier)
    by (apply Nat.Div0.div_lt_upper_bound; lia).
  rewrite nth_zip_with.
  - rewrite nth_repeat_interleave, nth_has_data
      by (rewrite ?length_has_data; assumption).
    f_equal.
    rewrite (nth_indep _ false (negb false))
      by (rewrite List.length_map, length_expanded_inlier; assumption).
    rewrite map_nth, nth_expanded_inlier by assumption. reflexivity.
  - rewrite length_repeat_interleave, length_has_data; assumption.
  - rewrite length_repeat_interleave, length_has_data, List.length_map,
      length_expanded_inlier by assumption. reflexivity.
Qed.

(** With one patch per channel and no outlier label no patch is an
    outlier patch. *)
Lemma maxima_outlier_empty_one_patch (c : nat) (inlier outlier : list bool) :
  length inlier = c -> length outlier = c ->
  Forall (fun b => b = false) outlier ->
  count_true (cells (maxima_index (expanded_outlier 1 inlier outlier) c 1)) = 0.
Proof.
  intros Hil Hol Hall. cbn [cells maxima_index]. apply count_true_all_false.
  intros r j Hr _.
  rewrite nth_expanded_outlier by lia.
  rewrite Nat.mod_1_r, Nat.div_1_r, (nth_all_false outlier) by assumption.
  destruct (nth r inlier false); reflexivity.
Qed.

(** With at least two patches per channel the other patches of an inlier
    channel are outlier patches. *)
Lemma maxima_outlier_present (c n : nat) (inlier outlier : list bool) (i : nat) :
  2 <= n -> length inlier = c -> length outlier = c ->
  nth i inlier false = true ->
  count_true (cells (maxima_index (expanded_outlier n inlier outlier) c n)) <> 0.
Proof.
  intros Hn Hil Hol Hi.
  assert (Hic : i < c).
  { destruct (Nat.lt_ge_cases i c) as [H|H]; [assumption|].
    rewrite nth_overflow in Hi by lia. discriminate. }
  assert (Hdiv : (i * n + 1) / n = i).
  { rewrite Nat.div_add_l by lia. rewrite Nat.div_small by lia. lia. }
  assert (Hmod : (i * n + 1) mod n = 1).
  { rewrite Nat.add_comm, Nat.Div0.mod_add. apply Nat.mod_small. lia. }
  apply (count_true_witness _ ((i * n + 1) * c + i)).
  cbn [cells maxima_index]. rewrite nth_tabulate2 by nia.
  rewrite nth_expanded_outlier by (try lia; nia).
  rewrite Hdiv, Hmod, Hi, Nat.eqb_refl. reflexivity.
Qed.

(** C7 (amended): when no channel is labelled an outlier, both variants
    report the correspondence-outlier term as absent and their results do
    not depend on the correspondence scores.  With one patch per channel
    Variant A's outlier-maximizer term is absent too and its total is
    accumulated from the inlier and unaligned terms alone; with two or more
    patches per channel the remaining patches of every inlier channel are
    outlier patches, so the term is present as soon as one channel is an
    inlier. *)
Theorem C7_no_outlier_labels
    (epsilon : R) (c n : nat) (m k k' : tensor4) (inlier outlier : list bool)
    (ws : gmap string num) :
  well_formed_input c n m k inlier outlier ->
  well_formed_input c n m k' inlier outlier ->
  weights_ok ws ->
  Forall (fun b => b = false) outlier ->
  (exists total comps,
      OHNMClassicImipLoss.forward_with_log_data epsilon m k inlier outlier
      = Ok (total, comps)
      /\ OHNMClassicImipLoss.forward_with_log_data epsilon m k' inlier outlier
         = Ok (total, comps)
      /\ component "outlier_correspondence_loss" comps = Some None
      /\ (n = 1 ->
          component "outlier_maximizer_loss" comps = Some None
          /\ exists t3 t4,
               total = fold_left OHNMClassicImipLoss._add_if_not_none
                                 [t3; Some t4] zeros_tracked
               /\ component "inlier_maximizer_loss" comps
                  = Some (option_map detach t3)
               /\ component "unaligned_maximizer_loss" comps
                  = Some (Some (detach t4)))
      /\ (2 <= n -> (exists i, nth i inlier false = true) ->
          component "outlier_maximizer_loss" comps <> Some None))
  /\ (exists total comps,
         fst (OHNMBCELoss.forward_with_log_data m k inlier outlier ws)
         = Ok (total, comps)
         /\ fst (OHNMBCELoss.forward_with_log_data m k' inlier outlier ws)
            = Ok (total, comps)
         /\ component "outlier_correspondence_loss" comps = Some None).
Proof.
  intros Hwf Hwf' Hws Hall.
  pose proof (diag_all_false outlier Hall) as Hdiag.
  split.
  - rewrite (classic_forward _ c n m k) by assumption.
    rewrite (classic_forward _ c n m k') by assumption.
    rewrite (proj2 (classic_outlier_correspondence_absent c n m k inlier outlier
                      Hwf epsilon) Hdiag).
    rewrite (proj2 (classic_outlier_correspondence_absent c n m k' inlier outlier
                      Hwf' epsilon) Hdiag).
    unfold classic_report at 1. do 2 eexists. split; [reflexivity|].
    split; [reflexivity|].
    cbn [component List.find fst snd String.eqb Ascii.eqb Bool.eqb option_map
         OHNMClassicImipLoss._detach_if_not_none].
    split; [reflexivity|]. split.
    + intros ->.
      assert (E : classic_outlier_maximizer epsilon m c 1 inlier outlier = None).
      { apply classic_outlier_maximizer_absent.
        destruct Hwf. apply maxima_outlier_empty_one_patch; assumption. }
      rewrite E. split; [reflexivity|].
      exists (classic_inlier epsilon m c 1 inlier), (classic_unaligned m c 1 inlier).
      cbn [fold_left OHNMClassicImipLoss._add_if_not_none].
      repeat split.
    + intros Hn [i Hi] E.
      assert (E' : classic_outlier_maximizer epsilon m c n inlier outlier = None).
      { destruct (classic_outlier_maximizer epsilon m c n inlier outlier);
          [discriminate|reflexivity]. }
      apply classic_outlier_maximizer_absent in E'.
      destruct Hwf as [_ _ _ _ _ _ _ _ _ _ _ _ Hil Hol _].
      exact (maxima_outlier_present c n inlier outlier i Hn Hil Hol Hi E').
  - rewrite (bce_forward c n m k) by assumption.
    rewrite (bce_forward c n m k') by assumption.
    rewrite (proj2 (bce_outlier_correspondence_absent c n m k inlier outlier Hwf)
                   Hdiag).
    rewrite (proj2 (bce_outlier_correspondence_absent c n m k' inlier outlier Hwf')
                   Hdiag).
    cbn [fst]. unfold bce_report at 1. do 2 eexists. split; [reflexivity|].
    split; reflexivity.
Qed.

Lemma C7_witness :
  exists total comps,
    OHNMClassicImipLoss.forward_with_log_data (1 / 10000) scenario3_scores
      scenario3_corr scenario3_inlier scenario3_outlier
    = Ok (total, comps)
    /\ component "outlier_correspondence_loss" comps = Some None
    /\ component "outlier_maximizer_loss" comps = Some None.
Proof.
  destruct (C7_no_outlier_labels (1 / 10000) 3 1 scenario3_scores scenario3_corr
              scenario3_corr scenario3_inlier scenario3_outlier
              OHNMBCELoss.init_weights scenario3_well_formed
              scenario3_well_formed init_weights_ok)
    as [[total [comps [H1 [_ [H2 [H3 _]]]]]] _].
  - repeat constructor.
  - exists total, comps. split; [exact H1|]. split; [exact H2|].
    apply H3. reflexivity.
Defined.

Lemma classic_unaligned_scenario1 (x00 x01 x10 x11 x20 x21 x30 x31 : R) (g : bool) :
  classic_unaligned (scores_4x2 x00 x01 x10 x11 x20 x21 x30 x31 g) 2 2 [true; true]
  = {| value := Fin (torch.sigmoid x01 + (torch.sigmoid x20 + 0))%R; grad := g |}.
Proof. reflexivity. Qed.

Lemma scenario1_changed_well_formed :
  well_formed_input 2 2 scenario1_scores_changed scenario1_corr scenario1_inlier
    scenario1_outlier.
Proof.
  constructor; try reflexivity; cbn; try lia.
  intros [|[|[|i]]]; reflexivity.
Qed.

(** Scenario 1 has no outlier label, yet its outlier-maximizer term is
    present, and changing the score of row 1 alone changes the total. *)
Lemma C7_counterexample :
  Forall (fun b => b = false) scenario1_outlier
  /\ exists total comps total' comps',
       OHNMClassicImipLoss.forward_with_log_data (1 / 10000) scenario1_scores
         scenario1_corr scenario1_inlier scenario1_outlier
       = Ok (total, comps)
       /\ OHNMClassicImipLoss.forward_with_log_data (1 / 10000)
            scenario1_scores_changed scenario1_corr scenario1_inlier
            scenario1_outlier
          = Ok (total', comps')
       /\ component "outlier_maximizer_loss" comps <> Some None
       /\ value total <> value total'.
Proof.
  split; [repeat constructor|].
  rewrite (classic_forward _ 2 2 scenario1_scores) by exact scenario1_well_formed.
  rewrite (classic_forward _ 2 2 scenario1_scores_changed)
    by exact scenario1_changed_well_formed.
  unfold classic_report. do 4 eexists. split; [reflexivity|]. split; [reflexivity|].
  cbn [component List.find fst snd String.eqb Ascii.eqb Bool.eqb option_map].
  unfold scenario1_scores, scenario1_scores_changed, scenario1_inlier,
    scenario1_outlier.
  rewrite !classic_outlier_maximizer_scenario1, !classic_inlier_scenario1,
    !classic_unaligned_scenario1 by lra.
  rewrite !classic_outlier_correspondence_scenario1 by reflexivity.
  split; [discriminate|].
  cbn [OHNMClassicImipLoss._add_if_not_none sadd value grad zeros_tracked nadd nlift2].
  rewrite !sigmoid_logit, !sigmoid_0 by lra.
  rewrite !Rmax_left by lra.
  intros H. injection H as H.
  assert (ln (1 - 1 / 2) < ln (1 - 0.1))%R by (apply ln_increasing; lra).
  lra.
Qed.

(** * Further properties of the two loss functions *)

(** ** Exceptions *)


Lemma shape_at_error (t : tensor) (i : nat) (e : exn) :
  torch.shape_at t i = Raise e -> e = IndexError.
Proof. unfold torch.shape_at. destruct (nth_error _ _); congruence. Qed.

Lemma arange_error (a b : nat) (e : exn) :
  torch.arange a b = Raise e -> e = RuntimeError.
Proof. unfold torch.arange. destruct (_ =? _); congruence. Qed.

Lemma index_put_error (d : list bool) (i : list nat) (s : list bool) (e : exn) :
  torch.index_put d i s = Raise e -> benign e.
Proof.
  unfold torch.index_put, benign.
  destruct (negb _); [intros H; injection H as <-; auto|].
  destruct (negb _); [intros H; injection H as <-; auto|congruence].
Qed.

Lemma bitwise_error (f : bool -> bool -> bool) (a b : list bool) (e : exn) :
  torch.bitwise f a b = Raise e -> e = RuntimeError.
Proof.
  unfold torch.bitwise. repeat (destruct (_ =? _); [congruence|]). congruence.
Qed.

Lemma column_times_error (v : list bool) (m : mask) (e : exn) :
  torch.column_times v m = Raise e -> e = RuntimeError.
Proof. unfold torch.column_times. destruct (_ || _); congruence. Qed.

Lemma xor_column_error (m : mask) (v : list bool) (e : exn) :
  torch.xor_column m v = Raise e -> e = RuntimeError.
Proof. unfold torch.xor_column. destruct (_ || _); congruence. Qed.

Lemma index_rows_error (t : tensor) (idx : list nat) (e : exn) :
  torch.index_rows t idx = Raise e -> e = IndexError.
Proof.
  unfold torch.index_rows.
  destruct (shape t) as [|b [|c [|? ?]]]; try congruence.
  destruct (forallb _ _); congruence.
Qed.

Lemma masked_select1_error {A : Type} (v : list A) (m : list bool) (e : exn) :
  torch.masked_select1 v m = Raise e -> e = IndexError.
Proof. unfold torch.masked_select1. destruct (_ =? _); congruence. Qed.

Lemma py_floordiv_error (a b : nat) (e : exn) :
  py_floordiv a b = Raise e -> e = ZeroDivisionError /\ b = 0.
Proof.
  unfold py_floordiv. destruct (Nat.eqb_spec b 0); [|congruence].
  intros H. injection H as <-. auto.
Qed.

(** After the centre extraction and the squeeze, a second dimension, when
    there is one, is the channel dimension. *)
Lemma squeezed_channels (m : tensor4) (t : tensor) (c : nat) :
  dim2 m = dim3 m ->
  center_values (of_tensor4 m) = Ok t ->
  torch.shape_at (torch.squeeze t) 1 = Ok c -> c = dim1 m.
Proof.
  destruct m as [b ch h w d g]. cbn [dim0 dim1 dim2 dim3]. intros <-.
  unfold center_values, torch.shape_at, torch.index_center, of_tensor4.
  cbn [shape nth_error rbind data requires_grad dim0 dim1 dim2 dim3 data4 requires_grad4].
  destruct (h =? 1) eqn:E.
  - apply Nat.eqb_eq in E. subst h. intros H. injection H as <-.
    unfold torch.squeeze. cbn [shape List.filter Nat.eqb negb].
    destruct (b =? 1), (ch =? 1) eqn:Ec; cbn [negb nth_error]; congruence.
  - destruct (py_index _ h) as [y|e1]; cbn [rbind]; [|congruence].
    intros H. injection H as <-.
    unfold torch.squeeze. cbn [shape List.filter Nat.eqb negb].
    destruct (b =? 1), (ch =? 1) eqn:Ec; cbn [negb nth_error]; congruence.
Qed.

Create HintDb errs.
#[local] Hint Unfold benign : errs.
#[local] Hint Resolve shape_at_error arange_error bitwise_error column_times_error
  xor_column_error index_rows_error masked_select1_error center_values_error
  masked_select_error : errs.

Lemma benign_of (e e' : exn) : e = e' -> benign e' -> benign e.
Proof. intros ->. auto. Qed.

Lemma classic_raises (epsilon : R) (m k : tensor4) (inlier outlier : list bool)
    (e : exn) :
  OHNMClassicImipLoss.forward_with_log_data epsilon m k inlier outlier = Raise e ->
  (e = ZeroDivisionError /\ dim1 m = 0)
  \/ (e = AssertionError /\ dim1 m <> 0
      /\ (dim0 m mod dim1 m <> 0 \/ dim2 m <> dim3 m))
  \/ (benign e /\ dim1 m <> 0 /\ dim0 m mod dim1 m = 0 /\ dim2 m = dim3 m).
Proof.
  unfold OHNMClassicImipLoss.forward_with_log_data, py_mod.
  destruct (Nat.eqb_spec (dim1 m) 0) as [Hc|Hc]; cbn [rbind].
  { intros H. injection H as <-. left. auto. }
  unfold py_assert.
  destruct (Nat.eqb_spec (dim0 m mod dim1 m) 0) as [Hm|Hm]; cbn [rbind].
  2: { intros H. injection H as <-. right. left. auto. }
  destruct (Nat.eqb_spec (dim2 m) (dim3 m)) as [Hs|Hs]; cbn [rbind].
  2: { intros H. injection H as <-. right. left. auto. }
  intros H. right. right. split; [|auto].
  revert H.
  repeat
    (cbv beta zeta;
     match goal with
     | |- rbind ?x _ = Raise _ -> _ =>
         let E := fresh "E" in
         destruct x eqn:E; cbn [rbind];
         [|let H := fresh in intros H; injection H as <-]
     end).
  all: try (unfold benign; first [ left; eauto with errs; fail
                                  | right; eauto with errs; fail ]).
  all: try (eapply index_put_error; eassumption).
  all: try match goal with
         | Hd : py_floordiv _ _ = Raise _,
           Hm : center_values (of_tensor4 _) = Ok _,
           Hc' : torch.shape_at _ 1 = Ok _ |- _ =>
             apply py_floordiv_error in Hd; destruct Hd as [_ ->];
             apply (squeezed_channels _ _ _ Hs Hm) in Hc'; congruence
         | Hi : (if _ then _ else _) = Raise _ |- _ =>
             right; revert Hi; repeat destruct (_ =? _); cbn [andb]; congruence
         end.
  all: discriminate.
Qed.

(** X1: the exceptions of Variant A.  A call fails with a
    [ZeroDivisionError] exactly when the score tensor has no channel
    (the first assertion divides by the channel count), with an
    [AssertionError] exactly when there is a channel and the batch size is
    no multiple of the channel count or the footprint is not square; any
    other failure is an [IndexError] or a [RuntimeError] of a tensor
    operation. *)
Theorem X1_classic_exceptions (epsilon : R) (m k : tensor4)
    (inlier outlier : list bool) :
  (OHNMClassicImipLoss.forward_with_log_data epsilon m k inlier outlier
   = Raise ZeroDivisionError <-> dim1 m = 0)
  /\ (OHNMClassicImipLoss.forward_with_log_data epsilon m k inlier outlier
      = Raise AssertionError
      <-> dim1 m <> 0 /\ (dim0 m mod dim1 m <> 0 \/ dim2 m <> dim3 m))
  /\ (forall e,
        OHNMClassicImipLoss.forward_with_log_data epsilon m k inlier outlier
        = Raise e ->
        e = ZeroDivisionError \/ e = AssertionError \/ e = IndexError
        \/ e = RuntimeError).
Proof.
  split; [|split].
  - split.
    + intros H. apply classic_raises in H.
      destruct H as [[_ H]|[[H _]|[[H|H] _]]]; [assumption|discriminate..].
    + intros H. unfold OHNMClassicImipLoss.forward_with_log_data, py_mod.
      rewrite H. reflexivity.
  - split.
    + intros H. apply classic_raises in H.
      destruct H as [[H _]|[[_ H]|[[H|H] _]]]; [discriminate|assumption|discriminate..].
    + intros [Hc H]. unfold OHNMClassicImipLoss.forward_with_log_data, py_mod.
      apply Nat.eqb_neq in Hc. rewrite Hc. cbn [rbind]. unfold py_assert.
      destruct (Nat.eqb_spec (dim0 m mod dim1 m) 0) as [Hm|Hm]; [|reflexivity].
      cbn [rbind].
      destruct (Nat.eqb_spec (dim2 m) (dim3 m)) as [Hs|Hs]; [|reflexivity].
      destruct H; contradiction.
  - intros e H. apply classic_raises in H. unfold benign in H.
    destruct H as [[H _]|[[H _]|[[H|H] _]]]; auto.
Qed.

Lemma bce_error (i t : list R) (w : option (list num)) (e : exn) :
  torch.binary_cross_entropy_with_logits i t w = Raise e ->
  e = ValueError \/ e = RuntimeError.
Proof.
  unfold torch.binary_cross_entropy_with_logits.
  destruct (negb _); [intros H; injection H as <-; auto|].
  destruct w as [w|]; [|congruence].
  destruct (_ =? _); [congruence|]. intros H; injection H as <-; auto.
Qed.

Ltac error_kind H :=
  first [ apply center_values_error in H
        | apply masked_select_error in H
        | apply shape_at_error in H
        | apply arange_error in H
        | apply bitwise_error in H
        | apply column_times_error in H
        | apply xor_column_error in H
        | apply index_rows_error in H
        | apply masked_select1_error in H
        | apply index_put_error in H; destruct H
        | apply bce_error in H; destruct H ];
  subst; auto.

Lemma bce_raises (m k : tensor4) (inlier outlier : list bool)
    (ws : gmap string num) (e : exn) :
  weights_ok ws ->
  fst (OHNMBCELoss.forward_with_log_data m k inlier outlier ws) = Raise e ->
  (e = ZeroDivisionError /\ dim1 m = 0)
  \/ (e = AssertionError /\ dim1 m <> 0
      /\ (dim0 m mod dim1 m <> 0 \/ dim2 m <> dim3 m))
  \/ ((e = IndexError \/ e = RuntimeError \/ e = ValueError)
      /\ dim1 m <> 0 /\ dim0 m mod dim1 m = 0 /\ dim2 m = dim3 m).
Proof.
  intros Hws.
  unfold OHNMBCELoss.forward_with_log_data, sbind, lift, sret, py_mod.
  destruct (Nat.eqb_spec (dim1 m) 0) as [Hc|Hc].
  { intros H. injection H as <-. left. auto. }
  unfold py_assert.
  destruct (Nat.eqb_spec (dim0 m mod dim1 m) 0) as [Hm|Hm].
  2: { intros H. injection H as <-. right. left. auto. }
  destruct (Nat.eqb_spec (dim2 m) (dim3 m)) as [Hs|Hs].
  2: { intros H. injection H as <-. right. left. auto. }
  intros H. right. right. split; [|auto].
  revert H.
  repeat
    (cbv beta iota zeta;
     rewrite ?(get_weight_ok _ ws Hws);
     match goal with
     | |- context [match ?x with Ok _ => _ | Raise _ => _ end] =>
         lazymatch x with
         | context [match _ with Ok _ => _ | Raise _ => _ end] => fail
         | _ => let E := fresh "E" in destruct x eqn:E
         end
     | |- context [if ?b then _ else _] =>
         lazymatch b with
         | context [match _ with Ok _ => _ | Raise _ => _ end] => fail
         | _ => destruct b eqn:?
         end
     end).
  all: cbv beta iota zeta; rewrite ?(get_weight_ok _ ws Hws); cbv beta iota zeta;
    cbn [fst]; try discriminate.
  all: let H := fresh in intros H; injection H as <-.
  all: try match goal with
         | Hd : py_floordiv _ _ = Raise _,
           Hm : center_values (of_tensor4 _) = Ok _,
           Hc' : torch.shape_at _ 1 = Ok _ |- _ =>
             apply py_floordiv_error in Hd; destruct Hd as [_ ->];
             apply (squeezed_channels _ _ _ Hs Hm) in Hc'; congruence
         end.
  all: match goal with
       | H : _ = Raise ?e |- ?e = _ \/ _ => error_kind H
       end.
Qed.

(** X2: the exceptions of Variant B on an instance's dictionary.  As for
    Variant A, a [ZeroDivisionError] means no channel and an
    [AssertionError] a batch size that is no multiple of the channel count
    or a footprint that is not square, and both leave the dictionary as it
    was; the weight lookup never fails with a [KeyError]. *)
Theorem X2_bce_exceptions (m k : tensor4) (inlier outlier : list bool)
    (ws : gmap string num) :
  weights_ok ws ->
  (OHNMBCELoss.forward_with_log_data m k inlier outlier ws
   = (Raise ZeroDivisionError, ws) <-> dim1 m = 0)
  /\ (OHNMBCELoss.forward_with_log_data m k inlier outlier ws
      = (Raise AssertionError, ws)
      <-> dim1 m <> 0 /\ (dim0 m mod dim1 m <> 0 \/ dim2 m <> dim3 m))
  /\ (forall e,
        fst (OHNMBCELoss.forward_with_log_data m k inlier outlier ws) = Raise e ->
        e <> KeyError).
Proof.
  intros Hws. split; [|split].
  - split.
    + intros H. apply (f_equal fst) in H. cbn [fst] in H.
      apply bce_raises in H; [|assumption].
      destruct H as [[_ H]|[[H _]|[[H|[H|H]] _]]]; [assumption|discriminate..].
    + intros H. unfold OHNMBCELoss.forward_with_log_data, sbind, lift, py_mod.
      rewrite H. reflexivity.
  - split.
    + intros H. apply (f_equal fst) in H. cbn [fst] in H.
      apply bce_raises in H; [|assumption].
      destruct H as [[H _]|[[_ H]|[[H|[H|H]] _]]];
        [discriminate|assumption|discriminate..].
    + intros [Hc H].
      unfold OHNMBCELoss.forward_with_log_data, sbind, lift, py_mod.
      apply Nat.eqb_neq in Hc. rewrite Hc. unfold py_assert.
      destruct (Nat.eqb_spec (dim0 m mod dim1 m) 0) as [Hm|Hm]; [|reflexivity].
      destruct (Nat.eqb_spec (dim2 m) (dim3 m)) as [Hs|Hs]; [|reflexivity].
      destruct H; contradiction.
  - intros e H. apply bce_raises in H; [|assumption].
    destruct H as [[-> _]|[[-> _]|[[ -> | [ -> | -> ]] _]]]; discriminate.
Qed.

Lemma X2_bce_exceptions_witness :
  OHNMBCELoss.forward_with_log_data uneven_scores example_scores example_inlier
    example_outlier OHNMBCELoss.init_weights
  = (Raise AssertionError, OHNMBCELoss.init_weights).
Proof.
  destruct (X2_bce_exceptions uneven_scores example_scores example_inlier
              example_outlier OHNMBCELoss.init_weights init_weights_ok)
    as [_ [H _]].
  apply H. split; [cbn; lia|left; cbn; lia].
Defined.

Lemma well_formed_scores_of (c n : nat) (m k : tensor4) (inlier outlier : list bool) :
  well_formed_input c n m k inlier outlier -> well_formed_scores c n m k.
Proof. intros []. constructor; assumption. Qed.

Lemma masked_select_mismatch (t : tensor) (m : mask) (b c : nat) :
  shape t = [b; c] -> mrows m <> b ->
  torch.masked_select t m = Raise IndexError.
Proof.
  intros Hs Hr. unfold torch.masked_select. rewrite Hs.
  destruct (Nat.eqb_spec b (mrows m)); [congruence|reflexivity].
Qed.

Lemma index_put_mismatch (inlier : list bool) (c n : nat) :
  2 <= c -> 1 <= n -> length inlier <> c ->
  exists e, torch.index_put (repeat false (length inlier * n))
                            (map (fun k => k * n) (seq 0 c)) inlier = Raise e
            /\ (e = IndexError \/ e = RuntimeError).
Proof.
  intros Hc Hn Hl. unfold torch.index_put.
  rewrite List.length_map, List.length_seq.
  destruct (Nat.eqb_spec (length inlier) c) as [|_]; [contradiction|].
  destruct (Nat.eqb_spec (length inlier) 1) as [H1|H1]; cbn [orb negb].
  - rewrite H1, repeat_length.
    destruct c as [|[|c]]; try lia.
    cbn [seq map forallb]. rewrite Nat.mul_0_l.
    replace (1 * n <? 1 * n) with false by (symmetry; apply Nat.ltb_irrefl).
    cbn [andb]. rewrite andb_false_r. cbn [negb]. eauto.
  - eauto.
Qed.

(** X3: label vectors whose length is not the channel count are rejected:
    on score tensors that satisfy the preconditions, both variants fail
    with an [IndexError] or a [RuntimeError] and return no loss; Variant B's
    dictionary is left as it was. *)
Theorem X3_label_length_mismatch
    (epsilon : R) (c n : nat) (m k : tensor4) (inlier outlier : list bool)
    (ws : gmap string num) :
  well_formed_scores c n m k ->
  length inlier <> c \/ length outlier <> c ->
  (exists e,
      OHNMClassicImipLoss.forward_with_log_data epsilon m k inlier outlier = Raise e
      /\ (e = IndexError \/ e = RuntimeError))
  /\ (exists e,
         OHNMBCELoss.forward_with_log_data m k inlier outlier ws = (Raise e, ws)
         /\ (e = IndexError \/ e = RuntimeError)).
Proof.
  intros [Hc Hn Hrows Hcols Hsq Hside Hst Hkr Hkc Hksq Hkside Hkst] Hlen.
  assert (Hmod : (c * n) mod c = 0)
    by (rewrite Nat.mul_comm; apply Nat.Div0.mod_mul).
  assert (Hdiv : (c * n) / c = n)
    by (rewrite Nat.mul_comm; apply Nat.div_mul; lia).
  assert (Hc0 : (c =? 0) = false) by (apply Nat.eqb_neq; lia).
  split.
  - unfold OHNMClassicImipLoss.forward_with_log_data.
    rewrite Hrows, Hcols. unfold py_mod. rewrite Hc0. cbn [rbind].
    rewrite Hmod. cbn [Nat.eqb py_assert rbind].
    rewrite Hsq, Nat.eqb_refl. cbn [rbind].
    rewrite !center_values_ok by (assumption || lia). cbn [rbind].
    rewrite (decoded_scores m (c * n) c) by (assumption || nia).
    rewrite (decoded_scores k c c) by (assumption || nia).
    unfold torch.sigmoid_. cbn [shape data requires_grad].
    destruct (Nat.eq_dec (length outlier) c) as [Hol|Hol].
    + destruct Hlen as [Hil|Hol']; [|contradiction].
      rewrite (masked_select_2d _ _ c c) by (reflexivity || exact Hol).
      cbn [data rbind torch.shape_at shape nth_error].
      unfold py_floordiv. rewrite Hc0, Hdiv. cbn [rbind].
      rewrite arange_blocks by assumption. cbn [rbind].
      destruct (index_put_mismatch inlier c n Hc Hn Hil) as [e [-> He]].
      cbn [rbind]. eauto.
    + rewrite (masked_select_mismatch _ _ c c) by (reflexivity || exact Hol).
      cbn [rbind]. eauto.
  - unfold OHNMBCELoss.forward_with_log_data, sbind, lift, sret.
    rewrite Hrows, Hcols. unfold py_mod. rewrite Hc0, Hmod.
    cbn [Nat.eqb py_assert]. rewrite Hsq, Nat.eqb_refl. cbn [py_assert].
    rewrite !center_values_ok by (assumption || lia).
    rewrite (decoded_scores m (c * n) c) by (assumption || nia).
    rewrite (decoded_scores k c c) by (assumption || nia).
    destruct (Nat.eq_dec (length outlier) c) as [Hol|Hol].
    + destruct Hlen as [Hil|Hol']; [|contradiction].
      rewrite (masked_select_2d _ _ c c) by (reflexivity || exact Hol).
      cbn [data torch.shape_at shape nth_error].
      unfold py_floordiv. rewrite Hc0, Hdiv.
      rewrite arange_blocks by assumption.
      destruct (index_put_mismatch inlier c n Hc Hn Hil) as [e [He1 He]].
      exists e. split; [|assumption].
      destruct (length _ =? 0).
      * cbv beta iota. rewrite He1. reflexivity.
      * rewrite bce_plain_ok by (rewrite List.length_map; reflexivity).
        cbv beta iota. rewrite He1. reflexivity.
    + rewrite (masked_select_mismatch _ _ c c) by (reflexivity || exact Hol).
      eauto.
Qed.

Lemma X3_label_length_mismatch_witness :
  (exists e,
      OHNMClassicImipLoss.forward_with_log_data (1 / 10000) example_scores
        example_scores [true] example_outlier = Raise e
      /\ (e = IndexError \/ e = RuntimeError))
  /\ (exists e,
         OHNMBCELoss.forward_with_log_data example_scores example_scores [true]
           example_outlier OHNMBCELoss.init_weights
         = (Raise e, OHNMBCELoss.init_weights)
         /\ (e = IndexError \/ e = RuntimeError)).
Proof.
  apply (X3_label_length_mismatch (1 / 10000) 2 1 example_scores example_scores
           [true] example_outlier OHNMBCELoss.init_weights).
  - apply (well_formed_scores_of 2 1 _ _ _ _ example_well_formed).
  - left. cbn. lia.
Defined.

(** ** The centre of the footprint *)

Lemma centered_center_only (t : tensor4) : centered (center_only t) = centered t.
Proof. reflexivity. Qed.

Lemma center_only_well_formed (c n : nat) (m k : tensor4) (inlier outlier : list bool) :
  well_formed_input c n m k inlier outlier ->
  well_formed_input c n (center_only m) (center_only k) inlier outlier.
Proof.
  intros [Hc Hn Hrows Hcols Hsq Hside Hst Hkr Hkc Hksq Hkside Hkst Hil Hol Hd].
  constructor; try assumption; try reflexivity; cbn [center_only dim2]; try lia.
  - unfold well_stored. cbn [center_only data4 dim0 dim1 dim2 dim3].
    rewrite length_centered by assumption. lia.
  - unfold well_stored. cbn [center_only data4 dim0 dim1 dim2 dim3].
    rewrite length_centered by assumption. lia.
Qed.

Lemma centered_nth (t : tensor4) (i : nat) :
  well_stored t -> dim2 t = dim3 t -> i < dim0 t * dim1 t ->
  nth i (centered t) 0%R
  = nth ((i * dim2 t + (dim2 t - 1) / 2) * dim3 t + (dim2 t - 1) / 2) (data4 t) 0%R.
Proof.
  intros Hst Hsq Hi. unfold centered.
  destruct (Nat.eqb_spec (dim2 t) 1) as [E|E].
  - rewrite <- Hsq, E. change ((1 - 1) / 2) with 0. f_equal. lia.
  - rewrite (nth_map_seq (fun k => nth ((k * dim2 t + (dim2 t - 1) / 2) * dim3 t
                                           + (dim2 t - 1) / 2) (data4 t) 0%R))
      by assumption.
    reflexivity.
Qed.

(** X4: both variants read a score tensor only at the centre of each
    footprint: on HxW footprints the call returns what it returns on the
    1x1 tensor of the values at row and column (H - 1) // 2 (the centre
    for odd H, the upper left of the four central cells for even H). *)
Theorem X4_center_values_only
    (epsilon : R) (c n : nat) (m k : tensor4) (inlier outlier : list bool)
    (ws : gmap string num) :
  well_formed_input c n m k inlier outlier -> weights_ok ws ->
  OHNMClassicImipLoss.forward_with_log_data epsilon m k inlier outlier
  = OHNMClassicImipLoss.forward_with_log_data epsilon (center_only m)
      (center_only k) inlier outlier
  /\ OHNMBCELoss.forward_with_log_data m k inlier outlier ws
     = OHNMBCELoss.forward_with_log_data (center_only m) (center_only k)
         inlier outlier ws
  /\ (forall i, i < dim0 m * dim1 m ->
        nth i (data4 (center_only m)) 0%R
        = nth ((i * dim2 m + (dim2 m - 1) / 2) * dim3 m + (dim2 m - 1) / 2)
              (data4 m) 0%R).
Proof.
  intros Hwf Hws.
  pose proof (center_only_well_formed c n m k inlier outlier Hwf) as Hwf'.
  split; [|split].
  - rewrite (classic_forward epsilon c n m k) by assumption.
    rewrite (classic_forward epsilon c n (center_only m) (center_only k))
      by assumption.
    reflexivity.
  - rewrite (bce_forward c n m k) by assumption.
    rewrite (bce_forward c n (center_only m) (center_only k)) by assumption.
    reflexivity.
  - intros i Hi. cbn [center_only data4].
    destruct Hwf. apply centered_nth; assumption.
Qed.

Lemma wide_well_formed :
  well_formed_input 2 1 wide_scores wide_scores example_inlier example_outlier.
Proof.
  constructor; try reflexivity; cbn; try lia.
  intros [|[|[|i]]]; reflexivity.
Qed.

Lemma X4_center_values_only_witness :
  OHNMClassicImipLoss.forward_with_log_data (1 / 10000) wide_scores wide_scores
    example_inlier example_outlier
  = OHNMClassicImipLoss.forward_with_log_data (1 / 10000) example_scores
      example_scores example_inlier example_outlier
  /\ OHNMBCELoss.forward_with_log_data wide_scores wide_scores example_inlier
       example_outlier OHNMBCELoss.init_weights
     = OHNMBCELoss.forward_with_log_data example_scores example_scores
         example_inlier example_outlier OHNMBCELoss.init_weights.
Proof.
  destruct (X4_center_values_only (1 / 10000) 2 1 wide_scores wide_scores
              example_inlier example_outlier OHNMBCELoss.init_weights
              wide_well_formed init_weights_ok) as [HA [HB _]].
  split; [exact HA|exact HB].
Defined.

(** ** The returned pair *)

Lemma classic_returns (epsilon : R) (m k : tensor4) (inlier outlier : list bool)
    (total : scalar) (comps : components) :
  OHNMClassicImipLoss.forward_with_log_data epsilon m k inlier outlier
  = Ok (total, comps) ->
  exists t1 t2 t3 t4, (total, comps) = classic_report t1 t2 t3 t4.
Proof.
  unfold OHNMClassicImipLoss.forward_with_log_data.
  repeat
    (cbv beta zeta;
     match goal with
     | |- rbind ?x _ = Ok _ -> _ =>
         let E := fresh "E" in
         destruct x eqn:E; cbn [rbind]; [|discriminate]
     end).
  cbv beta zeta.
  match goal with
  | |- Ok (OHNMClassicImipLoss._add_if_not_none
             (OHNMClassicImipLoss._add_if_not_none
                (OHNMClassicImipLoss._add_if_not_none
                   (OHNMClassicImipLoss._add_if_not_none _ ?t1) ?t2) ?t3)
             (Some ?t4), _) = _ -> _ =>
      let H := fresh in
      intros H; exists t1, t2, t3, t4; injection H as <- <-; reflexivity
  end.
Qed.

Lemma bce_returns (m k : tensor4) (inlier outlier : list bool)
    (ws ws' : gmap string num) (total : scalar) (comps : components) :
  OHNMBCELoss.forward_with_log_data m k inlier outlier ws
  = (Ok (total, comps), ws') ->
  exists t1 t2 t3, (total, comps) = bce_report t1 t2 t3.
Proof.
  unfold OHNMBCELoss.forward_with_log_data, sbind, lift, sret.
  repeat
    (cbv beta iota zeta;
     match goal with
     | |- context [match ?x with Ok _ => _ | Raise _ => _ end] =>
         lazymatch x with
         | context [match _ with Ok _ => _ | Raise _ => _ end] => fail
         | _ => let E := fresh "E" in destruct x eqn:E
         end
     | |- context [if ?b then _ else _] =>
         lazymatch b with
         | context [match _ with Ok _ => _ | Raise _ => _ end] => fail
         | _ => destruct b eqn:?
         end
     | |- context [OHNMBCELoss._get_bce_maxima_outlier_weight ?n ?s] =>
         destruct (OHNMBCELoss._get_bce_maxima_outlier_weight n s) as [[?|?] ?]
     end).
  all: cbv beta iota zeta; try discriminate.
  all: match goal with
       | |- (Ok (OHNMBCELoss._add_if_not_none
                   (OHNMBCELoss._add_if_not_none
                      (OHNMBCELoss._add_if_not_none _ ?t1) ?t2) ?t3, _), _) = _ -> _ =>
           let H := fresh in
           intros H; exists t1, t2, t3; injection H as <- <- _; reflexivity
       end.
Qed.

Lemma nsum_classic_terms (t1 t2 t3 : option scalar) (t4 : scalar) :
  value (fst (classic_report t1 t2 t3 t4))
  = nsum (present_values (tl (snd (classic_report t1 t2 t3 t4)))).
Proof.
  unfold classic_report, present_values. cbn [fst snd tl flat_map].
  destruct t1 as [[[v1|] g1]|], t2 as [[[v2|] g2]|], t3 as [[[v3|] g3]|],
    t4 as [[v4|] g4];
    cbn; try reflexivity; f_equal; lra.
Qed.

Lemma nsum_bce_terms (t1 t2 t3 : option scalar) :
  value (fst (bce_report t1 t2 t3))
  = nsum (present_values (tl (snd (bce_report t1 t2 t3)))).
Proof.
  unfold bce_report, present_values. cbn [fst snd tl flat_map].
  destruct t1 as [[[v1|] g1]|], t2 as [[[v2|] g2]|], t3 as [[[v3|] g3]|];
    cbn; try reflexivity; f_equal; lra.
Qed.

(** X5: the report of Variant A.  Whenever a call returns, the
    dictionary holds the five names in the order of the source, the total
    tracks gradients, the entry "loss" is the detached total, no entry
    carries a gradient, the unaligned term is always present, and the total
    is the sum of the terms that are present. *)
Theorem X5_classic_report_structure
    (epsilon : R) (m k : tensor4) (inlier outlier : list bool)
    (total : scalar) (comps : components) :
  OHNMClassicImipLoss.forward_with_log_data epsilon m k inlier outlier
  = Ok (total, comps) ->
  map fst comps
  = ["loss"; "outlier_correspondence_loss"; "outlier_maximizer_loss";
     "inlier_maximizer_loss"; "unaligned_maximizer_loss"]%string
  /\ grad total = true
  /\ component "loss" comps = Some (Some {| value := value total; grad := false |})
  /\ Forall (fun p => forall s, snd p = Some s -> grad s = false) comps
  /\ component "unaligned_maximizer_loss" comps <> Some None
  /\ value total = nsum (present_values (tl comps)).
Proof.
  intros H. apply classic_returns in H. destruct H as [t1 [t2 [t3 [t4 H]]]].
  pose proof (nsum_classic_terms t1 t2 t3 t4) as Hsum.
  rewrite <- H in Hsum. cbn [fst snd] in Hsum.
  assert (Ht : total = fst (classic_report t1 t2 t3 t4)) by (rewrite <- H; reflexivity).
  assert (Hc : comps = snd (classic_report t1 t2 t3 t4)) by (rewrite <- H; reflexivity).
  clear H. unfold classic_report in Ht, Hc. cbn [fst snd] in Ht, Hc.
  split; [subst comps; reflexivity|]. split.
  { subst total. destruct t1, t2, t3; reflexivity. }
  split; [rewrite Hc, Ht; reflexivity|]. split.
  { subst comps. repeat constructor; cbn [snd].
    all: intros s Hs;
      repeat match goal with
             | t : option scalar |- _ => destruct t; cbn in Hs
             end;
      try discriminate; injection Hs as <-; reflexivity. }
  split; [subst comps; cbn; discriminate|assumption].
Qed.

Lemma X5_classic_report_structure_witness :
  exists total comps,
    OHNMClassicImipLoss.forward_with_log_data (1 / 10000) example_scores
      example_scores example_inlier example_outlier = Ok (total, comps)
    /\ grad total = true
    /\ value total = nsum (present_values (tl comps)).
Proof.
  destruct (OHNMClassicImipLoss.forward_with_log_data (1 / 10000) example_scores
              example_scores example_inlier example_outlier)
    as [[total comps]|e] eqn:E.
  - exists total, comps.
    destruct (X5_classic_report_structure _ _ _ _ _ _ _ E) as [_ [H1 [_ [_ [_ H2]]]]].
    auto.
  - rewrite (classic_forward _ 2 1 _ _ _ _ example_well_formed) in E. discriminate.
Defined.

(** X6: the report of Variant B.  Whenever a call returns, the
    dictionary holds the four names in the order of the source, the total
    tracks gradients, the entry "loss" is the detached total, no entry
    carries a gradient, and the total is the sum of the terms that are
    present. *)
Theorem X6_bce_report_structure
    (m k : tensor4) (inlier outlier : list bool) (ws ws' : gmap string num)
    (total : scalar) (comps : components) :
  OHNMBCELoss.forward_with_log_data m k inlier outlier ws
  = (Ok (total, comps), ws') ->
  map fst comps
  = ["loss"; "bce_maximizer_loss"; "outlier_correspondence_loss";
     "unaligned_maximizer_loss"]%string
  /\ grad total = true
  /\ component "loss" comps = Some (Some {| value := value total; grad := false |})
  /\ Forall (fun p => forall s, snd p = Some s -> grad s = false) comps
  /\ value total = nsum (present_values (tl comps)).
Proof.
  intros H. apply bce_returns in H. destruct H as [t1 [t2 [t3 H]]].
  pose proof (nsum_bce_terms t1 t2 t3) as Hsum.
  rewrite <- H in Hsum. cbn [fst snd] in Hsum.
  assert (Ht : total = fst (bce_report t1 t2 t3)) by (rewrite <- H; reflexivity).
  assert (Hc : comps = snd (bce_report t1 t2 t3)) by (rewrite <- H; reflexivity).
  clear H. unfold bce_report in Ht, Hc. cbn [fst snd] in Ht, Hc.
  split; [subst comps; reflexivity|]. split.
  { subst total. destruct t1, t2, t3; reflexivity. }
  split; [rewrite Hc, Ht; reflexivity|]. split.
  { subst comps. repeat constructor; cbn [snd].
    all: intros s Hs;
      repeat match goal with
             | t : option scalar |- _ => destruct t; cbn in Hs
             end;
      try discriminate; injection Hs as <-; reflexivity. }
  assumption.
Qed.

Lemma X6_bce_report_structure_witness :
  exists total comps ws',
    OHNMBCELoss.forward_with_log_data example_scores example_scores example_inlier
      example_outlier OHNMBCELoss.init_weights = (Ok (total, comps), ws')
    /\ grad total = true
    /\ value total = nsum (present_values (tl comps)).
Proof.
  destruct (OHNMBCELoss.forward_with_log_data example_scores example_scores
              example_inlier example_outlier OHNMBCELoss.init_weights)
    as [[[total comps]|e] ws'] eqn:E.
  - exists total, comps, ws'.
    destruct (X6_bce_report_structure _ _ _ _ _ _ _ _ E) as [_ [H1 [_ [_ H2]]]].
    auto.
  - rewrite (bce_forward 2 1 _ _ _ _ _ example_well_formed init_weights_ok) in E.
    discriminate.
Defined.

(** ** The terms for every number of channels and patches *)

Lemma select_map_seq {A : Type} (d : A) (g : nat -> bool) (cols : nat) (row : list A) :
  cols <= length row ->
  torch.select_blocks 1 (map g (seq 0 cols)) row
  = map (fun j => nth j row d) (List.filter g (seq 0 cols)).
Proof.
  induction cols as [|k IH]; intros Hlen; [reflexivity|].
  rewrite seq_S, List.map_app, select_blocks_app, List.length_map, List.length_seq.
  rewrite List.filter_app, List.map_app, IH by lia. f_equal.
  simpl. destruct (g k); [|reflexivity].
  destruct (skipn k row) as [|x rest] eqn:E.
  - apply (f_equal (@length A)) in E. rewrite List.length_skipn in E. simpl in E. lia.
  - simpl. replace (nth k row d) with (nth (k + 0) row d) by (f_equal; lia).
    rewrite <- nth_skipn, E. reflexivity.
Qed.

(** Selection through a two-dimensional mask, row by row. *)
Lemma select_tabulate2 {A : Type} (d : A) (rows cols : nat)
    (f : nat -> nat -> bool) (l : list A) :
  length l = rows * cols ->
  torch.select_blocks 1 (tabulate2 rows cols f) l
  = flat_map (fun r => map (fun j => nth (r * cols + j) l d)
                           (List.filter (f r) (seq 0 cols)))
             (seq 0 rows).
Proof.
  intros Hlen.
  assert (G : forall k, k <= rows ->
    torch.select_blocks 1 (tabulate2 k cols f) l
    = flat_map (fun r => map (fun j => nth (r * cols + j) l d)
                             (List.filter (f r) (seq 0 cols)))
               (seq 0 k)).
  { induction k as [|k IH]; intros Hk; [reflexivity|].
    rewrite tabulate2_S, select_blocks_app, length_tabulate2, IH by lia.
    rewrite seq_S, flat_map_app. f_equal. simpl. rewrite List.app_nil_r.
    rewrite (select_map_seq d) by (rewrite List.length_skipn; nia).
    apply map_ext. intros j. rewrite nth_skipn. reflexivity. }
  apply G. lia.
Qed.

Lemma flat_map_ext_seq {A B : Type} (f g : A -> list B) (l : list A) :
  (forall a, In a l -> f a = g a) -> flat_map f l = flat_map g l.
Proof.
  induction l as [|x l IH]; intros H; [reflexivity|].
  simpl. rewrite (H x) by (left; reflexivity). f_equal.
  apply IH. intros a Ha. apply H. right. assumption.
Qed.

Lemma select_ext {A : Type} (d : A) (rows cols : nat)
    (f : nat -> nat -> bool) (l l' : list A) :
  length l = rows * cols -> length l' = rows * cols ->
  (forall r j, r < rows -> j < cols -> f r j = true ->
               nth (r * cols + j) l d = nth (r * cols + j) l' d) ->
  torch.select_blocks 1 (tabulate2 rows cols f) l
  = torch.select_blocks 1 (tabulate2 rows cols f) l'.
Proof.
  intros Hl Hl' H. rewrite !(select_tabulate2 d) by assumption.
  apply flat_map_ext_seq. intros r Hr. apply in_seq in Hr.
  apply map_ext_in. intros j Hj. apply filter_In in Hj. destruct Hj as [Hj Hf].
  apply in_seq in Hj. apply H; lia || assumption.
Qed.

(** The rows of a batch of [c] blocks of [n] rows, block by block. *)
Lemma filter_blocks (P : nat -> nat -> bool) (c n : nat) :
  1 <= n ->
  List.filter (fun r => P (r / n) (r mod n)) (seq 0 (c * n))
  = flat_map (fun i => map (fun p => i * n + p) (List.filter (P i) (seq 0 n)))
             (seq 0 c).
Proof.
  intros Hn. induction c as [|c IH]; [reflexivity|].
  replace (S c * n) with (c * n + n) by lia.
  rewrite seq_app, List.filter_app, IH, seq_S, flat_map_app. f_equal.
  simpl. rewrite List.app_nil_r.
  assert (Hs : seq (c * n) n = map (fun p => c * n + p) (seq 0 n)).
  { rewrite <- (List.map_id (seq (c * n) n)).
    apply (map_seq_shift (fun x => x)). }
  rewrite Hs.
  assert (G : forall l, Forall (fun p => p < n) l ->
    List.filter (fun r => P (r / n) (r mod n)) (map (fun p => c * n + p) l)
    = map (fun p => c * n + p) (List.filter (P c) l)).
  { induction l as [|p l IHl]; intros Hl; [reflexivity|].
    inversion Hl as [|? ? Hp Hl']; subst. simpl.
    replace ((c * n + p) / n) with c
      by (apply (Nat.div_unique _ _ _ p); lia).
    replace ((c * n + p) mod n) with p
      by (apply (Nat.mod_unique _ _ c); lia).
    rewrite IHl by assumption. destruct (P c p); reflexivity. }
  apply G. apply List.Forall_forall. intros p Hp. apply in_seq in Hp. lia.
Qed.

Lemma filter_first (b : bool) (n : nat) :
  1 <= n ->
  List.filter (fun p => (p =? 0) && b) (seq 0 n) = if b then [0] else [].
Proof.
  intros Hn. destruct n as [|n]; [lia|]. cbn [seq List.filter Nat.eqb andb].
  rewrite (filter_ext_in _ (fun _ => false)), filter_false.
  - destruct b; reflexivity.
  - intros p Hp. apply in_seq in Hp. destruct p; [lia|reflexivity].
Qed.

Lemma flat_map_if {A B : Type} (g : A -> bool) (f : A -> B) (l : list A) :
  flat_map (fun i => if g i then [f i] else []) l = map f (List.filter g l).
Proof.
  induction l as [|x l IH]; [reflexivity|].
  simpl. rewrite IH. destruct (g x); reflexivity.
Qed.

Lemma map_nth_seq_id {A : Type} (d : A) (l : list A) :
  map (fun i => nth i l d) (seq 0 (length l)) = l.
Proof.
  apply (nth_ext _ _ d d).
  - rewrite List.length_map, List.length_seq. reflexivity.
  - intros i Hi. rewrite List.length_map, List.length_seq in Hi.
    apply (nth_map_seq (fun i => nth i l d)). assumption.
Qed.

Lemma count_true_flags (l : list bool) :
  count_true l = length (List.filter (fun i => nth i l false) (seq 0 (length l))).
Proof.
  rewrite <- count_true_filter_seq, map_nth_seq_id. reflexivity.
Qed.

(** The rows selected by the expanded inlier labels are the first rows of
    the blocks of the inlier channels. *)
Lemma designated_rows (inlier : list bool) (c n : nat) :
  1 <= n -> length inlier = c ->
  List.filter (fun r => nth r (expanded_inlier n inlier) false) (seq 0 (c * n))
  = map (fun i => i * n) (List.filter (fun i => nth i inlier false) (seq 0 c)).
Proof.
  intros Hn Hl.
  rewrite (filter_ext_in _ (fun r => (r mod n =? 0) && nth (r / n) inlier false)).
  - pose proof (filter_blocks (fun i p => (p =? 0) && nth i inlier false) c n Hn)
      as H.
    cbv beta in H. rewrite H.
    rewrite (flat_map_ext _ (fun i => if nth i inlier false then [i * n] else [])).
    + apply flat_map_if.
    + intros i. rewrite filter_first by assumption.
      destruct (nth i inlier false); [|reflexivity].
      simpl. f_equal. lia.
  - intros r Hr. apply in_seq in Hr. apply nth_expanded_inlier. lia.
Qed.

Lemma inlier_selection (inlier : list bool) (c n : nat) (l : list R) :
  1 <= n -> length inlier = c -> length l = c * n * c ->
  torch.select_blocks 1 (cells (maxima_index (expanded_inlier n inlier) c n)) l
  = designated_scores inlier c n l.
Proof.
  intros Hn Hil Hl. cbn [cells maxima_index].
  rewrite (select_single_hit 0%R (c * n) c
             (fun r => nth r (expanded_inlier n inlier) false) (fun r => r / n))
    by (try assumption; intros r Hr; apply Nat.Div0.div_lt_upper_bound; lia).
  rewrite designated_rows by assumption.
  unfold designated_scores. rewrite List.map_map.
  apply map_ext. intros i. rewrite Nat.div_mul by lia. reflexivity.
Qed.

Lemma designated_scores_map (f : R -> R) (flags : list bool) (c n : nat) (l : list R) :
  1 <= n -> length l = c * n * c ->
  designated_scores flags c n (map f l) = map f (designated_scores flags c n l).
Proof.
  intros Hn Hl. unfold designated_scores. rewrite List.map_map.
  apply map_ext_in. intros i Hi. apply filter_In in Hi. destruct Hi as [Hi _].
  apply in_seq in Hi.
  rewrite (nth_indep _ 0%R (f 0%R)) by (rewrite List.length_map; nia).
  apply map_nth.
Qed.

(** X7: the inlier term of Variant A, for every number of channels and of
    patches per channel: it is taken over the response of each inlier
    channel to the first patch of its own block (row [i * n], column [i]),
    squashed, floored at epsilon and entered as a negative logarithm; it is
    absent when no channel is an inlier. *)
Theorem X7_classic_inlier_designated
    (epsilon : R) (c n : nat) (m k : tensor4) (inlier outlier : list bool) :
  well_formed_input c n m k inlier outlier ->
  exists total comps,
    OHNMClassicImipLoss.forward_with_log_data epsilon m k inlier outlier
    = Ok (total, comps)
    /\ component "inlier_maximizer_loss" comps
       = Some (if count_true inlier =? 0 then None
               else Some {| value :=
                              OHNMClassicImipLoss.sum_neg_log_floor epsilon
                                (map torch.sigmoid
                                   (designated_scores inlier c n (centered m)));
                            grad := false |}).
Proof.
  intros Hwf. rewrite (classic_forward _ c n) by assumption.
  unfold classic_report at 1. do 2 eexists. split; [reflexivity|].
  cbn [component List.find fst snd String.eqb Ascii.eqb Bool.eqb option_map].
  pose proof (length_scores c n m k inlier outlier Hwf) as Hl.
  destruct Hwf as [Hc Hn _ _ _ _ _ _ _ _ _ _ Hil _ _].
  unfold classic_inlier, probabilities. cbv zeta.
  rewrite inlier_selection by (rewrite ?List.length_map; assumption).
  rewrite designated_scores_map by assumption.
  rewrite List.length_map. unfold designated_scores at 1.
  rewrite List.length_map.
  rewrite count_true_flags, Hil.
  destruct (length _ =? 0); reflexivity.
Qed.

Lemma X7_classic_inlier_designated_witness :
  exists total comps,
    OHNMClassicImipLoss.forward_with_log_data (1 / 10000) scenario1_scores
      scenario1_corr scenario1_inlier scenario1_outlier
    = Ok (total, comps)
    /\ component "inlier_maximizer_loss" comps
       = Some (if count_true scenario1_inlier =? 0 then None
               else Some {| value :=
                              OHNMClassicImipLoss.sum_neg_log_floor (1 / 10000)
                                (map torch.sigmoid
                                   (designated_scores scenario1_inlier 2 2
                                      (centered scenario1_scores)));
                            grad := false |}).
Proof.
  apply (X7_classic_inlier_designated (1 / 10000) 2 2 scenario1_scores
           scenario1_corr scenario1_inlier scenario1_outlier).
  exact scenario1_well_formed.
Defined.

Lemma combine_map_same {A B C : Type} (f : A -> B) (g : A -> C) (l : list A) :
  combine (map f l) (map g l) = map (fun x => (f x, g x)) l.
Proof. induction l as [|x l IH]; [reflexivity|]. simpl. rewrite IH. reflexivity. Qed.

Lemma bce_sum_map {A : Type} (w : num) (f : A -> R) (y : A -> bool) (l : list A) :
  bce_sum (map f l) (map b2r (map y l))
          (map (fun b : bool => if b then Fin 1%R else w) (map y l))
  = nsum (map (fun r => weighted_bce w (f r) (y r)) l).
Proof.
  unfold bce_sum. rewrite !List.map_map, combine_map_same, List.map_map,
    combine_map_same, List.map_map.
  reflexivity.
Qed.

Lemma filter_const {A : Type} (b : bool) (l : list A) :
  List.filter (fun _ => b) l = if b then l else [].
Proof.
  destruct b; [|apply filter_false].
  induction l as [|x l IH]; [reflexivity|]. simpl. rewrite IH. reflexivity.
Qed.

Lemma map_flat_map {A B C : Type} (g : B -> C) (f : A -> list B) (l : list A) :
  map g (flat_map f l) = flat_map (fun x => map g (f x)) l.
Proof.
  induction l as [|x l IH]; [reflexivity|].
  simpl. rewrite List.map_app, IH. reflexivity.
Qed.

(** The rows of the channels with data, channel by channel. *)
Lemma has_data_rows (hd : list bool) (c n : nat) :
  1 <= n ->
  List.filter (fun r => nth (r / n) hd false) (seq 0 (c * n))
  = flat_map (fun i => if nth i hd false then map (fun p => i * n + p) (seq 0 n)
                       else [])
             (seq 0 c).
Proof.
  intros Hn.
  pose proof (filter_blocks (fun i _ => nth i hd false) c n Hn) as H.
  cbv beta in H. rewrite H. apply flat_map_ext. intros i.
  rewrite filter_const. destruct (nth i hd false); reflexivity.
Qed.

Lemma bce_maxima_value (c n : nat) (inlier hd : list bool) (l : list R) (w : num) :
  1 <= n -> length inlier = c -> length hd = c -> length l = c * n * c ->
  bce_sum (torch.select_blocks 1 (cells (has_data_index hd c n)) l)
          (map b2r (torch.select_blocks 1 (torch.repeat_interleave hd n)
                                        (expanded_inlier n inlier)))
          (map (fun y : bool => if y then Fin 1%R else w)
               (torch.select_blocks 1 (torch.repeat_interleave hd n)
                                    (expanded_inlier n inlier)))
  = nsum (own_block_terms w hd inlier c n l).
Proof.
  intros Hn Hil Hhd Hl. cbn [cells has_data_index].
  rewrite (select_single_hit 0%R (c * n) c (fun r => nth (r / n) hd false)
             (fun r => r / n))
    by (try assumption; intros r Hr; apply Nat.Div0.div_lt_upper_bound; lia).
  rewrite (repeat_interleave_as_map false) by assumption. rewrite Hhd.
  rewrite (select_map_seq false)
    by (rewrite length_expanded_inlier, Hil; lia).
  rewrite bce_sum_map. f_equal.
  rewrite has_data_rows by assumption.
  unfold own_block_terms. rewrite map_flat_map.
  apply flat_map_ext_seq. intros i Hi. apply in_seq in Hi.
  destruct (nth i hd false); [|reflexivity].
  rewrite List.map_map. apply map_ext_in. intros p Hp. apply in_seq in Hp.
  assert (Hd : (i * n + p) / n = i) by (symmetry; apply (Nat.div_unique _ _ _ p); lia).
  assert (Hm : (i * n + p) mod n = p) by (symmetry; apply (Nat.mod_unique _ _ i); lia).
  rewrite nth_expanded_inlier by (rewrite Hil; nia).
  rewrite Hd, Hm. reflexivity.
Qed.

Lemma length_own_block_terms (w : num) (hd il : list bool) (c n : nat) (l : list R) :
  length hd = c ->
  length (own_block_terms w hd il c n l) = count_true hd * n.
Proof.
  intros Hhd. rewrite count_true_flags, Hhd. unfold own_block_terms.
  induction (seq 0 c) as [|i s IH]; [reflexivity|].
  simpl. rewrite List.length_app, IH.
  destruct (nth i hd false); simpl; rewrite ?List.length_map, ?List.length_seq; lia.
Qed.

Lemma count_true_repeat (b : bool) (n : nat) :
  count_true (repeat b n) = if b then n else 0.
Proof.
  unfold count_true. induction n as [|n IHn]; [destruct b; reflexivity|].
  simpl. destruct b; simpl; rewrite IHn; reflexivity.
Qed.

Lemma count_true_repeat_interleave (v : list bool) (n : nat) :
  count_true (torch.repeat_interleave v n) = count_true v * n.
Proof.
  unfold torch.repeat_interleave.
  induction v as [|b v IH]; [reflexivity|].
  cbn [flat_map]. unfold count_true in *.
  rewrite List.filter_app, List.length_app, IH.
  fold (count_true (repeat b n)). rewrite count_true_repeat.
  destruct b; simpl; lia.
Qed.

Lemma mul_eqb_0 (a n : nat) : 1 <= n -> (a * n =? 0) = (a =? 0).
Proof.
  intros Hn. destruct (Nat.eqb_spec a 0) as [->|Ha]; [reflexivity|].
  apply Nat.eqb_neq. nia.
Qed.

(** X8: the maxima term of Variant B, for every number of channels and
    of patches per channel: for each channel with data (an inlier or an
    outlier label) it takes the channel's responses to the [n] patches of
    its own block; the first patch is a positive when the channel is an
    inlier, every other patch is a negative; a positive weighs 1 and a
    negative the outlier weight for [n]; the term is the weighted sum of the
    binary cross entropies, and it is absent when no channel has data.  The
    call stores the weight for [n] in the dictionary exactly when the term
    is present. *)
Theorem X8_bce_maxima_own_block
    (c n : nat) (m k : tensor4) (inlier outlier : list bool)
    (ws : gmap string num) :
  well_formed_input c n m k inlier outlier -> weights_ok ws ->
  exists total comps ws',
    OHNMBCELoss.forward_with_log_data m k inlier outlier ws
    = (Ok (total, comps), ws')
    /\ component "bce_maximizer_loss" comps
       = Some (if count_true (has_data inlier outlier) =? 0 then None
               else Some {| value :=
                              nsum (own_block_terms (outlier_weight n)
                                      (has_data inlier outlier) inlier c n
                                      (centered m));
                            grad := false |})
    /\ ws' = (if count_true (has_data inlier outlier) =? 0 then ws
              else <[OHNMBCELoss.str n := outlier_weight n]> ws).
Proof.
  intros Hwf Hws. rewrite (bce_forward c n) by assumption.
  unfold bce_report at 1. do 3 eexists. split; [reflexivity|].
  cbn [component List.find fst snd String.eqb Ascii.eqb Bool.eqb option_map].
  pose proof (length_scores c n m k inlier outlier Hwf) as Hl.
  pose proof (length_bce_maxima_labels c n m k inlier outlier Hwf) as Hlab.
  destruct Hwf as [Hc Hn _ _ _ _ _ _ _ _ _ _ Hil Hol _].
  assert (Hhd : length (has_data inlier outlier) = c)
    by (rewrite length_has_data; congruence).
  unfold bce_maxima, weights_after. cbv zeta.
  rewrite Hlab, count_true_repeat_interleave, mul_eqb_0 by assumption.
  split; [|reflexivity].
  destruct (count_true (has_data inlier outlier) =? 0); [reflexivity|].
  unfold bce_maxima_labels.
  rewrite bce_maxima_value by assumption. reflexivity.
Qed.

Lemma X8_bce_maxima_own_block_witness :
  exists total comps ws',
    OHNMBCELoss.forward_with_log_data scenario1_scores scenario1_corr
      scenario1_inlier scenario1_outlier OHNMBCELoss.init_weights
    = (Ok (total, comps), ws')
    /\ component "bce_maximizer_loss" comps
       = Some (if count_true (has_data scenario1_inlier scenario1_outlier) =? 0
               then None
               else Some {| value :=
                              nsum (own_block_terms (outlier_weight 2)
                                      (has_data scenario1_inlier scenario1_outlier)
                                      scenario1_inlier 2 2
                                      (centered scenario1_scores));
                            grad := false |})
    /\ ws' = (if count_true (has_data scenario1_inlier scenario1_outlier) =? 0
              then OHNMBCELoss.init_weights
              else <[OHNMBCELoss.str 2 := outlier_weight 2]>
                     OHNMBCELoss.init_weights).
Proof.
  apply (X8_bce_maxima_own_block 2 2 scenario1_scores scenario1_corr
           scenario1_inlier scenario1_outlier OHNMBCELoss.init_weights).
  - exact scenario1_well_formed.
  - exact init_weights_ok.
Defined.

Lemma outlier_score_fin (epsilon x : R) :
  nmul (Fin (-1)) (nlog (Fin (Rmax (-1 * torch.sigmoid x + 1) epsilon)))
  = Fin (- ln (Rmax (1 - torch.sigmoid x) epsilon)).
Proof.
  rewrite one_minus.
  assert (H : (0 < Rmax (1 - torch.sigmoid x) epsilon)%R).
  { apply Rlt_le_trans with (1 - torch.sigmoid x)%R; [|apply Rmax_l].
    pose proof (sigmoid_lt_1 x). lra. }
  rewrite nlog_pos by assumption. cbn. f_equal. lra.
Qed.

Lemma nadd_0_l (x : num) : nadd (Fin 0) x = x.
Proof. destruct x as [y|]; cbn; [f_equal; lra|reflexivity]. Qed.

Lemma nsum_cons (x : num) (l : list num) : nsum (x :: l) = nadd x (nsum l).
Proof. reflexivity. Qed.

Lemma nsum_masked (t : nat -> R) (q : nat -> bool) (l : list nat) :
  nsum (map (fun r => nmul (Fin (t r)) (Fin (b2r (q r)))) l)
  = nsum (map (fun r => Fin (t r)) (List.filter q l)).
Proof.
  induction l as [|r l IH]; [reflexivity|].
  cbn [map List.filter]. rewrite nsum_cons, IH.
  destruct (q r); cbn [map b2r nmul nlift2].
  - rewrite nsum_cons. replace (t r * 1)%R with (t r) by lra. reflexivity.
  - replace (t r * 0)%R with 0%R by lra. apply nadd_0_l.
Qed.

Lemma nth_weighted (scores : list num) (mask : list bool) (i : nat) :
  i < length scores -> length scores = length mask ->
  nth i (map (fun p => nmul (fst p) (Fin (b2r (snd p)))) (combine scores mask)) (Fin 0)
  = nmul (nth i scores (Fin 0)) (Fin (b2r (nth i mask false))).
Proof.
  revert mask i. induction scores as [|x s IH]; intros [|y mask] i Hi Hlen;
    simpl in *; try lia.
  destruct i as [|i]; [reflexivity|]. apply IH; lia.
Qed.

Lemma flat_map_nil {A B : Type} (f : A -> list B) (l : list A) :
  (forall a, In a l -> f a = []) -> flat_map f l = [].
Proof.
  induction l as [|x l IH]; intros H; [reflexivity|].
  simpl. rewrite (H x) by (left; reflexivity). apply IH.
  intros a Ha. apply H. right. assumption.
Qed.

Lemma flat_map_single {A : Type} (g : nat -> list A) (c j : nat) :
  j < c ->
  flat_map (fun i => if i =? j then g i else []) (seq 0 c) = g j.
Proof.
  intros Hj.
  replace c with (j + (1 + (c - j - 1))) by lia.
  rewrite !seq_app, !flat_map_app. cbn [seq flat_map Nat.add].
  rewrite Nat.eqb_refl, List.app_nil_r.
  rewrite !flat_map_nil.
  - rewrite List.app_nil_r. reflexivity.
  - intros i Hi. apply in_seq in Hi.
    destruct (Nat.eqb_spec i j); [lia|reflexivity].
  - intros i Hi. apply in_seq in Hi.
    destruct (Nat.eqb_spec i j); [lia|reflexivity].
Qed.

(** The rows of column [j] that the maxima-outlier mask selects. *)
Lemma outlier_rows (inlier outlier : list bool) (c n j : nat) :
  1 <= n -> length inlier = c -> length outlier = c -> j < c ->
  List.filter (fun r => nth r (expanded_outlier n inlier outlier) false && (r / n =? j))
              (seq 0 (c * n))
  = map (fun p => j * n + p) (outlier_patches inlier outlier n j).
Proof.
  intros Hn Hil Hol Hj.
  rewrite (filter_ext_in _
             (fun r => (nth (r / n) inlier false || nth (r / n) outlier false)
                       && negb ((r mod n =? 0) && nth (r / n) inlier false)
                       && (r / n =? j))).
  - pose proof (filter_blocks
                  (fun i p => (nth i inlier false || nth i outlier false)
                              && negb ((p =? 0) && nth i inlier false)
                              && (i =? j)) c n Hn) as H.
    cbv beta in H. rewrite H.
    rewrite <- (flat_map_single
                  (fun i => map (fun p => i * n + p) (outlier_patches inlier outlier n i))
                  c j Hj).
    apply flat_map_ext. intros i. unfold outlier_patches.
    destruct (i =? j).
    + f_equal. apply filter_ext. intros p. apply andb_true_r.
    + rewrite (filter_ext _ (fun _ => false)), filter_false; [reflexivity|].
      intros p. apply andb_false_r.
  - intros r Hr. apply in_seq in Hr.
    rewrite nth_expanded_outlier by (try assumption; try congruence; rewrite Hil; lia).
    reflexivity.
Qed.

Lemma outlier_column_count (inlier outlier : list bool) (c n j : nat) :
  1 <= n -> length inlier = c -> length outlier = c -> j < c ->
  OHNMClassicImipLoss.num_outliers_per_channel
    (maxima_index (expanded_outlier n inlier outlier) c n) j
  = Nat.max (length (outlier_patches inlier outlier n j)) 1.
Proof.
  intros Hn Hil Hol Hj. unfold OHNMClassicImipLoss.num_outliers_per_channel.
  f_equal. cbn [mrows maxima_index].
  rewrite (map_ext_in _ (fun r => nth r (expanded_outlier n inlier outlier) false
                                  && (r / n =? j))).
  - rewrite count_true_filter_seq, outlier_rows by assumption.
    apply List.length_map.
  - intros r Hr. apply in_seq in Hr. unfold cell. cbn [mcols cells maxima_index].
    apply (nth_tabulate2 (c * n) c
             (fun r j => nth r (expanded_outlier n inlier outlier) false
                         && (r / n =? j))); lia.
Qed.

Lemma averaged_outlier_sum_mined (epsilon : R) (inlier outlier : list bool)
    (c n : nat) (l : list R) :
  1 <= n -> length inlier = c -> length outlier = c -> length l = c * n * c ->
  OHNMClassicImipLoss.averaged_outlier_sum
    (OHNMClassicImipLoss.outlier_maximizer_scores epsilon (map torch.sigmoid l))
    (maxima_index (expanded_outlier n inlier outlier) c n)
  = mined_outlier_average epsilon inlier outlier c n l.
Proof.
  intros Hn Hil Hol Hl.
  unfold OHNMClassicImipLoss.averaged_outlier_sum, mined_outlier_average.
  cbv zeta. cbn [mrows mcols cells maxima_index].
  f_equal. apply map_ext_in. intros j Hj. apply in_seq in Hj.
  rewrite outlier_column_count by (assumption || lia). f_equal.
  rewrite (map_ext_in _
             (fun r => nmul (Fin (- ln (Rmax (1 - torch.sigmoid (nth (r * c + j) l 0%R))
                                             epsilon)))
                            (Fin (b2r (nth r (expanded_outlier n inlier outlier) false
                                       && (r / n =? j)))))).
  - rewrite (nsum_masked
               (fun r => (- ln (Rmax (1 - torch.sigmoid (nth (r * c + j) l 0%R))
                                     epsilon))%R)).
    rewrite outlier_rows by (assumption || lia).
    rewrite List.map_map. reflexivity.
  - intros r Hr. apply in_seq in Hr.
    unfold OHNMClassicImipLoss.outlier_maximizer_scores.
    rewrite nth_weighted
      by (rewrite !List.length_map, ?length_tabulate2; nia).
    rewrite (nth_tabulate2 (c * n) c
               (fun r j => nth r (expanded_outlier n inlier outlier) false
                           && (r / n =? j))) by lia.
    f_equal. rewrite List.map_map.
    rewrite (nth_indep _ (Fin 0)
               (nmul (Fin (-1)) (nlog (Fin (Rmax (-1 * torch.sigmoid 0 + 1) epsilon)))))
      by (rewrite List.length_map; nia).
    rewrite (map_nth (fun x => nmul (Fin (-1))
                                    (nlog (Fin (Rmax (-1 * torch.sigmoid x + 1) epsilon))))).
    apply outlier_score_fin.
Qed.

Lemma length_flat_map_map {A B C : Type} (f : A -> B -> C) (g : A -> list B)
    (l : list A) :
  length (flat_map (fun i => map (f i) (g i)) l) = length (flat_map g l).
Proof.
  induction l as [|x l IH]; [reflexivity|].
  simpl. rewrite !List.length_app, List.length_map, IH. reflexivity.
Qed.

Lemma outlier_cell_count (inlier outlier : list bool) (c n : nat) :
  1 <= n -> length inlier = c -> length outlier = c ->
  count_true (cells (maxima_index (expanded_outlier n inlier outlier) c n))
  = length (flat_map (outlier_patches inlier outlier n) (seq 0 c)).
Proof.
  intros Hn Hil Hol. cbn [cells maxima_index].
  rewrite <- (length_select_blocks_1 _ (repeat 0%R (c * n * c)))
    by (rewrite length_tabulate2, repeat_length; lia).
  rewrite (select_single_hit 0%R (c * n) c
             (fun r => nth r (expanded_outlier n inlier outlier) false)
             (fun r => r / n))
    by (try apply repeat_length; intros r Hr; apply Nat.Div0.div_lt_upper_bound; lia).
  rewrite List.length_map.
  rewrite (filter_ext_in _
             (fun r => (nth (r / n) inlier false || nth (r / n) outlier false)
                       && negb ((r mod n =? 0) && nth (r / n) inlier false))).
  - pose proof (filter_blocks
                  (fun i p => (nth i inlier false || nth i outlier false)
                              && negb ((p =? 0) && nth i inlier false)) c n Hn) as H.
    cbv beta in H. rewrite H.
    apply (length_flat_map_map (fun i p => i * n + p)
             (outlier_patches inlier outlier n)).
  - intros r Hr. apply in_seq in Hr.
    apply nth_expanded_outlier; try assumption; try congruence. rewrite Hil; lia.
Qed.

Lemma length_outlier_patches (inlier outlier : list bool) (n j : nat) :
  length (outlier_patches inlier outlier n j)
  = if nth j inlier false then n - 1
    else if nth j outlier false then n else 0.
Proof.
  unfold outlier_patches.
  destruct (nth j inlier false); cbn [orb andb].
  - destruct n as [|n]; [reflexivity|].
    cbn [seq List.filter Nat.eqb andb negb].
    rewrite (filter_ext_in _ (fun _ => true)), filter_const, List.length_seq; [lia|].
    intros p Hp. apply in_seq in Hp. destruct p; [lia|reflexivity].
  - rewrite (filter_ext _ (fun _ => nth j outlier false)), filter_const.
    + destruct (nth j outlier false); [apply List.length_seq|reflexivity].
    + intros p. rewrite andb_false_r. apply andb_true_r.
Qed.

(** X9: the outlier-maximizer term of Variant A, for every number of
    channels and of patches per channel (hard negative mining).  The
    outlier patches of a channel are all patches of its block when the
    channel is an outlier, and all but the first when it is an inlier; the
    term sums, over the channels, the mean over the channel's outlier
    patches of [- ln (max (1 - p) epsilon)], [p] the channel's squashed
    response to the patch; it is absent when there is no outlier patch. *)
Theorem X9_classic_outlier_maximizer_mean
    (epsilon : R) (c n : nat) (m k : tensor4) (inlier outlier : list bool) :
  well_formed_input c n m k inlier outlier ->
  exists total comps,
    OHNMClassicImipLoss.forward_with_log_data epsilon m k inlier outlier
    = Ok (total, comps)
    /\ component "outlier_maximizer_loss" comps
       = Some (if length (flat_map (outlier_patches inlier outlier n) (seq 0 c)) =? 0
               then None
               else Some {| value := mined_outlier_average epsilon inlier outlier
                                       c n (centered m);
                            grad := false |})
    /\ (forall j, length (outlier_patches inlier outlier n j)
                  = if nth j inlier false then n - 1
                    else if nth j outlier false then n else 0).
Proof.
  intros Hwf. rewrite (classic_forward _ c n) by assumption.
  unfold classic_report at 1. do 2 eexists. split; [reflexivity|].
  split; [|intros j; apply length_outlier_patches].
  cbn [component List.find fst snd String.eqb Ascii.eqb Bool.eqb option_map].
  pose proof (length_scores c n m k inlier outlier Hwf) as Hl.
  destruct Hwf as [Hc Hn _ _ _ _ _ _ _ _ _ _ Hil Hol _].
  unfold classic_outlier_maximizer, probabilities. cbv zeta.
  rewrite outlier_cell_count by assumption.
  destruct (length _ =? 0); [reflexivity|].
  rewrite averaged_outlier_sum_mined by assumption. reflexivity.
Qed.

Lemma X9_classic_outlier_maximizer_mean_witness :
  exists total comps,
    OHNMClassicImipLoss.forward_with_log_data (1 / 10000) scenario1_scores
      scenario1_corr scenario1_inlier scenario1_outlier
    = Ok (total, comps)
    /\ component "outlier_maximizer_loss" comps
       = Some (if length (flat_map (outlier_patches scenario1_inlier
                                      scenario1_outlier 2) (seq 0 2)) =? 0
               then None
               else Some {| value := mined_outlier_average (1 / 10000)
                                       scenario1_inlier scenario1_outlier 2 2
                                       (centered scenario1_scores);
                            grad := false |})
    /\ (forall j, length (outlier_patches scenario1_inlier scenario1_outlier 2 j)
                  = if nth j scenario1_inlier false then 2 - 1
                    else if nth j scenario1_outlier false then 2 else 0).
Proof.
  apply (X9_classic_outlier_maximizer_mean (1 / 10000) 2 2 scenario1_scores
           scenario1_corr scenario1_inlier scenario1_outlier).
  exact scenario1_well_formed.
Defined.

Lemma nth_flat_map_const {B : Type} (f : nat -> list B) (l : list nat) (w : nat)
    (d : B) (r j : nat) :
  (forall a, In a l -> length (f a) = w) -> r < length l -> j < w ->
  nth (r * w + j) (flat_map f l) d = nth j (f (nth r l 0)) d.
Proof.
  revert r. induction l as [|x l IH]; intros r Hw Hr Hj; [simpl in Hr; lia|].
  cbn [flat_map]. destruct r as [|r].
  - rewrite app_nth1 by (rewrite Hw by (left; reflexivity); lia). reflexivity.
  - rewrite app_nth2 by (rewrite Hw by (left; reflexivity); lia).
    rewrite Hw by (left; reflexivity).
    replace (S r * w + j - w) with (r * w + j) by lia.
    cbn [nth]. apply IH; [|simpl in Hr; lia|assumption].
    intros a Ha. apply Hw. right. assumption.
Qed.

Lemma nth_maximizing_rows (c n : nat) (l : list R) (r j : nat) :
  length l = c * n * c -> 1 <= n -> r < c -> j < c ->
  nth (r * c + j) (maximizing_rows c n l) 0%R = nth ((r * n) * c + j) l 0%R.
Proof.
  intros Hl Hn Hr Hj. unfold maximizing_rows.
  rewrite (nth_flat_map_const _ _ c).
  - rewrite (nth_map_seq (fun k => k * n)) by assumption.
    rewrite nth_firstn.
    replace (j <? c) with true by (symmetry; apply Nat.ltb_lt; assumption).
    rewrite nth_skipn. reflexivity.
  - intros a Ha. apply in_map_iff in Ha. destruct Ha as [q [<- Hq]].
    apply in_seq in Hq. rewrite List.length_firstn, List.length_skipn. nia.
  - rewrite List.length_map, List.length_seq. assumption.
  - assumption.
Qed.

Lemma unaligned_selection (inlier : list bool) (c n : nat) (l : list R) :
  1 <= n -> length inlier = c -> length l = c * n * c ->
  torch.select_blocks 1 (cells (unaligned_index inlier)) (maximizing_rows c n l)
  = cross_scores inlier c n l.
Proof.
  intros Hn Hil Hl. cbn [cells unaligned_index]. rewrite Hil.
  rewrite (select_tabulate2 0%R) by (apply length_maximizing_rows; assumption).
  unfold cross_scores. apply flat_map_ext_seq. intros r Hr. apply in_seq in Hr.
  destruct (nth r inlier false).
  - rewrite (filter_ext _ (fun j => negb (r =? j)))
      by (intros j; destruct (r =? j); reflexivity).
    apply map_ext_in. intros j Hj. apply filter_In in Hj. destruct Hj as [Hj _].
    apply in_seq in Hj. apply nth_maximizing_rows; lia.
  - rewrite (filter_ext _ (fun _ => false))
      by (intros j; destruct (r =? j); reflexivity).
    rewrite filter_false. reflexivity.
Qed.

Lemma length_filter_other (r c : nat) :
  r < c -> length (List.filter (fun j => negb (r =? j)) (seq 0 c)) = c - 1.
Proof.
  intros Hr.
  replace c with (r + (1 + (c - r - 1))) at 1 by lia.
  rewrite !seq_app, !List.filter_app, !List.length_app.
  cbn [seq List.filter Nat.add]. rewrite Nat.eqb_refl. cbn [negb length].
  rewrite (filter_ext_in _ (fun _ => true) (seq 0 r)),
    (filter_ext_in _ (fun _ => true) (seq (r + 1) (c - r - 1))),
    !filter_const, !List.length_seq.
  - lia.
  - intros j Hj. apply in_seq in Hj. destruct (Nat.eqb_spec r j); [lia|reflexivity].
  - intros j Hj. apply in_seq in Hj. destruct (Nat.eqb_spec r j); [lia|reflexivity].
Qed.

Lemma length_cross_scores (flags : list bool) (c n : nat) (l : list R) :
  length flags = c ->
  length (cross_scores flags c n l) = count_true flags * (c - 1).
Proof.
  intros Hf. rewrite count_true_flags, Hf. unfold cross_scores.
  assert (G : forall s, Forall (fun r => r < c) s ->
    length (flat_map (fun r => if nth r flags false then
                                 map (fun j => nth ((r * n) * c + j) l 0%R)
                                     (List.filter (fun j => negb (r =? j)) (seq 0 c))
                               else []) s)
    = length (List.filter (fun i => nth i flags false) s) * (c - 1)).
  { induction s as [|r s IH]; intros Hs; [reflexivity|].
    inversion Hs as [|? ? Hr Hs']; subst.
    cbn [flat_map List.filter]. rewrite List.length_app, IH by assumption.
    destruct (nth r flags false); cbn [length];
      rewrite ?List.length_map, ?length_filter_other by assumption; lia. }
  apply G. apply List.Forall_forall. intros r Hr. apply in_seq in Hr. lia.
Qed.

Lemma cross_scores_map (f : R -> R) (flags : list bool) (c n : nat) (l : list R) :
  1 <= n -> length l = c * n * c ->
  cross_scores flags c n (map f l) = map f (cross_scores flags c n l).
Proof.
  intros Hn Hl. unfold cross_scores. rewrite map_flat_map.
  apply flat_map_ext_seq. intros r Hr. apply in_seq in Hr.
  destruct (nth r flags false); [|reflexivity].
  rewrite List.map_map. apply map_ext_in. intros j Hj.
  apply filter_In in Hj. destruct Hj as [Hj _]. apply in_seq in Hj.
  rewrite (nth_indep _ 0%R (f 0%R)) by (rewrite List.length_map; nia).
  apply map_nth.
Qed.

(** X10: the unaligned term of both variants, for every number of
    channels and of patches per channel: it is taken over the responses of
    all other channels [j] to the first patch of the block of every inlier
    channel [r] (row [r * n], column [j <> r]), [c - 1] responses for each
    inlier channel.  Variant A sums their squashed values (the sum is 0
    when there is none); Variant B sums their binary cross entropies
    against the label 0, and reports no term when there is none. *)
Theorem X10_unaligned_cross_responses
    (epsilon : R) (c n : nat) (m k : tensor4) (inlier outlier : list bool)
    (ws : gmap string num) :
  well_formed_input c n m k inlier outlier -> weights_ok ws ->
  let cross := cross_scores inlier c n (centered m) in
  length cross = count_true inlier * (c - 1)
  /\ (exists total comps,
         OHNMClassicImipLoss.forward_with_log_data epsilon m k inlier outlier
         = Ok (total, comps)
         /\ component "unaligned_maximizer_loss" comps
            = Some (Some {| value := nsum (map Fin (map torch.sigmoid cross));
                            grad := false |}))
  /\ (exists total comps,
         fst (OHNMBCELoss.forward_with_log_data m k inlier outlier ws)
         = Ok (total, comps)
         /\ component "unaligned_maximizer_loss" comps
            = Some (if length cross =? 0 then None
                    else Some {| value := bce_plain_sum cross
                                            (map (fun _ => 0%R) cross);
                                 grad := false |})).
Proof.
  intros Hwf Hws cross.
  pose proof (length_scores c n m k inlier outlier Hwf) as Hl.
  assert (Hn : 1 <= n) by (destruct Hwf; assumption).
  assert (Hil : length inlier = c) by (destruct Hwf; assumption).
  split; [apply length_cross_scores; assumption|]. split.
  - rewrite (classic_forward _ c n) by assumption.
    unfold classic_report at 1. do 2 eexists. split; [reflexivity|].
    cbn [component List.find fst snd String.eqb Ascii.eqb Bool.eqb option_map
         OHNMClassicImipLoss._detach_if_not_none].
    unfold classic_unaligned, probabilities. cbv zeta.
    rewrite unaligned_selection by (rewrite ?List.length_map; assumption).
    rewrite cross_scores_map by assumption. fold cross.
    destruct (length (map torch.sigmoid cross) =? 0) eqn:E; [|reflexivity].
    apply Nat.eqb_eq in E. apply length_zero_iff_nil in E. rewrite E. reflexivity.
  - rewrite (bce_forward c n) by assumption. cbn [fst].
    unfold bce_report at 1. do 2 eexists. split; [reflexivity|].
    cbn [component List.find fst snd String.eqb Ascii.eqb Bool.eqb option_map].
    unfold bce_unaligned. cbv zeta.
    rewrite unaligned_selection by assumption. fold cross.
    destruct (length cross =? 0); reflexivity.
Qed.

Lemma X10_unaligned_cross_responses_witness :
  length (cross_scores scenario3_inlier 3 1 (centered scenario3_scores))
  = count_true scenario3_inlier * (3 - 1)
  /\ (exists total comps,
         OHNMClassicImipLoss.forward_with_log_data (1 / 10000) scenario3_scores
           scenario3_corr scenario3_inlier scenario3_outlier
         = Ok (total, comps)
         /\ component "unaligned_maximizer_loss" comps
            = Some (Some {| value :=
                              nsum (map Fin
                                      (map torch.sigmoid
                                         (cross_scores scenario3_inlier 3 1
                                            (centered scenario3_scores))));
                            grad := false |})).
Proof.
  destruct (X10_unaligned_cross_responses (1 / 10000) 3 1 scenario3_scores
              scenario3_corr scenario3_inlier scenario3_outlier
              OHNMBCELoss.init_weights scenario3_well_formed init_weights_ok)
    as [H1 [H2 _]].
  split; [exact H1|exact H2].
Defined.

(** ** The cells that are read *)

Section ReadCells.
Variables (c n : nat) (l l' : list R).
Hypothesis Hn : 1 <= n.
Hypothesis Hread : forall r j, r < c * n -> j < c -> is_read n r j = true ->
                               nth (r * c + j) l 0%R = nth (r * c + j) l' 0%R.

Lemma own_block_read (i p : nat) :
  i < c -> p < n -> nth ((i * n + p) * c + i) l 0%R = nth ((i * n + p) * c + i) l' 0%R.
Proof using Hn Hread.
  intros Hi Hp. apply Hread; [nia|assumption|].
  unfold is_read.
  replace ((i * n + p) / n) with i by (apply (Nat.div_unique _ _ _ p); lia).
  rewrite Nat.eqb_refl. reflexivity.
Qed.

Lemma first_patch_read (r j : nat) :
  r < c -> j < c -> nth ((r * n) * c + j) l 0%R = nth ((r * n) * c + j) l' 0%R.
Proof using Hn Hread.
  intros Hr Hj. apply Hread; [nia|assumption|].
  unfold is_read. rewrite Nat.Div0.mod_mul, Nat.eqb_refl. apply orb_true_r.
Qed.

Lemma designated_scores_read (flags : list bool) :
  designated_scores flags c n l = designated_scores flags c n l'.
Proof using Hn Hread.
  unfold designated_scores. apply map_ext_in. intros i Hi.
  apply filter_In in Hi. destruct Hi as [Hi _]. apply in_seq in Hi.
  apply first_patch_read; lia.
Qed.

Lemma cross_scores_read (flags : list bool) :
  cross_scores flags c n l = cross_scores flags c n l'.
Proof using Hn Hread.
  unfold cross_scores. apply flat_map_ext_seq. intros r Hr. apply in_seq in Hr.
  destruct (nth r flags false); [|reflexivity].
  apply map_ext_in. intros j Hj. apply filter_In in Hj. destruct Hj as [Hj _].
  apply in_seq in Hj. apply first_patch_read; lia.
Qed.

Lemma mined_outlier_average_read (epsilon : R) (inlier outlier : list bool) :
  mined_outlier_average epsilon inlier outlier c n l
  = mined_outlier_average epsilon inlier outlier c n l'.
Proof using Hn Hread.
  unfold mined_outlier_average. f_equal. apply map_ext_in. intros j Hj.
  apply in_seq in Hj. f_equal. f_equal. apply map_ext_in. intros p Hp.
  unfold outlier_patches in Hp. apply filter_In in Hp. destruct Hp as [Hp _].
  apply in_seq in Hp. rewrite own_block_read by lia. reflexivity.
Qed.

Lemma own_block_terms_read (w : num) (flags positive : list bool) :
  own_block_terms w flags positive c n l = own_block_terms w flags positive c n l'.
Proof using Hn Hread.
  unfold own_block_terms. apply flat_map_ext_seq. intros i Hi. apply in_seq in Hi.
  destruct (nth i flags false); [|reflexivity].
  apply map_ext_in. intros p Hp. apply in_seq in Hp.
  rewrite own_block_read by lia. reflexivity.
Qed.

End ReadCells.

(** X11: what the losses never read.  Row [r] of the score matrix is a
    patch of the block of channel [r // n]; column [j] is the response of
    channel [j].  Both variants read only the responses of a channel to the
    patches of its own block and the responses of all channels to the first
    patch of a block: two batches that agree on these cells (after the
    centre extraction) give the same result, whatever the responses of a
    channel to the other patches of another channel's block are. *)
Theorem X11_unread_responses
    (epsilon : R) (c n : nat) (m m' k : tensor4) (inlier outlier : list bool)
    (ws : gmap string num) :
  well_formed_input c n m k inlier outlier ->
  well_formed_input c n m' k inlier outlier ->
  weights_ok ws ->
  requires_grad4 m = requires_grad4 m' ->
  (forall r j, r < c * n -> j < c -> is_read n r j = true ->
               nth (r * c + j) (centered m) 0%R = nth (r * c + j) (centered m') 0%R) ->
  OHNMClassicImipLoss.forward_with_log_data epsilon m k inlier outlier
  = OHNMClassicImipLoss.forward_with_log_data epsilon m' k inlier outlier
  /\ OHNMBCELoss.forward_with_log_data m k inlier outlier ws
     = OHNMBCELoss.forward_with_log_data m' k inlier outlier ws.
Proof.
  intros Hwf Hwf' Hws Hg Hread.
  pose proof (length_scores c n m k inlier outlier Hwf) as Hl.
  pose proof (length_scores c n m' k inlier outlier Hwf') as Hl'.
  assert (Hn : 1 <= n) by (destruct Hwf; assumption).
  assert (Hil : length inlier = c) by (destruct Hwf; assumption).
  assert (Hol : length outlier = c) by (destruct Hwf; assumption).
  assert (Hhd : length (has_data inlier outlier) = c)
    by (rewrite length_has_data; congruence).
  split.
  - rewrite (classic_forward _ c n m k), (classic_forward _ c n m' k) by assumption.
    do 2 f_equal.
    + unfold classic_outlier_maximizer, probabilities. cbv zeta.
      rewrite !averaged_outlier_sum_mined by assumption.
      rewrite (mined_outlier_average_read c n _ _ Hn Hread), Hg. reflexivity.
    + unfold classic_inlier, probabilities. cbv zeta.
      rewrite !inlier_selection by (rewrite ?List.length_map; assumption).
      rewrite !designated_scores_map by assumption.
      rewrite (designated_scores_read c n _ _ Hn Hread), Hg. reflexivity.
    + unfold classic_unaligned, probabilities. cbv zeta.
      rewrite !unaligned_selection by (rewrite ?List.length_map; assumption).
      rewrite !cross_scores_map by assumption.
      rewrite (cross_scores_read c n _ _ Hn Hread), Hg. reflexivity.
  - rewrite (bce_forward c n m k), (bce_forward c n m' k) by assumption.
    do 3 f_equal.
    + unfold bce_maxima, bce_maxima_labels. cbv zeta.
      rewrite !bce_maxima_value by assumption.
      rewrite (own_block_terms_read c n _ _ Hn Hread), Hg. reflexivity.
    + unfold bce_unaligned. cbv zeta.
      rewrite !unaligned_selection by assumption.
      rewrite (cross_scores_read c n _ _ Hn Hread), Hg. reflexivity.
Qed.

Lemma scenario1_unread_well_formed :
  well_formed_input 2 2 scenario1_scores_unread scenario1_corr scenario1_inlier
    scenario1_outlier.
Proof.
  constructor; try reflexivity; cbn; try lia.
  intros [|[|[|i]]]; reflexivity.
Qed.

Lemma X11_unread_responses_witness :
  OHNMClassicImipLoss.forward_with_log_data (1 / 10000) scenario1_scores
    scenario1_corr scenario1_inlier scenario1_outlier
  = OHNMClassicImipLoss.forward_with_log_data (1 / 10000) scenario1_scores_unread
      scenario1_corr scenario1_inlier scenario1_outlier
  /\ OHNMBCELoss.forward_with_log_data scenario1_scores scenario1_corr
       scenario1_inlier scenario1_outlier OHNMBCELoss.init_weights
     = OHNMBCELoss.forward_with_log_data scenario1_scores_unread scenario1_corr
         scenario1_inlier scenario1_outlier OHNMBCELoss.init_weights.
Proof.
  apply (X11_unread_responses (1 / 10000) 2 2 scenario1_scores
           scenario1_scores_unread scenario1_corr scenario1_inlier
           scenario1_outlier OHNMBCELoss.init_weights).
  - exact scenario1_well_formed.
  - exact scenario1_unread_well_formed.
  - exact init_weights_ok.
  - reflexivity.
  - intros r j Hr Hj H.
    destruct r as [|[|[|[|r]]]]; [| | | |lia];
      (destruct j as [|[|j]]; [| |lia]); try reflexivity.
    vm_compute in H. discriminate H.
Defined.

Lemma has_data_all_false (inlier outlier : list bool) :
  Forall (fun b => b = false) inlier -> Forall (fun b => b = false) outlier ->
  Forall (fun b => b = false) (has_data inlier outlier).
Proof.
  intros Hi. revert outlier. unfold has_data.
  induction Hi as [|x inlier Hx _ IH]; intros outlier Ho; [constructor|].
  destruct Ho as [|y outlier Hy Ho]; [constructor|].
  subst x y. cbn [combine map fst snd orb]. constructor; [reflexivity|].
  apply IH. assumption.
Qed.

Lemma unaligned_all_false (inlier : list bool) :
  Forall (fun b => b = false) inlier ->
  count_true (cells (unaligned_index inlier)) = 0.
Proof.
  intros H. cbn [cells unaligned_index]. apply count_true_all_false.
  intros r j _ _. rewrite nth_all_false by assumption.
  destruct (r =? j); reflexivity.
Qed.

Lemma no_outlier_patches (inlier outlier : list bool) (c n : nat) :
  Forall (fun b => b = false) inlier -> Forall (fun b => b = false) outlier ->
  flat_map (outlier_patches inlier outlier n) (seq 0 c) = [].
Proof.
  intros Hi Ho. apply flat_map_nil. intros j _.
  apply length_zero_iff_nil. rewrite length_outlier_patches.
  rewrite !nth_all_false by assumption. reflexivity.
Qed.

(** X12: a batch in which no channel has a label costs nothing.  When
    every inlier and every outlier label is false, Variant A returns the
    total 0, with no correspondence, outlier or inlier term and the zero
    tensor as its unaligned term; Variant B returns the zero tensor that
    tracks gradients with all three terms absent, and does not touch its
    weight dictionary.  The scores are not read at all. *)
Theorem X12_no_labelled_channel
    (epsilon : R) (c n : nat) (m k : tensor4) (inlier outlier : list bool)
    (ws : gmap string num) :
  well_formed_input c n m k inlier outlier -> weights_ok ws ->
  Forall (fun b => b = false) inlier -> Forall (fun b => b = false) outlier ->
  (exists total,
      OHNMClassicImipLoss.forward_with_log_data epsilon m k inlier outlier
      = Ok (total,
            [ ("loss"%string, Some {| value := value total; grad := false |});
              ("outlier_correspondence_loss"%string, None);
              ("outlier_maximizer_loss"%string, None);
              ("inlier_maximizer_loss"%string, None);
              ("unaligned_maximizer_loss"%string,
                 Some {| value := Fin 0%R; grad := false |}) ])
      /\ value total = Fin 0%R /\ grad total = true)
  /\ OHNMBCELoss.forward_with_log_data m k inlier outlier ws
     = (Ok (zeros_tracked,
            [ ("loss"%string, Some {| value := Fin 0%R; grad := false |});
              ("bce_maximizer_loss"%string, None);
              ("outlier_correspondence_loss"%string, None);
              ("unaligned_maximizer_loss"%string, None) ]),
        ws).
Proof.
  intros Hwf Hws Hi Ho.
  pose proof (diag_all_false outlier Ho) as Hdiag.
  pose proof (unaligned_all_false inlier Hi) as Hun.
  assert (Hn : 1 <= n) by (destruct Hwf; assumption).
  assert (Hil : length inlier = c) by (destruct Hwf; assumption).
  assert (Hol : length outlier = c) by (destruct Hwf; assumption).
  split.
  - rewrite (classic_forward _ c n) by assumption.
    rewrite (proj2 (classic_outlier_correspondence_absent c n m k inlier outlier
                      Hwf epsilon) Hdiag).
    rewrite (proj2 (classic_outlier_maximizer_absent c n m inlier outlier epsilon))
      by (rewrite outlier_cell_count, no_outlier_patches by assumption; reflexivity).
    rewrite (classic_unaligned_empty c n m k inlier outlier Hwf Hun).
    assert (E : classic_inlier epsilon m c n inlier = None).
    { apply (classic_inlier_absent c n m k inlier outlier Hwf).
      rewrite <- (length_maxima_selection c n _ (centered m))
        by (apply (length_scores c n m k inlier outlier Hwf)).
      rewrite inlier_selection
        by (try assumption; apply (length_scores c n m k inlier outlier Hwf)).
      unfold designated_scores. rewrite List.length_map.
      rewrite <- Hil, <- count_true_flags. apply count_true_0. assumption. }
    rewrite E. unfold classic_report.
    cbn [OHNMClassicImipLoss._add_if_not_none OHNMClassicImipLoss._detach_if_not_none].
    eexists. split; [reflexivity|]. split; [|reflexivity].
    cbn. f_equal. lra.
  - rewrite (bce_forward c n) by assumption.
    assert (Hhd : count_true (torch.repeat_interleave (has_data inlier outlier) n) = 0).
    { rewrite count_true_repeat_interleave.
      rewrite (proj2 (count_true_0 _) (has_data_all_false _ _ Hi Ho)). reflexivity. }
    rewrite (proj2 (bce_maxima_absent c n m k inlier outlier Hwf) Hhd).
    rewrite (proj2 (bce_outlier_correspondence_absent c n m k inlier outlier Hwf)
                   Hdiag).
    rewrite (proj2 (bce_unaligned_absent c n m k inlier outlier Hwf) Hun).
    unfold weights_after.
    rewrite (length_bce_maxima_labels c n m k inlier outlier Hwf), Hhd.
    reflexivity.
Qed.

Lemma X12_no_labelled_channel_witness :
  OHNMBCELoss.forward_with_log_data scenario3_scores scenario3_corr
    [false; false; false] [false; false; false] OHNMBCELoss.init_weights
  = (Ok (zeros_tracked,
         [ ("loss"%string, Some {| value := Fin 0%R; grad := false |});
           ("bce_maximizer_loss"%string, None);
           ("outlier_correspondence_loss"%string, None);
           ("unaligned_maximizer_loss"%string, None) ]),
     OHNMBCELoss.init_weights).
Proof.
  apply (X12_no_labelled_channel (1 / 10000) 3 1 scenario3_scores scenario3_corr
           [false; false; false] [false; false; false] OHNMBCELoss.init_weights).
  - constructor; try reflexivity; cbn; try lia.
    intros [|[|[|[|i]]]]; reflexivity.
  - exact init_weights_ok.
  - repeat constructor.
  - repeat constructor.
Defined.

(** ** The outlier weight and its dictionary *)






Lemma get_weight_cases (n : nat) (ws : gmap string num) :
  OHNMBCELoss._get_bce_maxima_outlier_weight n ws
  = match ws !! OHNMBCELoss.str n with
    | Some v => (Ok v, ws)
    | None =>
        match ws !! OHNMBCELoss.str 1 with
        | Some _ =>
            (Ok (OHNMBCELoss.outlier_weight_formula (Fin (INR n))),
             <[OHNMBCELoss.str n := OHNMBCELoss.outlier_weight_formula (Fin (INR n))]> ws)
        | None => (Raise KeyError, ws)
        end
    end.
Proof.
  unfold OHNMBCELoss._get_bce_maxima_outlier_weight.
  destruct (ws !! OHNMBCELoss.str n) as [v|] eqn:E.
  - cbv beta iota zeta. rewrite E. reflexivity.
  - destruct (ws !! OHNMBCELoss.str 1) as [v1|] eqn:E1; [|reflexivity].
    cbv beta iota zeta. rewrite lookup_insert_eq. reflexivity.
Qed.

(** X15: a weight request fails exactly when the dictionary holds neither an
    entry for the requested number of patches nor the entry for 1 that
    [__init__] stores (the miss branch reads the device and the type of that
    entry); the failure is a [KeyError], and the dictionary is left as it
    was. *)
Theorem X15_weight_request_raises_iff (n : nat) (ws : gmap string num) (e : exn) :
  (fst (OHNMBCELoss._get_bce_maxima_outlier_weight n ws) = Raise e
   <-> ws !! OHNMBCELoss.str n = None /\ ws !! OHNMBCELoss.str 1 = None
       /\ e = KeyError)
  /\ (fst (OHNMBCELoss._get_bce_maxima_outlier_weight n ws) = Raise e ->
      snd (OHNMBCELoss._get_bce_maxima_outlier_weight n ws) = ws).
Proof.
  rewrite get_weight_cases.
  destruct (ws !! OHNMBCELoss.str n) as [v|] eqn:E;
    [|destruct (ws !! OHNMBCELoss.str 1) as [v1|] eqn:E1]; cbn [fst snd].
  - split; [split|]; [discriminate|intros [H _]; discriminate|discriminate].
  - split; [split|]; [discriminate|intros [_ [H _]]; discriminate|discriminate].
  - split; [split|]; [|intros [_ [_ ->]]|]; try reflexivity.
    intros H. injection H as <-. repeat split.
Qed.

(** X16: a weight request never removes or overwrites an entry of the
    dictionary: every entry present before the request is present, with the
    same value, after it; the only key that can be added is the requested
    one. *)
Theorem X16_weight_request_only_adds (n : nat) (ws : gmap string num) :
  ws ⊆ snd (OHNMBCELoss._get_bce_maxima_outlier_weight n ws)
  /\ forall key : string,
       key <> OHNMBCELoss.str n ->
       snd (OHNMBCELoss._get_bce_maxima_outlier_weight n ws) !! key = ws !! key.
Proof.
  rewrite get_weight_cases.
  destruct (ws !! OHNMBCELoss.str n) as [v|] eqn:E;
    [|destruct (ws !! OHNMBCELoss.str 1) as [v1|] eqn:E1]; cbn [snd].
  - split; [reflexivity|intros; reflexivity].
  - split.
    + apply insert_subseteq. assumption.
    + intros key Hk. apply lookup_insert_ne. congruence.
  - split; [reflexivity|intros; reflexivity].
Qed.

(** X17: weight requests commute: asking for the weights of two numbers of
    patches in either order gives the same two values (or the same failure)
    and leaves the same dictionary. *)
Theorem X17_weight_requests_commute (n1 n2 : nat) (ws : gmap string num) :
  (let! a := OHNMBCELoss._get_bce_maxima_outlier_weight n1 in
   let! b := OHNMBCELoss._get_bce_maxima_outlier_weight n2 in
   sret (a, b))%stateful ws
  = (let! b := OHNMBCELoss._get_bce_maxima_outlier_weight n2 in
     let! a := OHNMBCELoss._get_bce_maxima_outlier_weight n1 in
     sret (a, b))%stateful ws.
Proof.
  unfold sbind, sret.
  destruct (Nat.eq_dec n1 n2) as [->|Hne].
  - rewrite (get_weight_cases n2 ws).
    destruct (ws !! OHNMBCELoss.str n2) as [v|] eqn:E;
      [|destruct (ws !! OHNMBCELoss.str 1) as [v1|] eqn:E1];
      rewrite ?get_weight_cases, ?lookup_insert_eq, ?E, ?E1; reflexivity.
  - assert (Hs : OHNMBCELoss.str n1 <> OHNMBCELoss.str n2)
      by (intros H; apply str_inj in H; contradiction).
    rewrite (get_weight_cases n1 ws), (get_weight_cases n2 ws).
    destruct (ws !! OHNMBCELoss.str n1) as [v1|] eqn:E1;
      destruct (ws !! OHNMBCELoss.str n2) as [v2|] eqn:E2;
      destruct (ws !! OHNMBCELoss.str 1) as [u|] eqn:Eu;
      repeat first [ rewrite get_weight_cases
                   | rewrite lookup_insert_eq
                   | rewrite lookup_insert_ne by congruence
                   | rewrite E1 | rewrite E2 | rewrite Eu ];
      try reflexivity.
    f_equal. apply insert_insert_ne. congruence.
Qed.

(** ** Agreement of the variants, bounds, and the unchecked precondition *)

Lemma floor_inactive_sum (epsilon : R) (sel : list R) :
  (forall x, In x sel -> (epsilon <= torch.sigmoid x)%R) ->
  OHNMClassicImipLoss.sum_neg_log_floor epsilon (map torch.sigmoid sel)
  = bce_plain_sum sel (map (fun _ => 1%R) sel).
Proof.
  intros H. unfold OHNMClassicImipLoss.sum_neg_log_floor, bce_plain_sum.
  rewrite List.map_map.
  rewrite <- (List.map_id sel) at 2. rewrite combine_map_same, List.map_map.
  f_equal. apply map_ext_in. intros x Hx. cbn [fst snd].
  rewrite Rmax_left by (apply H; assumption).
  rewrite nlog_pos by apply sigmoid_pos.
  unfold torch.bce_with_logits. cbn. f_equal. lra.
Qed.

(** X18: the two conventions of the correspondence-outlier term agree
    above the floor.  When the squashed diagonal correspondence response of
    every outlier channel is at least epsilon, the floor of Variant A is
    inactive and its term ([- ln (max (p, epsilon))], summed) is the term of
    Variant B (binary cross entropy with logits against 1, summed): both
    variants report the same [outlier_correspondence_loss]. *)
Theorem X18_correspondence_terms_agree
    (epsilon : R) (c n : nat) (m k : tensor4) (inlier outlier : list bool)
    (ws : gmap string num) :
  well_formed_input c n m k inlier outlier -> weights_ok ws ->
  (forall x, In x (diagonal_at outlier c (centered k)) ->
             (epsilon <= torch.sigmoid x)%R) ->
  exists total comps total' comps',
    OHNMClassicImipLoss.forward_with_log_data epsilon m k inlier outlier
    = Ok (total, comps)
    /\ fst (OHNMBCELoss.forward_with_log_data m k inlier outlier ws)
       = Ok (total', comps')
    /\ component "outlier_correspondence_loss" comps
       = component "outlier_correspondence_loss" comps'.
Proof.
  intros Hwf Hws Hfloor.
  rewrite (classic_forward _ c n) by assumption.
  rewrite (bce_forward c n) by assumption. cbn [fst].
  unfold classic_report at 1, bce_report at 1. do 4 eexists.
  split; [reflexivity|]. split; [reflexivity|].
  cbn [component List.find fst snd String.eqb Ascii.eqb Bool.eqb option_map].
  rewrite (classic_outlier_correspondence_diagonal _ c n m k inlier outlier Hwf).
  rewrite (bce_outlier_correspondence_diagonal c n m k inlier outlier Hwf).
  cbv zeta. destruct (length _ =? 0); [reflexivity|].
  rewrite floor_inactive_sum by assumption. reflexivity.
Qed.

Lemma X18_correspondence_terms_agree_witness :
  exists total comps total' comps',
    OHNMClassicImipLoss.forward_with_log_data (1 / 10000) scenario2_scores
      scenario2_corr scenario2_inlier scenario2_outlier
    = Ok (total, comps)
    /\ fst (OHNMBCELoss.forward_with_log_data scenario2_scores scenario2_corr
              scenario2_inlier scenario2_outlier OHNMBCELoss.init_weights)
       = Ok (total', comps')
    /\ component "outlier_correspondence_loss" comps
       = component "outlier_correspondence_loss" comps'.
Proof.
  apply (X18_correspondence_terms_agree (1 / 10000) 2 1 scenario2_scores
           scenario2_corr scenario2_inlier scenario2_outlier
           OHNMBCELoss.init_weights).
  - apply scenario2_well_formed.
  - exact init_weights_ok.
  - intros x Hx. cbn in Hx.
    destruct Hx as [<-|[<-|[]]]; rewrite sigmoid_logit; lra.
Defined.

Section Bounded.

Local Open Scope R_scope.











End Bounded.

Lemma length_diagonal_at (flags : list bool) (l : list R) :
  length (diagonal_at flags (length flags) l) = count_true flags.
Proof.
  unfold diagonal_at. rewrite List.length_map. symmetry. apply count_true_flags.
Qed.

Lemma length_designated_scores (flags : list bool) (c n : nat) (l : list R) :
  length flags = c -> length (designated_scores flags c n l) = count_true flags.
Proof.
  intros <-. unfold designated_scores. rewrite List.length_map.
  symmetry. apply count_true_flags.
Qed.



(** The normal forms of [classic_forward] and [bce_forward] do not depend on
    the labels being disjoint. *)
Lemma classic_forward_any_labels (epsilon : R) (c n : nat) (m k : tensor4)
    (inlier outlier : list bool) :
  well_formed_scores c n m k -> length inlier = c -> length outlier = c ->
  OHNMClassicImipLoss.forward_with_log_data epsilon m k inlier outlier
  = Ok (classic_report
          (classic_outlier_correspondence epsilon k outlier)
          (classic_outlier_maximizer epsilon m c n inlier outlier)
          (classic_inlier epsilon m c n inlier)
          (classic_unaligned m c n inlier)).
Proof.
  intros [Hc Hn Hrows Hcols Hsq Hside Hst Hkr Hkc Hksq Hkside Hkst] Hil Hol.
  unfold OHNMClassicImipLoss.forward_with_log_data.
  rewrite Hrows, Hcols.
  unfold py_mod. replace (c =? 0) with false by (symmetry; apply Nat.eqb_neq; lia).
  cbn [rbind].
  replace ((c * n) mod c) with 0 by (rewrite Nat.mul_comm, Nat.Div0.mod_mul; reflexivity).
  cbn [Nat.eqb py_assert rbind].
  rewrite Hsq, Nat.eqb_refl. cbn [rbind].
  rewrite !center_values_ok by (assumption || lia). cbn [rbind].
  rewrite (decoded_scores m (c * n) c) by (assumption || nia).
  rewrite (decoded_scores k c c) by (assumption || nia).
  unfold torch.sigmoid_. cbn [shape data requires_grad].
  fold (probabilities m). fold (probabilities k).
  cbn [py_assert rbind].
  rewrite (masked_select_2d _ _ c c) by (reflexivity || exact Hol).
  cbn [data rbind torch.shape_at shape nth_error].
  unfold py_floordiv. replace (c =? 0) with false by (symmetry; apply Nat.eqb_neq; lia).
  replace ((c * n) / c) with n by (rewrite Nat.mul_comm, Nat.div_mul by lia; reflexivity).
  cbn [rbind].
  rewrite arange_blocks by assumption. cbn [rbind].
  rewrite (index_put_arange inlier c n) by assumption. cbn [rbind].
  rewrite bitwise_same_length by lia. cbn [rbind]. fold (has_data inlier outlier).
  rewrite bitwise_same_length
    by (rewrite length_repeat_interleave, length_has_data, List.length_map,
          length_expanded_inlier by lia; reflexivity).
  cbn [rbind]. fold (expanded_outlier n inlier outlier).
  rewrite !column_times_eye_rows
    by (assumption || (rewrite ?length_expanded_inlier, ?length_expanded_outlier by lia; lia)).
  cbn [rbind].
  assert (Hmr : forall v, mrows (maxima_index v c n) = c * n) by reflexivity.
  assert (Hmc : forall v, mcols (maxima_index v c n) = c) by reflexivity.
  rewrite Hmr, Hmc, !Nat.eqb_refl. cbn [andb].
  rewrite (masked_select_2d _ _ (c * n) c) by reflexivity.
  rewrite index_rows_arange by (assumption || reflexivity).
  rewrite xor_column_diag.
  unfold classic_report, classic_outlier_correspondence, classic_outlier_maximizer,
    classic_inlier, classic_unaligned.
  destruct (count_true (cells (maxima_index (expanded_outlier n inlier outlier) c n)) =? 0);
    cbn [rbind data requires_grad];
    rewrite (masked_select_2d _ _ c c) by (reflexivity || exact Hil);
    cbn [rbind data requires_grad]; reflexivity.
Qed.

Lemma bce_forward_any_labels (c n : nat) (m k : tensor4) (inlier outlier : list bool)
    (ws : gmap string num) :
  well_formed_scores c n m k -> length inlier = c -> length outlier = c ->
  weights_ok ws ->
  OHNMBCELoss.forward_with_log_data m k inlier outlier ws
  = (Ok (bce_report (bce_maxima m c n inlier outlier)
                    (bce_outlier_correspondence k outlier)
                    (bce_unaligned m c n inlier)),
     weights_after n inlier outlier ws).
Proof.
  intros [Hc Hn Hrows Hcols Hsq Hside Hst Hkr Hkc Hksq Hkside Hkst] Hil Hol Hws.
  unfold OHNMBCELoss.forward_with_log_data, sbind, lift, sret.
  rewrite Hrows, Hcols.
  unfold py_mod. replace (c =? 0) with false by (symmetry; apply Nat.eqb_neq; lia).
  replace ((c * n) mod c) with 0 by (rewrite Nat.mul_comm, Nat.Div0.mod_mul; reflexivity).
  cbn [Nat.eqb py_assert].
  rewrite Hsq, Nat.eqb_refl.
  rewrite !center_values_ok by (assumption || lia).
  rewrite (decoded_scores m (c * n) c) by (assumption || nia).
  rewrite (decoded_scores k c c) by (assumption || nia).
  rewrite (masked_select_2d _ _ c c) by (reflexivity || exact Hol).
  cbn [data torch.shape_at shape nth_error requires_grad].
  cbn [py_assert].
  match goal with
  | |- context [?f ws] =>
      lazymatch f with (if _ then _ else _) => idtac end;
      replace (f ws)
        with (Ok (bce_outlier_correspondence k outlier), ws)
  end.
  2: { unfold bce_outlier_correspondence. cbv zeta.
       match goal with |- context [if ?b then _ else _] => destruct b end; [reflexivity|].
       rewrite bce_plain_ok by (rewrite List.length_map; reflexivity).
       reflexivity. }
  cbv beta iota.
  unfold py_floordiv. replace (c =? 0) with false by (symmetry; apply Nat.eqb_neq; lia).
  replace ((c * n) / c) with n by (rewrite Nat.mul_comm, Nat.div_mul by lia; reflexivity).
  rewrite arange_blocks by assumption.
  rewrite (index_put_arange inlier c n) by assumption.
  rewrite bitwise_same_length by lia. fold (has_data inlier outlier).
  unfold torch.masked_select1.
  rewrite length_expanded_inlier, length_repeat_interleave, length_has_data by lia.
  rewrite Nat.eqb_refl. fold (bce_maxima_labels n inlier outlier).
  match goal with
  | |- context [?f ws] =>
      lazymatch f with (if _ then _ else _) => idtac end;
      replace (f ws)
        with (Ok (bce_maxima m c n inlier outlier), weights_after n inlier outlier ws)
  end.
  2: { unfold bce_maxima, weights_after. cbv zeta.
       match goal with |- context [if ?b then _ else _] => destruct b end; [reflexivity|].
       rewrite get_weight_ok by assumption.
       destruct (has_data_index_ok (has_data inlier outlier) c n) as [e [-> ->]];
         try assumption; [rewrite length_has_data; lia|].
       rewrite (masked_select_2d _ _ (c * n) c) by reflexivity.
       cbn [data].
       assert (Hlen : length (torch.select_blocks 1
                                (cells (has_data_index (has_data inlier outlier) c n))
                                (centered m))
                      = length (bce_maxima_labels n inlier outlier)).
       { rewrite length_select_has_data;
           [|assumption|rewrite length_has_data; lia
            |rewrite length_centered by assumption; rewrite Hrows, Hcols; reflexivity].
         unfold bce_maxima_labels. rewrite length_select_blocks_1; [reflexivity|].
         rewrite length_expanded_inlier, length_repeat_interleave, length_has_data by lia.
         lia. }
       rewrite bce_weighted_ok by (rewrite !List.length_map; congruence).
       reflexivity. }
  cbv beta iota.
  rewrite index_rows_arange by (assumption || reflexivity).
  rewrite xor_column_diag.
  rewrite (masked_select_2d _ _ c c) by (reflexivity || exact Hil).
  cbn [data requires_grad].
  match goal with
  | |- context [?f ?s] =>
      lazymatch f with (if _ then _ else _) => idtac end;
      replace (f s)
        with (Ok (bce_unaligned m c n inlier), s)
  end.
  2: { unfold bce_unaligned. cbv zeta.
       match goal with |- context [if ?b then _ else _] => destruct b end; [reflexivity|].
       rewrite bce_plain_ok by (rewrite List.length_map; reflexivity).
       reflexivity. }
  reflexivity.
Qed.

Lemma count_true_pos (l : list bool) (i : nat) :
  nth i l false = true -> (count_true l =? 0) = false.
Proof. intros H. apply Nat.eqb_neq. apply (count_true_witness l i H). Qed.

(** X20: the precondition that no channel is both an inlier and an
    outlier is not checked.  For label vectors of the right length, both
    variants return whether or not the labels overlap; a channel that is
    labelled both ways is counted twice by Variant A: its correspondence
    response enters the correspondence-outlier term and its first patch the
    inlier term. *)
Theorem X20_overlapping_labels_accepted
    (epsilon : R) (c n : nat) (m k : tensor4) (inlier outlier : list bool)
    (ws : gmap string num) (i : nat) :
  well_formed_scores c n m k -> length inlier = c -> length outlier = c ->
  weights_ok ws ->
  nth i inlier false = true -> nth i outlier false = true ->
  (exists total comps,
      OHNMClassicImipLoss.forward_with_log_data epsilon m k inlier outlier
      = Ok (total, comps)
      /\ component "outlier_correspondence_loss" comps <> Some None
      /\ component "inlier_maximizer_loss" comps <> Some None)
  /\ (exists total comps ws',
         OHNMBCELoss.forward_with_log_data m k inlier outlier ws
         = (Ok (total, comps), ws')
         /\ component "outlier_correspondence_loss" comps <> Some None
         /\ component "bce_maximizer_loss" comps <> Some None).
Proof.
  intros Hs Hil Hol Hws Hi Ho.
  assert (Hn : 1 <= n) by (destruct Hs; assumption).
  assert (Hlm : length (centered m) = c * n * c).
  { destruct Hs. rewrite length_centered by assumption. congruence. }
  assert (Hlk : length (centered k) = length outlier * length outlier).
  { destruct Hs. rewrite length_centered by assumption. congruence. }
  assert (Hco : (count_true outlier =? 0) = false) by (apply (count_true_pos _ i Ho)).
  assert (Hci : (count_true inlier =? 0) = false) by (apply (count_true_pos _ i Hi)).
  split.
  - rewrite (classic_forward_any_labels _ c n) by assumption.
    unfold classic_report at 1. do 2 eexists. split; [reflexivity|].
    cbn [component List.find fst snd String.eqb Ascii.eqb Bool.eqb option_map].
    split.
    + unfold classic_outlier_correspondence, probabilities. cbv zeta.
      rewrite diag_selection by (rewrite List.length_map; assumption).
      rewrite length_diagonal_at, Hco. discriminate.
    + unfold classic_inlier, probabilities. cbv zeta.
      rewrite inlier_selection by (rewrite ?List.length_map; assumption).
      rewrite length_designated_scores, Hci by assumption. discriminate.
  - rewrite (bce_forward_any_labels c n) by assumption.
    unfold bce_report at 1. do 3 eexists. split; [reflexivity|].
    cbn [component List.find fst snd String.eqb Ascii.eqb Bool.eqb option_map].
    split.
    + unfold bce_outlier_correspondence. cbv zeta.
      rewrite diag_selection by assumption.
      rewrite length_diagonal_at, Hco. discriminate.
    + unfold bce_maxima, bce_maxima_labels. cbv zeta.
      rewrite length_select_blocks_1
        by (rewrite length_repeat_interleave, length_expanded_inlier,
              length_has_data by congruence; lia).
      rewrite count_true_repeat_interleave, mul_eqb_0 by assumption.
      rewrite (count_true_pos (has_data inlier outlier) i); [discriminate|].
      assert (Hic : i < length inlier).
      { destruct (Nat.lt_ge_cases i (length inlier)) as [H|H]; [assumption|].
        rewrite nth_overflow in Hi by lia. discriminate. }
      rewrite nth_has_data by congruence. rewrite Hi. reflexivity.
Qed.

Lemma X20_overlapping_labels_accepted_witness :
  (exists total comps,
      OHNMClassicImipLoss.forward_with_log_data (1 / 10000) example_scores
        example_scores [true; false] [true; true]
      = Ok (total, comps)
      /\ component "outlier_correspondence_loss" comps <> Some None
      /\ component "inlier_maximizer_loss" comps <> Some None)
  /\ (exists total comps ws',
         OHNMBCELoss.forward_with_log_data example_scores example_scores
           [true; false] [true; true] OHNMBCELoss.init_weights
         = (Ok (total, comps), ws')
         /\ component "outlier_correspondence_loss" comps <> Some None
         /\ component "bce_maximizer_loss" comps <> Some None).
Proof.
  apply (X20_overlapping_labels_accepted (1 / 10000) 2 1 example_scores
           example_scores [true; false] [true; true] OHNMBCELoss.init_weights 0).
  - apply (well_formed_scores_of 2 1 _ _ _ _ example_well_formed).
  - reflexivity.
  - reflexivity.
  - exact init_weights_ok.
  - reflexivity.
  - reflexivity.
Defined.

(** * The statistics of a data set *)

Section OnlineMoments.

Local Open Scope R_scope.
Import ImagePair.

Lemma rsum_cons (x : R) (l : list R) : rsum (x :: l) = x + rsum l.
Proof. reflexivity. Qed.

Lemma rsum_app (a b : list R) : rsum (a ++ b) = rsum a + rsum b.
Proof.
  induction a as [|x a IH].
  - change (rsum []) with 0. cbn [app]. lra.
  - cbn [app]. rewrite !rsum_cons, IH. lra.
Qed.

(** The sum of the squared deviations by the sum and the sum of the
    squares. *)
Lemma rsum_dev (l : list R) (mu : R) :
  rsum (map (fun x => (x - mu) * (x - mu)) l)
  = rsum (map (fun x => x * x) l) - 2 * mu * rsum l + INR (length l) * mu * mu.
Proof.
  induction l as [|x l IH].
  - change (rsum (map _ [])) with 0. change (rsum []) with 0. cbn. lra.
  - cbn [map length]. rewrite !rsum_cons, IH, S_INR. lra.
Qed.

(** One step of the parallel algorithm on the pixels [a] seen so far and
    the [p >= 1] pixels [b] of a new row. *)
Lemma combine_moments (a b : list R) :
  (1 <= length b)%nat ->
  let n := INR (length a) in
  let p := INR (length b) in
  let delta := rsum b / p - running_mean a in
  running_mean a + delta * (p / (n + p)) = running_mean (a ++ b)
  /\ squared_deviations (running_mean a) a
     + (squared_deviations (rsum b / p) b + delta * delta * n * p / (n + p))
     = squared_deviations (running_mean (a ++ b)) (a ++ b).
Proof.
  intros Hb n p delta.
  assert (Hp : 0 < p) by (apply lt_0_INR; lia).
  assert (Hn : 0 <= n) by apply pos_INR.
  assert (Hab : running_mean (a ++ b) = (rsum a + rsum b) / (n + p)).
  { unfold running_mean. destruct (a ++ b) as [|x l] eqn:E.
    - apply (f_equal (@length R)) in E. rewrite List.length_app in E.
      simpl in E. lia.
    - rewrite <- E, rsum_app, List.length_app, plus_INR. reflexivity. }
  unfold squared_deviations. rewrite Hab, !rsum_dev, List.map_app, !rsum_app, List.length_app, plus_INR.
  fold n p. subst delta.
  destruct a as [|x a].
  - cbn [running_mean]. change (rsum []) with 0. change (rsum (map _ [])) with 0.
    unfold n. cbn [length INR].
    split; field; lra.
  - assert (Hn' : 0 < n) by (apply lt_0_INR; simpl; lia).
    unfold running_mean. fold n.
    split; field; lra.
Qed.


Lemma row_mean_fin (row : list R) :
  (1 <= length row)%nat -> row_mean row = Fin (rsum row / INR (length row)).
Proof.
  intros H. unfold row_mean. apply ndiv_fin.
  apply not_0_INR. lia.
Qed.

Lemma row_var_scaled (row : list R) :
  (2 <= length row)%nat ->
  nmul (row_var row) (Fin (INR (length row) - 1))
  = Fin (squared_deviations (rsum row / INR (length row)) row).
Proof.
  intros H. unfold row_var. rewrite row_mean_fin by lia.
  assert (Hp : 1 < INR (length row)) by (apply (lt_INR 1); lia).
  rewrite ndiv_fin by lra. cbn. unfold squared_deviations. f_equal. field. lra.
Qed.

Lemma broadcast2_same (f : num -> num -> num) (a b : list num) :
  length a = length b ->
  broadcast2 f a b = Ok (map (fun p => f (fst p) (snd p)) (combine a b)).
Proof. intros H. unfold broadcast2. rewrite H, Nat.eqb_refl. reflexivity. Qed.

Lemma iadd_same (t u : list num) :
  length t = length u ->
  iadd t u = Ok (map (fun p => nadd (fst p) (snd p)) (combine t u)).
Proof.
  intros H. unfold iadd. rewrite broadcast2_same by assumption. cbn [rbind].
  rewrite List.length_map, List.length_combine, <- H, Nat.min_id, Nat.eqb_refl.
  reflexivity.
Qed.

Lemma mean_element (a row : list R) :
  (1 <= length row)%nat ->
  nadd (Fin (running_mean a))
       (nmul (nsub (row_mean row) (Fin (running_mean a)))
             (Fin (INR (length row) / INR (length a + length row))))
  = Fin (running_mean (a ++ row)).
Proof.
  intros H. rewrite row_mean_fin by assumption. cbn [nsub nmul nadd nlift2].
  rewrite plus_INR. f_equal. apply (combine_moments a row H).
Qed.

Lemma m2_element (a row : list R) :
  (2 <= length row)%nat ->
  nadd (Fin (squared_deviations (running_mean a) a))
       (nadd (nmul (row_var row) (Fin (INR (length row) - 1)))
             (ndiv (nmul (nmul (nmul (nsub (row_mean row) (Fin (running_mean a)))
                                     (nsub (row_mean row) (Fin (running_mean a))))
                               (Fin (INR (length a))))
                         (Fin (INR (length row))))
                   (Fin (INR (length a + length row)))))
  = Fin (squared_deviations (running_mean (a ++ row)) (a ++ row)).
Proof.
  intros H. rewrite row_var_scaled, row_mean_fin by lia.
  cbn [nsub nmul nadd nlift2].
  rewrite ndiv_fin by (apply not_0_INR; lia).
  cbn [nadd nlift2]. rewrite plus_INR. f_equal.
  apply (combine_moments a row). lia.
Qed.

Lemma mean_lists (n w : nat) (seen rs : list (list R)) :
  length rs = length seen -> (2 <= w)%nat ->
  Forall (fun row => length row = w) rs -> Forall (fun a => length a = n) seen ->
  map (fun p => nadd (fst p) (snd p))
      (combine (map (fun a => Fin (running_mean a)) seen)
               (map (fun d => nmul d (Fin (INR w / INR (n + w))))
                    (map (fun p => nsub (fst p) (snd p))
                         (combine (map row_mean rs)
                                  (map (fun a => Fin (running_mean a)) seen)))))
  = map (fun a => Fin (running_mean a)) (append_rows seen rs).
Proof.
  intros Hlen Hw Hrs Hseen. unfold append_rows. revert rs Hlen Hrs.
  induction Hseen as [|a seen Ha _ IH]; intros [|row rs] Hlen Hrs;
    try discriminate Hlen; [reflexivity|].
  inversion Hrs as [|? ? Hrow Hrs']; subst.
  cbn [map combine fst snd]. f_equal.
  - apply mean_element. lia.
  - apply IH; [simpl in Hlen; lia|assumption].
Qed.

Lemma m2_lists (n w : nat) (seen rs : list (list R)) :
  length rs = length seen -> (2 <= w)%nat ->
  Forall (fun row => length row = w) rs -> Forall (fun a => length a = n) seen ->
  map (fun p => nadd (fst p) (snd p))
      (combine (map (fun a => Fin (squared_deviations (running_mean a) a)) seen)
               (map (fun p => nadd (fst p) (snd p))
                    (combine
                       (map (fun row => nmul (row_var row) (Fin (INR w - 1))) rs)
                       (map (fun d => ndiv (nmul (nmul (nmul d d) (Fin (INR n)))
                                                 (Fin (INR w)))
                                           (Fin (INR (n + w))))
                            (map (fun p => nsub (fst p) (snd p))
                                 (combine (map row_mean rs)
                                          (map (fun a => Fin (running_mean a))
                                               seen)))))))
  = map (fun a => Fin (squared_deviations (running_mean a) a)) (append_rows seen rs).
Proof.
  intros Hlen Hw Hrs Hseen. unfold append_rows. revert rs Hlen Hrs.
  induction Hseen as [|a seen Ha _ IH]; intros [|row rs] Hlen Hrs;
    try discriminate Hlen; [reflexivity|].
  inversion Hrs as [|? ? Hrow Hrs']; subst.
  cbn [map combine fst snd]. f_equal.
  - apply m2_element. lia.
  - apply IH; [simpl in Hlen; lia|assumption].
Qed.

Lemma update_step (n : nat) (seen : list (list R)) (b : flat_batch) :
  well_formed_batch (length seen) b ->
  Forall (fun a => length a = n) seen ->
  update_online_moments (moments_of n seen) b
  = Ok (moments_of (n + width b) (append_rows seen (rows b))).
Proof.
  intros [Hc [Hw Hrows]] Hseen.
  unfold update_online_moments, moments_of.
  cbn [n_old_px mean m2].
  rewrite broadcast2_same by (rewrite !List.length_map; assumption).
  cbn [rbind]. unfold py_truediv.
  replace (n + width b =? 0)%nat with false by (symmetry; apply Nat.eqb_neq; lia).
  cbn [rbind].
  rewrite iadd_same
    by (rewrite !List.length_map, List.length_combine, !List.length_map; lia).
  cbn [rbind].
  rewrite broadcast2_same
    by (rewrite !List.length_map, List.length_combine, !List.length_map; lia).
  cbn [rbind].
  rewrite iadd_same
    by (rewrite !List.length_map, !List.length_combine, !List.length_map,
          List.length_combine, !List.length_map; lia).
  cbn [rbind].
  rewrite (mean_lists n (width b)), (m2_lists n (width b)) by assumption.
  reflexivity.
Qed.

End OnlineMoments.

Section LoaderLoop.

Local Open Scope R_scope.
Import ImagePair.

Lemma length_append_rows (seen rs : list (list R)) :
  length rs = length seen -> length (append_rows seen rs) = length seen.
Proof.
  intros H. unfold append_rows.
  rewrite List.length_map, List.length_combine. lia.
Qed.

Lemma nth_append_rows (seen rs : list (list R)) (ch : nat) :
  length rs = length seen ->
  nth ch (append_rows seen rs) [] = nth ch seen [] ++ nth ch rs [].
Proof.
  unfold append_rows. revert rs ch.
  induction seen as [|a seen IH]; intros [|row rs] ch Hlen; try discriminate Hlen.
  - destruct ch; reflexivity.
  - destruct ch as [|ch]; [reflexivity|].
    cbn [combine map nth]. apply IH. simpl in Hlen. lia.
Qed.

Lemma Forall_append_rows (n w : nat) (seen rs : list (list R)) :
  length rs = length seen ->
  Forall (fun a => length a = n) seen -> Forall (fun row => length row = w) rs ->
  Forall (fun a => length a = (n + w)%nat) (append_rows seen rs).
Proof.
  intros Hlen Hs. unfold append_rows. revert rs Hlen.
  induction Hs as [|a seen Ha _ IH]; intros [|row rs] Hlen Hrs;
    try discriminate Hlen; [constructor|].
  inversion Hrs as [|? ? Hrow Hrs']; subst.
  cbn [combine map fst snd]. constructor.
  - rewrite List.length_app. reflexivity.
  - apply IH; [simpl in Hlen; lia|assumption].
Qed.

Lemma fold_pixel_count (loader : list (flat_batch * flat_batch)) (k : nat) :
  fold_left (fun k data => (k + width (fst data) + width (snd data))%nat) loader k
  = (k + pixel_count loader)%nat.
Proof.
  unfold pixel_count. revert k.
  induction loader as [|data loader IH] using rev_ind; intros k; [simpl; lia|].
  rewrite !fold_left_app. cbn [fold_left]. rewrite IH. lia.
Qed.

Lemma loop_moments (c : nat) (loader : list (flat_batch * flat_batch)) :
  Forall (fun data => well_formed_batch c (fst data) /\ well_formed_batch c (snd data))
         loader ->
  forall (n : nat) (seen : list (list R)),
    length seen = c -> Forall (fun a => length a = n) seen ->
    fold_left (fun acc data =>
                 (let! st := acc in
                  let! st := update_online_moments st (fst data) in
                  update_online_moments st (snd data))%result)
              loader (Ok (moments_of n seen))
    = Ok (moments_of (n + pixel_count loader) (seen_after seen loader))
    /\ length (seen_after seen loader) = c
    /\ Forall (fun a => length a = (n + pixel_count loader)%nat)
              (seen_after seen loader).
Proof.
  induction 1 as [|data loader [[Hc1 [Hw1 Hr1]] [Hc2 [Hw2 Hr2]]] _ IH];
    intros n seen Hlen Hseen.
  - cbn [fold_left seen_after]. unfold pixel_count. cbn [fold_left].
    rewrite Nat.add_0_r. auto.
  - cbn [fold_left rbind]. unfold seen_after. cbn [fold_left].
    fold (seen_after (append_rows (append_rows seen (rows (fst data)))
                                  (rows (snd data))) loader).
    assert (L1 : length (append_rows seen (rows (fst data))) = c)
      by (rewrite length_append_rows; congruence).
    rewrite update_step
      by (try assumption; rewrite Hlen; repeat split; assumption).
    cbn [rbind].
    rewrite update_step;
      [|rewrite L1; repeat split; assumption
       |apply Forall_append_rows; (assumption || congruence)].
    assert (L2 : length (append_rows (append_rows seen (rows (fst data)))
                                     (rows (snd data))) = c)
      by (rewrite length_append_rows; congruence).
    destruct (IH (n + width (fst data) + width (snd data))%nat _ L2) as [E [E1 E2]].
    { apply Forall_append_rows; [congruence| |assumption].
      apply Forall_append_rows; (assumption || congruence). }
    unfold pixel_count. cbn [fold_left]. rewrite fold_pixel_count.
    rewrite E. cbn [Nat.add].
    replace (n + width (fst data) + width (snd data) + pixel_count loader)%nat
      with (n + (width (fst data) + width (snd data) + pixel_count loader))%nat in *
      by lia.
    auto.
Qed.

Lemma nth_seen_after (c : nat) (loader : list (flat_batch * flat_batch)) :
  Forall (fun data => well_formed_batch c (fst data) /\ well_formed_batch c (snd data))
         loader ->
  forall (seen : list (list R)) (ch : nat),
    length seen = c ->
    nth ch (seen_after seen loader) [] = nth ch seen [] ++ channel_pixels ch loader.
Proof.
  induction 1 as [|data loader [[Hc1 _] [Hc2 _]] _ IH]; intros seen ch Hlen.
  - cbn. rewrite List.app_nil_r. reflexivity.
  - unfold seen_after. cbn [fold_left].
    fold (seen_after (append_rows (append_rows seen (rows (fst data)))
                                  (rows (snd data))) loader).
    rewrite IH by (rewrite !length_append_rows; rewrite ?length_append_rows; congruence).
    rewrite !nth_append_rows by (rewrite ?length_append_rows; congruence).
    cbn [channel_pixels flat_map]. rewrite <- !List.app_assoc. reflexivity.
Qed.

Lemma squared_deviations_nonneg (mu : R) (l : list R) : 0 <= squared_deviations mu l.
Proof.
  unfold squared_deviations. induction l as [|x l IH].
  - change (rsum (map _ [])) with 0. lra.
  - cbn [map]. rewrite rsum_cons.
    pose proof (Rle_0_sqr (x - mu)) as H. unfold Rsqr in H. lra.
Qed.


Lemma map_repeat_const {A B : Type} (f : A -> B) (x : A) (n : nat) :
  map f (repeat x n) = repeat (f x) n.
Proof. induction n as [|n IH]; [reflexivity|]. simpl. rewrite IH. reflexivity. Qed.

End LoaderLoop.

(** X21: with the float operations read as operations on real numbers,
    [mean_std_dev_dataset] computes, by the pairwise update of the
    running mean and of the running sum of squared deviations, the mean and
    the unbiased sample standard deviation of all pixel values of each
    channel: on a non-empty loader whose image tensors all have [c]
    channels and at least two pixels per channel, the result for channel
    [ch] is the arithmetic mean of the pixels of [ch] over both images of
    all batches, and the square root of their summed squared deviations
    from that mean divided by their number minus one. *)
Theorem X21_mean_std_dev_of_all_pixels
    (c : nat) (loader : list (ImagePair.flat_batch * ImagePair.flat_batch)) :
  loader <> [] ->
  Forall (fun data => well_formed_batch c (fst data) /\ well_formed_batch c (snd data))
         loader ->
  ImagePair.mean_std_dev_dataset c loader
  = Ok (map (fun ch => Fin (average (channel_pixels ch loader))) (seq 0 c),
        map (fun ch => Fin (sample_std_dev (channel_pixels ch loader))) (seq 0 c)).
Proof.
  intros Hne Hwf. unfold ImagePair.mean_std_dev_dataset.
  assert (Hinit : {| ImagePair.n_old_px := 0;
                     ImagePair.mean := repeat (Fin 0%R) c;
                     ImagePair.m2 := repeat (Fin 0%R) c |}
                  = moments_of 0 (repeat [] c)).
  { unfold moments_of. rewrite !map_repeat_const. reflexivity. }
  rewrite Hinit.
  destruct (loop_moments c loader Hwf 0 (repeat [] c)) as [E [Hlen Hall]].
  { apply repeat_length. }
  { apply List.Forall_forall. intros a Ha. apply repeat_spec in Ha. subst a.
    reflexivity. }
  rewrite E. cbn [rbind Nat.add]. cbn [Nat.add] in Hall.
  assert (Hcount : 2 <= pixel_count loader).
  { destruct loader as [|data loader]; [contradiction|].
    inversion Hwf as [|? ? [[_ [Hw1 _]] _] _]; subst.
    unfold pixel_count. cbn [fold_left]. rewrite fold_pixel_count. lia. }
  assert (Hnth : forall ch, ch < c ->
            nth ch (seen_after (repeat [] c) loader) [] = channel_pixels ch loader).
  { intros ch Hch. rewrite (nth_seen_after c) by (assumption || apply repeat_length).
    rewrite nth_repeat. reflexivity. }
  assert (Hlenpx : forall ch, ch < c ->
            length (channel_pixels ch loader) = pixel_count loader).
  { intros ch Hch. rewrite <- Hnth by assumption.
    rewrite List.Forall_forall in Hall. apply Hall. apply nth_In. lia. }
  unfold moments_of. cbn [ImagePair.n_old_px ImagePair.mean ImagePair.m2].
  rewrite <- (map_nth_seq_id [] (seen_after (repeat [] c) loader)), Hlen.
  rewrite !List.map_map. f_equal. f_equal.
  - apply map_ext_in. intros ch Hch. apply in_seq in Hch.
    rewrite Hnth by lia. f_equal. unfold running_mean, average.
    destruct (channel_pixels ch loader) as [|x l] eqn:Epx; [|reflexivity].
    pose proof (Hlenpx ch ltac:(lia)) as Hl. rewrite Epx in Hl. simpl in Hl. lia.
  - apply map_ext_in. intros ch Hch. apply in_seq in Hch.
    rewrite Hnth by lia.
    assert (Hgt : (1 < INR (pixel_count loader))%R) by (apply (lt_INR 1); lia).
    rewrite ndiv_fin by lra. unfold ImagePair.nsqrt.
    assert (Hrm : running_mean (channel_pixels ch loader)
                  = average (channel_pixels ch loader)).
    { unfold running_mean, average.
      destruct (channel_pixels ch loader) as [|x l] eqn:Epx; [|reflexivity].
      pose proof (Hlenpx ch ltac:(lia)) as Hl. rewrite Epx in Hl. simpl in Hl. lia. }
    destruct (Rle_dec 0 _) as [_|Hneg].
    + f_equal. unfold sample_std_dev, squared_deviations.
      rewrite Hrm, Hlenpx by lia. reflexivity.
    + exfalso. apply Hneg. apply Rmult_le_pos.
      * apply squared_deviations_nonneg.
      * left. apply Rinv_0_lt_compat. lra.
Qed.

Lemma example_loader_well_formed :
  Forall (fun data => well_formed_batch 1 (fst data) /\ well_formed_batch 1 (snd data))
         example_loader.
Proof.
  repeat constructor.
Qed.

Lemma X21_mean_std_dev_of_all_pixels_witness :
  ImagePair.mean_std_dev_dataset 1 example_loader
  = Ok (map (fun ch => Fin (average (channel_pixels ch example_loader))) (seq 0 1),
        map (fun ch => Fin (sample_std_dev (channel_pixels ch example_loader)))
            (seq 0 1)).
Proof.
  apply (X21_mean_std_dev_of_all_pixels 1 example_loader).
  - discriminate.
  - exact example_loader_well_formed.
Defined.

(** * The padding of the virtual points *)

Lemma firstn_cyclic (v : list nat) (n m : nat) :
  n <= m -> firstn n (cyclic v m) = cyclic v n.
Proof.
  intros H. unfold cyclic. rewrite List.firstn_map, take_seq.
  replace (Nat.min n m) with n by lia. reflexivity.
Qed.

Lemma length_cyclic (v : list nat) (n : nat) : length (cyclic v n) = n.
Proof. unfold cyclic. rewrite List.length_map, List.length_seq. reflexivity. Qed.

Lemma cyclic_app (v : list nat) (q b : nat) :
  cyclic v (q * length v) ++ cyclic v b = cyclic v (q * length v + b).
Proof.
  unfold cyclic. rewrite seq_app, List.map_app. f_equal.
  cbn [Nat.add]. rewrite (map_seq_shift _ (q * length v) b).
  apply map_ext. intros i.
  rewrite Nat.add_comm, Nat.Div0.mod_add. reflexivity.
Qed.

Lemma cyclic_self (v : list nat) : cyclic v (length v) = v.
Proof.
  unfold cyclic.
  transitivity (map (fun i => nth i v 0) (seq 0 (length v)));
    [|apply map_nth_seq_id].
  apply map_ext_in. intros i Hi. apply in_seq in Hi.
  rewrite Nat.mod_small by lia. reflexivity.
Qed.

Lemma pad_full (v : list nat) (num fuel : nat) :
  FundamentalMatrixPair.pad_valid_idx fuel num (cyclic v num) = Some (cyclic v num).
Proof.
  destruct fuel; cbn [FundamentalMatrixPair.pad_valid_idx];
    rewrite length_cyclic, Nat.ltb_irrefl;
    rewrite firstn_all2 by (rewrite length_cyclic; lia); reflexivity.
Qed.

Lemma pad_cyclic (v : list nat) (num : nat) :
  1 <= length v ->
  forall (fuel q : nat),
    1 <= q -> num - q * length v <= fuel ->
    FundamentalMatrixPair.pad_valid_idx fuel num (cyclic v (q * length v))
    = Some (cyclic v num).
Proof.
  intros Hv. induction fuel as [|fuel IH]; intros q Hq Hfuel.
  - cbn [FundamentalMatrixPair.pad_valid_idx]. rewrite length_cyclic.
    replace (q * length v <? num) with false by (symmetry; apply Nat.ltb_ge; lia).
    rewrite firstn_cyclic by lia. reflexivity.
  - cbn [FundamentalMatrixPair.pad_valid_idx]. rewrite length_cyclic.
    destruct (Nat.ltb_spec (q * length v) num) as [Hlt|Hge].
    + destruct (Nat.le_gt_cases (q * length v) (num - q * length v)) as [Hbig|Hsmall].
      * rewrite firstn_all2 by (rewrite length_cyclic; assumption).
        rewrite cyclic_app.
        replace (q * length v + q * length v) with ((2 * q) * length v) by lia.
        apply IH; nia.
      * rewrite firstn_cyclic by lia. rewrite cyclic_app.
        replace (q * length v + (num - q * length v)) with num by lia.
        apply pad_full.
    + rewrite firstn_cyclic by lia. reflexivity.
Qed.

(** X22: the padding loop of [generate_virtual_points].  When at least one
    point is valid, the loop ends (after at most [num_points_eval] rounds)
    and leaves exactly [num_points_eval] indices: the valid indices repeated
    cyclically, element [i] being the valid index number
    [i mod len(valid_idx)].  When no point is valid and points are asked
    for, the loop never ends: it appends nothing in every round. *)
Theorem X22_virtual_point_padding (num_points_eval : nat) (valid_idx : list nat) :
  (valid_idx <> [] ->
   forall fuel, num_points_eval <= fuel ->
     FundamentalMatrixPair.pad_valid_idx fuel num_points_eval valid_idx
     = Some (cyclic valid_idx num_points_eval))
  /\ (0 < num_points_eval ->
      forall fuel,
        FundamentalMatrixPair.pad_valid_idx fuel num_points_eval [] = None).
Proof.
  split.
  - intros Hne fuel Hfuel.
    assert (Hv : 1 <= length valid_idx) by (destruct valid_idx; [contradiction|simpl; lia]).
    rewrite <- (cyclic_self valid_idx) at 1.
    replace (length valid_idx) with (1 * length valid_idx) at 1 by lia.
    apply pad_cyclic; lia.
  - intros Hnum fuel. induction fuel as [|fuel IH];
      cbn [FundamentalMatrixPair.pad_valid_idx length];
      replace (0 <? num_points_eval) with true by (symmetry; apply Nat.ltb_lt; lia).
    + reflexivity.
    + rewrite List.firstn_nil. exact IH.
Qed.

(** * The TUM index *)

Section TumIndex.

Import TUMMonocularStereoPairs.

Lemma list_sum_cons (x : nat) (l : list nat) : list_sum (x :: l) = x + list_sum l.
Proof. reflexivity. Qed.

Lemma pairs_before_S (lens : list nat) (k : nat) :
  k < length lens -> pairs_before lens (S k) = pairs_before lens k + nth k lens 0.
Proof.
  unfold pairs_before. revert k. induction lens as [|x lens IH]; intros k Hk.
  - simpl in Hk. lia.
  - destruct k as [|k]; [simpl; lia|].
    change (firstn (S (S k)) (x :: lens)) with (x :: firstn (S k) lens).
    change (firstn (S k) (x :: lens)) with (x :: firstn k lens).
    change (nth (S k) (x :: lens) 0) with (nth k lens 0).
    rewrite !list_sum_cons, (IH k) by (simpl in Hk; lia). lia.
Qed.

Lemma pairs_before_mono (lens : list nat) (i j : nat) :
  i <= j -> pairs_before lens i <= pairs_before lens j.
Proof.
  intros H. induction H as [|j _ IH]; [lia|].
  destruct (Nat.lt_ge_cases j (length lens)) as [Hj|Hj].
  - rewrite pairs_before_S by assumption. lia.
  - assert (E1 : pairs_before lens (S j) = list_sum lens)
      by (unfold pairs_before; rewrite firstn_all2 by lia; reflexivity).
    assert (E2 : pairs_before lens j = list_sum lens)
      by (unfold pairs_before; rewrite firstn_all2 by lia; reflexivity).
    lia.
Qed.

Lemma pairs_before_all (lens : list nat) :
  pairs_before lens (length lens) = list_sum lens.
Proof. unfold pairs_before. rewrite firstn_all. reflexivity. Qed.

(** The in-place loop computes the prefix sums. *)
Lemma accumulate_nth (lens : list nat) :
  length (accumulate lens) = length lens
  /\ forall i, i < length lens -> nth i (accumulate lens) 0 = pairs_before lens (S i).
Proof.
  unfold accumulate.
  assert (G : forall k, k < length lens \/ (k = 0 /\ lens = []) ->
    let cs := fold_left (fun cs i =>
                           match cs !! i, cs !! (i - 1) with
                           | Some x, Some y => <[i := x + y]> cs
                           | _, _ => cs
                           end) (seq 1 k) lens in
    length cs = length lens
    /\ forall i, i < length lens ->
         nth i cs 0 = if i <=? k then pairs_before lens (S i) else nth i lens 0).
  { induction k as [|k IH]; intros Hk; cbv zeta.
    - cbn [seq fold_left]. split; [reflexivity|]. intros i Hi.
      destruct (Nat.leb_spec i 0); [|reflexivity].
      assert (i = 0) by lia. subst i.
      rewrite pairs_before_S by assumption. unfold pairs_before. simpl. reflexivity.
    - rewrite seq_S, fold_left_app. cbn [fold_left Nat.add].
      destruct IH as [Hlen Hnth]; [left; lia|].
      destruct Hk as [Hk|[Hk _]]; [|discriminate].
      set (cs := fold_left _ (seq 1 k) lens) in *.
      replace (S k - 1) with k by lia.
      destruct (cs !! S k) as [x|] eqn:Ex;
        [|apply lookup_ge_None in Ex; lia].
      destruct (cs !! k) as [y|] eqn:Ey;
        [|apply lookup_ge_None in Ey; lia].
      assert (Hx : x = nth (S k) lens 0).
      { pose proof (Hnth (S k) Hk) as H. rewrite (nth_lookup_Some _ _ _ _ Ex) in H.
        destruct (Nat.leb_spec (S k) k); [lia|]. exact H. }
      assert (Hy : y = pairs_before lens (S k)).
      { pose proof (Hnth k ltac:(lia)) as H. rewrite (nth_lookup_Some _ _ _ _ Ey) in H.
        rewrite Nat.leb_refl in H. exact H. }
      split; [rewrite length_insert; assumption|].
      intros i Hi. rewrite nth_insert, Hlen.
      destruct (Nat.eqb_spec i (S k)) as [->|Hne].
      + replace (S k <? length lens) with true by (symmetry; apply Nat.ltb_lt; lia).
        cbn [andb]. rewrite Nat.leb_refl.
        rewrite (pairs_before_S lens (S k)) by assumption. lia.
      + cbn [andb]. rewrite Hnth by assumption.
        destruct (Nat.leb_spec i k), (Nat.leb_spec i (S k)); try lia; reflexivity. }
  destruct lens as [|x lens].
  - cbn. split; [reflexivity|]. intros i Hi. simpl in Hi. lia.
  - destruct (G (length (x :: lens) - 1)) as [Hlen Hnth]; [left; simpl; lia|].
    split; [exact Hlen|]. intros i Hi. rewrite Hnth by assumption.
    destruct (Nat.leb_spec i (length (x :: lens) - 1)); [reflexivity|].
    simpl in *. lia.
Qed.


(** On a sorted list the search returns the position after the last element
    that is not greater than [x]. *)
Lemma bisect_loop_spec (a : list nat) (x : Z) :
  (forall i j, i <= j -> j < length a -> nth i a 0 <= nth j a 0) ->
  forall fuel lo hi,
    lo <= hi -> hi <= length a -> hi - lo <= fuel ->
    (forall i, i < lo -> (Z.of_nat (nth i a 0%nat) <= x)%Z) ->
    (forall i, hi <= i -> i < length a -> (x < Z.of_nat (nth i a 0%nat))%Z) ->
    let r := bisect_loop fuel a x lo hi in
    r <= length a
    /\ (forall i, i < r -> (Z.of_nat (nth i a 0%nat) <= x)%Z)
    /\ (forall i, r <= i -> i < length a -> (x < Z.of_nat (nth i a 0%nat))%Z).
Proof.
  intros Hsorted. induction fuel as [|fuel IH]; intros lo hi Hlh Hhi Hfuel Hlo Hup.
  - cbn [bisect_loop]. assert (lo = hi) by lia. subst hi. auto with zarith.
  - cbn [bisect_loop]. destruct (Nat.ltb_spec lo hi) as [Hlt|Hge].
    + assert (Hmid : lo <= (lo + hi) / 2 < hi).
      { split.
        - apply Nat.div_le_lower_bound; lia.
        - apply Nat.Div0.div_lt_upper_bound; lia. }
      destruct (Z.ltb_spec x (Z.of_nat (nth ((lo + hi) / 2) a 0%nat))) as [Hx|Hx].
      * apply IH; try lia; try assumption.
        intros i Hi Hia. pose proof (Hsorted ((lo + hi) / 2) i Hi Hia). lia.
      * apply IH; try lia; try assumption.
        intros i Hi. pose proof (Hsorted i ((lo + hi) / 2)). lia.
    + assert (lo = hi) by lia. subst hi. auto with zarith.
Qed.

Lemma accumulate_sorted (lens : list nat) (i j : nat) :
  i <= j -> j < length (accumulate lens) ->
  nth i (accumulate lens) 0 <= nth j (accumulate lens) 0.
Proof.
  destruct (accumulate_nth lens) as [Hlen Hnth]. rewrite Hlen. intros Hij Hj.
  rewrite !Hnth by lia. apply pairs_before_mono. lia.
Qed.

Lemma bisect_accumulate (lens : list nat) (x : Z) :
  let r := bisect_right (accumulate lens) x in
  r <= length lens
  /\ (forall i, i < r -> (Z.of_nat (pairs_before lens (S i)) <= x)%Z)
  /\ (forall i, r <= i -> i < length lens -> (x < Z.of_nat (pairs_before lens (S i)))%Z).
Proof.
  destruct (accumulate_nth lens) as [Hlen Hnth]. cbv zeta.
  destruct (bisect_loop_spec (accumulate lens) x (accumulate_sorted lens)
              (length (accumulate lens)) 0 (length (accumulate lens)))
    as [H1 [H2 H3]]; try lia.
  fold (bisect_right (accumulate lens) x) in H1, H2, H3.
  rewrite Hlen in *. split; [assumption|]. split.
  - intros i Hi. rewrite <- Hnth by lia. apply H2. assumption.
  - intros i Hi Hil. rewrite <- Hnth by lia. apply H3; assumption.
Qed.

Lemma py_index_last (d : nat) : 1 <= d -> py_index (-1) d = Ok (d - 1).
Proof.
  intros Hd. unfold py_index. cbn [Z.leb Z.compare andb].
  replace ((- Z.of_nat d <=? -1)%Z) with true by (symmetry; apply Z.leb_le; lia).
  cbn [andb Z.ltb Z.compare]. f_equal. lia.
Qed.

Lemma len_accumulate (lens : list nat) :
  lens <> [] -> __len__ (accumulate lens) = Ok (list_sum lens).
Proof.
  intros Hne. destruct (accumulate_nth lens) as [Hlen Hnth].
  assert (Hpos : 1 <= length lens) by (destruct lens; [contradiction|simpl; lia]).
  unfold __len__. rewrite Hlen, py_index_last by assumption. cbn [rbind].
  rewrite Hnth by lia.
  replace (S (length lens - 1)) with (length lens) by lia.
  rewrite pairs_before_all. reflexivity.
Qed.

End TumIndex.

(** X23: the TUM data set is the concatenation of its generators.  With
    the generators' lengths [lens] (at least one generator), [__len__] is
    their sum; for [0 <= index < len] the lookup chooses the generator [g]
    that holds the pair and asks it for position [index] minus the number of
    pairs of the generators before [g], a position inside [g] (empty
    generators are skipped); an index at or beyond the length raises
    [IndexError]; a negative index is not counted from the end of the data
    set: it is handed unchanged to the first generator. *)
Theorem X23_tum_index_locates_pair (lens : list nat) (index : Z) :
  lens <> [] ->
  let cum_sum := TUMMonocularStereoPairs.accumulate lens in
  TUMMonocularStereoPairs.__len__ cum_sum = Ok (list_sum lens)
  /\ ((0 <= index < Z.of_nat (list_sum lens))%Z ->
      exists g local,
        TUMMonocularStereoPairs.__getitem__ cum_sum index = Ok (g, Z.of_nat local)
        /\ g < length lens
        /\ local < nth g lens 0
        /\ index = Z.of_nat (pairs_before lens g + local))
  /\ ((Z.of_nat (list_sum lens) <= index)%Z ->
      TUMMonocularStereoPairs.__getitem__ cum_sum index = Raise IndexError)
  /\ ((index < 0)%Z ->
      TUMMonocularStereoPairs.__getitem__ cum_sum index = Ok (0, index)).
Proof.
  intros Hne cum_sum. subst cum_sum.
  pose proof (len_accumulate lens Hne) as Hlen'.
  destruct (accumulate_nth lens) as [Hlen Hnth].
  destruct (bisect_accumulate lens index) as [Hr [Hbelow Habove]].
  assert (Hpos : 1 <= length lens) by (destruct lens; [contradiction|simpl; lia]).
  assert (Htotal : pairs_before lens (S (length lens - 1)) = list_sum lens).
  { replace (S (length lens - 1)) with (length lens) by lia. apply pairs_before_all. }
  split; [assumption|]. split; [|split].
  - intros [H0 Hlt].
    set (g := TUMMonocularStereoPairs.bisect_right
                (TUMMonocularStereoPairs.accumulate lens) index) in *.
    assert (Hg : g < length lens).
    { destruct (Nat.lt_ge_cases g (length lens)) as [H|H]; [assumption|].
      pose proof (Hbelow (length lens - 1) ltac:(lia)) as Hb.
      rewrite Htotal in Hb. lia. }
    assert (Hbase : (Z.of_nat (pairs_before lens g) <= index)%Z).
    { destruct g as [|g']; [unfold pairs_before; simpl; lia|].
      apply Hbelow. lia. }
    pose proof (Habove g ltac:(lia) Hg) as Hup.
    rewrite pairs_before_S in Hup by assumption.
    exists g, (Z.to_nat (index - Z.of_nat (pairs_before lens g))).
    unfold TUMMonocularStereoPairs.__getitem__. rewrite Hlen'. cbn [rbind].
    replace (Z.of_nat (list_sum lens) <=? index)%Z with false
      by (symmetry; apply Z.leb_gt; lia).
    fold g. rewrite Hlen.
    replace (g <? length lens) with true by (symmetry; apply Nat.ltb_lt; assumption).
    destruct (Nat.ltb_spec 0 g) as [Hg0|Hg0].
    + destruct (TUMMonocularStereoPairs.accumulate lens !! (g - 1)) as [b|] eqn:Eb;
        [|apply lookup_ge_None in Eb; lia].
      assert (b = pairs_before lens g).
      { pose proof (Hnth (g - 1) ltac:(lia)) as H.
        rewrite (nth_lookup_Some _ _ _ _ Eb) in H.
        replace (S (g - 1)) with g in H by lia. exact H. }
      subst b. cbn [rbind]. repeat split; try lia.
      f_equal. f_equal. lia.
    + assert (g = 0) by lia. cbn [rbind].
      replace (pairs_before lens g) with 0 in * by (subst g; rewrite H; reflexivity).
      repeat split; try lia. f_equal. f_equal. lia.
  - intros Hge. unfold TUMMonocularStereoPairs.__getitem__. rewrite Hlen'.
    cbn [rbind].
    replace (Z.of_nat (list_sum lens) <=? index)%Z with true
      by (symmetry; apply Z.leb_le; lia).
    reflexivity.
  - intros Hneg.
    set (g := TUMMonocularStereoPairs.bisect_right
                (TUMMonocularStereoPairs.accumulate lens) index) in *.
    assert (Hg : g = 0).
    { destruct g as [|g']; [reflexivity|].
      pose proof (Hbelow 0 ltac:(lia)). lia. }
    unfold TUMMonocularStereoPairs.__getitem__. rewrite Hlen'. cbn [rbind].
    replace (Z.of_nat (list_sum lens) <=? index)%Z with false
      by (symmetry; apply Z.leb_gt; lia).
    fold g. rewrite Hg, Hlen.
    replace (0 <? length lens) with true by (symmetry; apply Nat.ltb_lt; lia).
    rewrite Nat.ltb_irrefl. cbn [rbind]. f_equal. f_equal. lia.
Qed.

Lemma X23_tum_index_locates_pair_witness :
  TUMMonocularStereoPairs.__len__ (TUMMonocularStereoPairs.accumulate example_lengths)
  = Ok (list_sum example_lengths)
  /\ ((0 <= 3 < Z.of_nat (list_sum example_lengths))%Z ->
      exists g local,
        TUMMonocularStereoPairs.__getitem__
          (TUMMonocularStereoPairs.accumulate example_lengths) 3
        = Ok (g, Z.of_nat local)
        /\ g < length example_lengths
        /\ local < nth g example_lengths 0
        /\ 3%Z = Z.of_nat (pairs_before example_lengths g + local))
  /\ ((Z.of_nat (list_sum example_lengths) <= 3)%Z ->
      TUMMonocularStereoPairs.__getitem__
        (TUMMonocularStereoPairs.accumulate example_lengths) 3
      = Raise IndexError)
  /\ ((3 < 0)%Z ->
      TUMMonocularStereoPairs.__getitem__
        (TUMMonocularStereoPairs.accumulate example_lengths) 3
      = Ok (0, 3%Z)).
Proof.
  apply (X23_tum_index_locates_pair example_lengths 3). discriminate.
Defined.

(** * The TUM splits *)

(** X24: the splits of the TUM data set.  A split other than [None],
    ["train"], ["validation"] and ["test"] raises [ValueError]; [None] is
    the training split.  The training split (sequences 1, 2, 3, 48, 49, 50)
    shares no sequence with the other two, but the validation split
    (sequences 5 to 46) and the test split (sequences 5 and 47) share
    [sequence_05], and [sequence_04] is in no split. *)
Theorem X24_tum_splits :
  (forall split,
     TUMSplits.split_sequences split = Raise ValueError
     <-> split <> None /\ split <> Some "train"
         /\ split <> Some "validation" /\ split <> Some "test")
  /\ TUMSplits.split_sequences None = TUMSplits.split_sequences (Some "train")
  /\ TUMSplits.split_sequences (Some "train")
     = Ok (map TUMSplits.sequence_name [1; 2; 3; 48; 49; 50])
  /\ TUMSplits.split_sequences (Some "validation")
     = Ok (map TUMSplits.sequence_name (seq 5 42))
  /\ TUMSplits.split_sequences (Some "test")
     = Ok (map TUMSplits.sequence_name [5; 47])
  /\ shared TUMSplits.train_sequences TUMSplits.validation_sequences = []
  /\ shared TUMSplits.train_sequences TUMSplits.test_sequences = []
  /\ shared TUMSplits.test_sequences TUMSplits.validation_sequences
     = ["sequence_05"]
  /\ filter (fun s => negb (existsb (String.eqb s)
                             (TUMSplits.train_sequences
                              ++ TUMSplits.validation_sequences
                              ++ TUMSplits.test_sequences)))
            TUMSplits.all_sequences
     = ["sequence_04"].
Proof.
  split; [|repeat split; vm_compute; reflexivity].
  intros [s|]; cbn [TUMSplits.split_sequences].
  - destruct (String.eqb_spec s "train") as [->|H1].
    { split; [discriminate|]. intros (_ & H & _). congruence. }
    destruct (String.eqb_spec s "validation") as [->|H2].
    { split; [discriminate|]. intros (_ & _ & H & _). congruence. }
    destruct (String.eqb_spec s "test") as [->|H3].
    { split; [discriminate|]. intros (_ & _ & _ & H). congruence. }
    split; [|reflexivity]. intros _. repeat split; congruence.
  - split; [discriminate|]. intros (H & _). congruence.
Qed.

(** * The HPatches index *)

Section HPatchesIndex.

Import HPatches.

Lemma pairs_order_in (i j : nat) : In (i, j) _pairs_order <-> i < j < 6.
Proof.
  split.
  - intros H. vm_compute in H.
    repeat (destruct H as [H|H]; [injection H as <- <-; lia|]). contradiction.
  - intros [Hij Hj].
    do 6 (destruct i as [|i]; [do 6 (destruct j as [|j]; [try lia; vm_compute; tauto|]); lia|]).
    lia.
Qed.

Lemma pairs_order_NoDup : NoDup _pairs_order.
Proof.
  apply (bool_decide_unpack (NoDup _pairs_order)). vm_compute. exact I.
Qed.

Lemma py_index_in_range (i : Z) (d : nat) :
  (0 <= i < Z.of_nat d)%Z -> py_index i d = Ok (Z.to_nat i).
Proof.
  intros H. unfold py_index.
  replace ((0 <=? i)%Z) with true by (symmetry; apply Z.leb_le; lia).
  replace ((i <? Z.of_nat d)%Z) with true by (symmetry; apply Z.ltb_lt; lia).
  reflexivity.
Qed.

Lemma py_index_from_end (i : Z) (d : nat) :
  (- Z.of_nat d <= i < 0)%Z -> py_index i d = Ok (Z.to_nat (i + Z.of_nat d)).
Proof.
  intros H. unfold py_index.
  replace ((0 <=? i)%Z) with false by (symmetry; apply Z.leb_gt; lia).
  replace ((- Z.of_nat d <=? i)%Z) with true by (symmetry; apply Z.leb_le; lia).
  replace ((i <? 0)%Z) with true by (symmetry; apply Z.ltb_lt; lia).
  reflexivity.
Qed.

Lemma py_index_out_of_range (i : Z) (d : nat) :
  (i < - Z.of_nat d \/ Z.of_nat d <= i)%Z -> py_index i d = Raise IndexError.
Proof.
  intros H. unfold py_index.
  destruct (Z.leb_spec 0 i), (Z.ltb_spec i (Z.of_nat d)),
    (Z.leb_spec (- Z.of_nat d) i), (Z.ltb_spec i 0); cbn [andb]; try reflexivity; lia.
Qed.

Lemma getitem_in_range (n_sequences : nat) (index : Z) :
  (0 <= index < Z.of_nat (__len__ n_sequences))%Z ->
  __getitem__ n_sequences index
  = Ok (Z.to_nat (index / 15), nth (Z.to_nat (index mod 15)) _pairs_order (0, 0))
  /\ Z.to_nat (index / 15) < n_sequences
  /\ Z.to_nat (index mod 15) < 15.
Proof.
  unfold __len__, pairs_per_sequence. intros H.
  pose proof (Z.mod_pos_bound index 15 ltac:(lia)) as Hm.
  pose proof (Z.div_mod index 15 ltac:(lia)) as Hd.
  assert (Hq : (0 <= index / 15 < Z.of_nat n_sequences)%Z).
  { split; [apply Z.div_pos; lia|]. apply Z.div_lt_upper_bound; lia. }
  unfold __getitem__, generator_getitem, pairs_per_sequence.
  change (Z.of_nat 15) with 15%Z.
  rewrite py_index_in_range by assumption. cbn [rbind].
  change (length _pairs_order) with 15.
  rewrite py_index_in_range by (change (Z.of_nat 15) with 15%Z; lia).
  cbn [rbind]. split; [reflexivity|]. lia.
Qed.

End HPatchesIndex.

(** X25: the HPatches data set is indexed like the flat list of the pairs
    of its sequences.  [_pairs_order] holds exactly the pairs [i < j] of the
    six images, each once, [pairs_per_sequence] of them.  Index
    [15 * s + p] returns pair number [p] of sequence [s]; different indices
    below the length return different pairs, and every pair of every
    sequence has an index; an index from [-len] up to [-1] counts from the
    end as in a Python list; any other index raises [IndexError]. *)
Theorem X25_hpatches_index (n_sequences : nat) :
  (forall i j, In (i, j) HPatches._pairs_order <-> i < j < 6)
  /\ NoDup HPatches._pairs_order
  /\ length HPatches._pairs_order = HPatches.pairs_per_sequence
  /\ (forall s p, s < n_sequences -> p < HPatches.pairs_per_sequence ->
        HPatches.__getitem__ n_sequences (Z.of_nat (15 * s + p))
        = Ok (s, nth p HPatches._pairs_order (0, 0)))
  /\ (forall index index',
        (0 <= index < Z.of_nat (HPatches.__len__ n_sequences))%Z ->
        (0 <= index' < Z.of_nat (HPatches.__len__ n_sequences))%Z ->
        HPatches.__getitem__ n_sequences index
        = HPatches.__getitem__ n_sequences index' ->
        index = index')
  /\ (forall s i j, s < n_sequences -> i < j < 6 ->
        exists index,
          (0 <= index < Z.of_nat (HPatches.__len__ n_sequences))%Z
          /\ HPatches.__getitem__ n_sequences index = Ok (s, (i, j)))
  /\ (forall index,
        (- Z.of_nat (HPatches.__len__ n_sequences) <= index < 0)%Z ->
        HPatches.__getitem__ n_sequences index
        = HPatches.__getitem__ n_sequences
            (index + Z.of_nat (HPatches.__len__ n_sequences)))
  /\ (forall index,
        (index < - Z.of_nat (HPatches.__len__ n_sequences)
         \/ Z.of_nat (HPatches.__len__ n_sequences) <= index)%Z ->
        HPatches.__getitem__ n_sequences index = Raise IndexError).
Proof.
  split; [exact pairs_order_in|]. split; [exact pairs_order_NoDup|].
  split; [reflexivity|].
  assert (Hat : forall s p, s < n_sequences -> p < 15 ->
            HPatches.__getitem__ n_sequences (Z.of_nat (15 * s + p))
            = Ok (s, nth p HPatches._pairs_order (0, 0))).
  { intros s p Hs Hp.
    destruct (getitem_in_range n_sequences (Z.of_nat (15 * s + p))) as [E _].
    { unfold HPatches.__len__, HPatches.pairs_per_sequence. lia. }
    rewrite E.
    assert (Hq : (Z.of_nat (15 * s + p) / 15 = Z.of_nat s)%Z).
    { symmetry. apply (Z.div_unique _ 15 _ (Z.of_nat p)); lia. }
    assert (Hr : (Z.of_nat (15 * s + p) mod 15 = Z.of_nat p)%Z).
    { symmetry. apply (Z.mod_unique _ 15 (Z.of_nat s)); lia. }
    rewrite Hq, Hr, !Nat2Z.id. reflexivity. }
  split; [exact Hat|]. split; [|split; [|split]].
  - intros index index' H H' E.
    destruct (getitem_in_range n_sequences index H) as [E1 [Hs Hp]].
    destruct (getitem_in_range n_sequences index' H') as [E2 [Hs' Hp']].
    rewrite E1, E2 in E.
    assert (Es : Z.to_nat (index / 15) = Z.to_nat (index' / 15)) by congruence.
    assert (Ep : nth (Z.to_nat (index mod 15)) HPatches._pairs_order (0, 0)
                 = nth (Z.to_nat (index' mod 15)) HPatches._pairs_order (0, 0))
      by congruence.
    assert (Epos : Z.to_nat (index mod 15) = Z.to_nat (index' mod 15)).
    { destruct (lookup_lt_is_Some_2 HPatches._pairs_order (Z.to_nat (index mod 15)))
        as [x Hx]; [change (length HPatches._pairs_order) with 15; lia|].
      destruct (lookup_lt_is_Some_2 HPatches._pairs_order (Z.to_nat (index' mod 15)))
        as [y Hy]; [change (length HPatches._pairs_order) with 15; lia|].
      rewrite (nth_lookup_Some _ _ _ _ Hx), (nth_lookup_Some _ _ _ _ Hy) in Ep.
      subst y.
      exact (proj1 (NoDup_alt HPatches._pairs_order) pairs_order_NoDup _ _ _ Hx Hy). }
    pose proof (Z.div_mod index 15 ltac:(lia)).
    pose proof (Z.div_mod index' 15 ltac:(lia)).
    pose proof (Z.mod_pos_bound index 15 ltac:(lia)).
    pose proof (Z.mod_pos_bound index' 15 ltac:(lia)).
    assert (0 <= index / 15)%Z by (apply Z.div_pos; lia).
    assert (0 <= index' / 15)%Z by (apply Z.div_pos; lia).
    lia.
  - intros s i j Hs Hij.
    apply pairs_order_in in Hij.
    destruct (In_nth _ _ (0, 0) Hij) as [p [Hp Ep]].
    change (length HPatches._pairs_order) with 15 in Hp.
    exists (Z.of_nat (15 * s + p)). split.
    + unfold HPatches.__len__, HPatches.pairs_per_sequence. lia.
    + rewrite Hat by assumption. rewrite Ep. reflexivity.
  - unfold HPatches.__len__, HPatches.pairs_per_sequence. intros index H.
    pose proof (Z.mod_pos_bound index 15 ltac:(lia)) as Hm.
    pose proof (Z.div_mod index 15 ltac:(lia)) as Hd.
    replace (index + Z.of_nat (15 * n_sequences))%Z
      with (index + Z.of_nat n_sequences * 15)%Z by lia.
    unfold HPatches.__getitem__, HPatches.pairs_per_sequence.
    change (Z.of_nat 15) with 15%Z.
    rewrite Z.div_add, Z.mod_add by lia.
    assert (Hq : (- Z.of_nat n_sequences <= index / 15 < 0)%Z) by lia.
    rewrite py_index_from_end by assumption.
    rewrite py_index_in_range by lia. reflexivity.
  - unfold HPatches.__len__, HPatches.pairs_per_sequence. intros index H.
    pose proof (Z.mod_pos_bound index 15 ltac:(lia)) as Hm.
    pose proof (Z.div_mod index 15 ltac:(lia)) as Hd.
    unfold HPatches.__getitem__, HPatches.pairs_per_sequence.
    change (Z.of_nat 15) with 15%Z.
    rewrite py_index_out_of_range by lia. reflexivity.
Qed.
